(** * Calendar slot availability: a shallow embedding of the TypeScript sources

    The development models the five exported operations of the repository

    - [IsSlotAvailable.isSlotAvailable]             (availability only),
    - [WithEvents.isSlotAvailableWithEvents]        (availability and events),
    - [WithBuffer.isSlotAvailableWithBuffer]        (availability, buffered events),
    - [Single.listAvailable30MinuteSlots]           (one person),
    - [Multi.listAvailable30MinuteSlotsMultiplePerson] (several attendees),

    first as pure functions over time values, then (modules [Store] and
    [StoreSingle], [StoreMulti], ...) as programs over a store of mutable
    [Date] objects.

    Conventions of the model.
    - A JavaScript [Date] holds a time value, an integral number of
      milliseconds since the epoch; it is a [Z].  Invalid dates (NaN) and
      the clipping of instants beyond +-8.64e15 ms are not modelled, nor is
      the remapping by [Date.UTC] of the years 0..99.
    - Numbers that the sources use as hours, minutes, durations and buffers
      are integers ([Z]).
    - A thrown exception is the [Throw] result of the [result] type. *)

From stdpp Require Import base list.
From Stdlib Require Import ZArith Lia Bool List Sorted.
Import ListNotations.

Local Open Scope Z_scope.

(** ** ECMAScript date arithmetic *)

Definition msPerMinute : Z := 60000.
Definition msPerHour : Z := 3600000.
Definition msPerDay : Z := 86400000.

(** [Day(t)], the number of the UTC day that contains [t]. *)
Definition Day (t : Z) : Z := t / msPerDay.

(** [Date.prototype.getUTCDay]: 0 is Sunday; the epoch was a Thursday. *)
Definition getUTCDay (t : Z) : Z := (Day t + 4) mod 7.

(** [MakeTime(h, m, 0, 0)]. *)
Definition MakeTime (h m : Z) : Z := h * msPerHour + m * msPerMinute.

(** [Date.UTC(d.getUTCFullYear(), d.getUTCMonth(), d.getUTCDate(), h, m)]:
    the start of the UTC day of [d], plus [h] hours and [m] minutes. *)
Definition dateUTC (d h m : Z) : Z := Day d * msPerDay + MakeTime h m.

(** [d.setUTCHours(h, m, 0, 0)] leaves [d] on its UTC day. *)
Definition setUTCHours (d h m : Z) : Z := Day d * msPerDay + MakeTime h m.

(** [d.setUTCDate(d.getUTCDate() + 1)]: the same time of day, one day on. *)
Definition nextUTCDate (d : Z) : Z := d + msPerDay.

(** The time zone of the running process, ECMAScript's [LocalTZA(t, isUTC)]:
    the offset of local time from UTC, in milliseconds, at the instant [t]
    read as UTC ([true]) or as local time ([false]). *)
Definition TimeZone : Type := Z -> bool -> Z.

Definition LocalTime (tz : TimeZone) (t : Z) : Z := t + tz t true.
Definition UTC (tz : TimeZone) (t : Z) : Z := t - tz t false.

(** The zone of a process that runs in UTC. *)
Definition utcZone : TimeZone := fun _ _ => 0.

(** A zone at a fixed offset from UTC (no daylight saving). *)
Definition fixedZone (offset : Z) : TimeZone := fun _ _ => offset.

(** [d.setHours(h, m, 0, 0)]: works on the local day of [d]. *)
Definition setHours (tz : TimeZone) (d h m : Z) : Z :=
  UTC tz (Day (LocalTime tz d) * msPerDay + MakeTime h m).

(** [d.setMinutes(d.getMinutes() + n)]: local time fields, minutes replaced. *)
Definition MinFromTime (t : Z) : Z := (t / msPerMinute) mod 60.

Definition setMinutes (tz : TimeZone) (d m : Z) : Z :=
  let t := LocalTime tz d in
  UTC tz (t - MinFromTime t * msPerMinute + m * msPerMinute).

Definition getMinutes (tz : TimeZone) (d : Z) : Z := MinFromTime (LocalTime tz d).

(** ** Results of operations that may throw *)

Inductive JsError : Type := TypeError.

Inductive result (A : Type) : Type :=
| Ok (a : A)
| Throw (e : JsError).
Arguments Ok {A} a.
Arguments Throw {A} e.

(** Sequencing: a [Throw] skips what follows.  The instances give [result]
    the notation [x ← r; k]. *)
Definition bindR {A B : Type} (k : A -> result B) (r : result A) : result B :=
  match r with
  | Ok a => k a
  | Throw e => Throw e
  end.

#[global] Instance result_ret : MRet result := fun _ a => Ok a.
#[global] Instance result_bind : MBind result := fun _ _ k r => bindR k r.

(** ** Data model *)

(** Modelled from the spec: the module [../types] that every source file
    imports is not part of the sources at hand.  The records follow section 3
    of the specification and the field accesses of the code. *)
Record TimeOfDay : Type := mkTime { hours : Z; minutes : Z }.

(** Modelled from the spec: [Weekday] (of [../types]) is an integer, 0 for
    Sunday to 6 for Saturday, compared with [getUTCDay]. *)
Definition Weekday : Type := Z.

(** Modelled from the spec: an entry of [CalendarAvailability.include]
    (of [../types]). *)
Record AvailabilityWindow : Type :=
  mkWindow { weekday : Weekday; range : list TimeOfDay }.

(** Modelled from the spec: [CalendarAvailability] (of [../types]). *)
Record CalendarAvailability : Type :=
  mkAvailability { include : list AvailabilityWindow }.

(** Modelled from the spec: the optional [buffer] of an event (of
    [../types]); a field that is absent is [None]. *)
Record Buffer : Type := mkBuffer { before : option Z; after : option Z }.

Module CalendarEvent.
(** Modelled from the spec: [CalendarEvent] (of [../types]), with the
    [Date]s as time values. *)
Record t : Type := mk { start : Z; end_ : Z; buffer : option Buffer }.
End CalendarEvent.

Module CalendarSlot.
(** Modelled from the spec: [CalendarSlot] (of [../types]). *)
Record t : Type := mk { start : Z; durationM : Z }.
End CalendarSlot.

(** [x || 0] on an optional number. *)
Definition orZero (x : option Z) : Z :=
  match x with
  | Some v => v
  | None => 0
  end.

(** [event.buffer?.before || 0] and [event.buffer?.after || 0]. *)
Definition bufferBefore (event : CalendarEvent.t) : Z :=
  orZero (b ← CalendarEvent.buffer event; before b).

Definition bufferAfter (event : CalendarEvent.t) : Z :=
  orZero (b ← CalendarEvent.buffer event; after b).

(** ** is-slot-available-with-buffer.ts *)
Module WithBuffer.

Definition calculateSlotEndTime (start durationM : Z) : Z :=
  start + durationM * 60000.

Definition isSlotInRange (tz : TimeZone) (slotStart slotEnd : Z)
    (ranges : list TimeOfDay) : bool :=
  existsb (fun range =>
    let rangeStart := setHours tz slotStart (hours range) (minutes range) in
    let rangeEnd := rangeStart + 24 * 60 * 60 * 1000 in
    (slotStart >=? rangeStart) && (slotEnd <=? rangeEnd)) ranges.

Definition isSlotWithinAvailability (tz : TimeZone) (slotStart slotEnd : Z)
    (availability : CalendarAvailability) : bool :=
  existsb (fun entry =>
    let isCorrectWeekday := weekday entry =? getUTCDay slotStart in
    isCorrectWeekday && isSlotInRange tz slotStart slotEnd (range entry))
    (include availability).

Definition calculateEventStartWithBuffer (event : CalendarEvent.t) : Z :=
  CalendarEvent.start event - bufferBefore event * 60 * 1000.

Definition calculateEventEndWithBuffer (event : CalendarEvent.t) : Z :=
  CalendarEvent.end_ event + bufferAfter event * 60 * 1000.

Definition isSlotConflictedWithEvents (slotStart slotEnd : Z)
    (events : list CalendarEvent.t) : bool :=
  existsb (fun event =>
    let eventStartWithBuffer := calculateEventStartWithBuffer event in
    let eventEndWithBuffer := calculateEventEndWithBuffer event in
    (slotStart <? eventEndWithBuffer) && (slotEnd >? eventStartWithBuffer))
    events.

Definition isSlotAvailableWithBuffer (tz : TimeZone)
    (availability : CalendarAvailability) (events : list CalendarEvent.t)
    (slot : CalendarSlot.t) : bool :=
  let slotStart := CalendarSlot.start slot in
  let slotEnd := calculateSlotEndTime slotStart (CalendarSlot.durationM slot) in
  if negb (isSlotWithinAvailability tz slotStart slotEnd availability) then false
  else if isSlotConflictedWithEvents slotStart slotEnd events then false
  else true.

End WithBuffer.

(** ** is-slot-available-with-events.ts *)
Module WithEvents.

Definition calculateSlotEndTime (start durationM : Z) : Z :=
  start + durationM * 60000.

(** The destructuring [[startRange, endRange] = range] binds [undefined] to
    what the array lacks; reading [.hours] of it throws a [TypeError]. *)
Definition isSlotWithinAvailability (slotStart slotEnd : Z)
    (availability : CalendarAvailability) : result bool :=
  let slotWeekday := getUTCDay slotStart in
  match find (fun avail => weekday avail =? slotWeekday) (include availability) with
  | None => Ok false
  | Some availabilityForDay =>
      match range availabilityForDay with
      | startRange :: endRange :: _ =>
          let availableStart :=
            setUTCHours slotStart (hours startRange) (minutes startRange) in
          let availableEnd :=
            setUTCHours slotStart (hours endRange) (minutes endRange) in
          Ok ((slotStart >=? availableStart) && (slotEnd <=? availableEnd))
      | _ => Throw TypeError
      end
  end.

Definition isSlotConflictedWithEvents (slotStart slotEnd : Z)
    (events : list CalendarEvent.t) : bool :=
  existsb (fun event =>
    let eventStart := CalendarEvent.start event in
    let eventEnd := CalendarEvent.end_ event in
    (slotStart <? eventEnd) && (slotEnd >? eventStart)) events.

Definition isSlotAvailableWithEvents (availability : CalendarAvailability)
    (events : list CalendarEvent.t) (slot : CalendarSlot.t) : result bool :=
  let slotStart := CalendarSlot.start slot in
  let slotEnd := calculateSlotEndTime slotStart (CalendarSlot.durationM slot) in
  within ← isSlotWithinAvailability slotStart slotEnd availability;
  if negb within then Ok false
  else if isSlotConflictedWithEvents slotStart slotEnd events then Ok false
  else Ok true.

End WithEvents.

(** ** is-slot-available.ts *)
Module IsSlotAvailable.

Definition getSlotWeekday (date : Z) : Weekday := getUTCDay date.

Definition findAvailabilityForWeekday (availability : CalendarAvailability)
    (weekday' : Weekday) : option AvailabilityWindow :=
  find (fun entry => weekday entry =? weekday') (include availability).

(** [range[0]] and [range[1]] are [undefined] past the end of the array, and
    reading [.hours] of [undefined] throws a [TypeError]. *)
Definition getAvailabilityTimeRange (date : Z) (range : list TimeOfDay)
    : result (Z * Z) :=
  match range with
  | r0 :: r1 :: _ =>
      let startAvailable := setUTCHours date (hours r0) (minutes r0) in
      let endAvailable := setUTCHours date (hours r1) (minutes r1) in
      Ok (startAvailable, endAvailable)
  | _ => Throw TypeError
  end.

Definition calculateSlotEndTime (tz : TimeZone) (start durationM : Z) : Z :=
  setMinutes tz start (getMinutes tz start + durationM).

Definition isSlotWithinAvailableRange
    (slotStart slotEnd startAvailable endAvailable : Z) : bool :=
  (slotStart >=? startAvailable) && (slotEnd <=? endAvailable).

Definition isSlotAvailable (tz : TimeZone) (availability : CalendarAvailability)
    (slot : CalendarSlot.t) : result bool :=
  let slotDate := CalendarSlot.start slot in
  let slotWeekday := getSlotWeekday slotDate in
  match findAvailabilityForWeekday availability slotWeekday with
  | None => Ok false
  | Some availableEntry =>
      '(startAvailable, endAvailable) ←
        getAvailabilityTimeRange slotDate (range availableEntry);
      let slotEnd :=
        calculateSlotEndTime tz (CalendarSlot.start slot) (CalendarSlot.durationM slot) in
      Ok (isSlotWithinAvailableRange (CalendarSlot.start slot) slotEnd
            startAvailable endAvailable)
  end.

End IsSlotAvailable.

(** A bound on the iterations of the day loops of the two enumerators, which
    start at [startRange], step by one day and stop past [endRange]. *)
Definition dayFuel (startRange endRange : Z) : nat :=
  Z.to_nat ((endRange - startRange) / msPerDay + 1).

(** ** list-available-30-minute-slots.ts *)
Module Single.

(** The callback of [events.some]: the three-way overlap test. *)
Definition hasConflict (events : list CalendarEvent.t)
    (currentSlotStart currentSlotEnd : Z) : bool :=
  existsb (fun event =>
    let eventStart := CalendarEvent.start event - bufferBefore event * 60 * 1000 in
    let eventEnd := CalendarEvent.end_ event + bufferAfter event * 60 * 1000 in
    ((currentSlotStart >=? eventStart) && (currentSlotStart <? eventEnd))
    || ((currentSlotEnd >? eventStart) && (currentSlotEnd <=? eventEnd))
    || ((currentSlotStart <=? eventStart) && (currentSlotEnd >=? eventEnd)))
    events.

(** The [while (currentSlotStart < rangeEndTime)] loop.  [fuel] bounds the
    number of iterations; [walkFuel] is enough for the loop to leave through
    its own tests ([slotWalk_fuel] below). *)
Fixpoint slotWalk (fuel : nat) (events : list CalendarEvent.t)
    (startRange endRange rangeEndTime currentSlotStart : Z)
    : list CalendarSlot.t :=
  match fuel with
  | O => []
  | S fuel' =>
      if currentSlotStart <? rangeEndTime then
        let currentSlotEnd := currentSlotStart + 30 * 60 * 1000 in
        if (currentSlotStart <? startRange) || (currentSlotEnd >? endRange)
        then []
        else
          (if negb (hasConflict events currentSlotStart currentSlotEnd)
           then [CalendarSlot.mk currentSlotStart 30] else [])
          ++ slotWalk fuel' events startRange endRange rangeEndTime currentSlotEnd
      else []
  end.

Definition walkFuel (rangeEndTime currentSlotStart : Z) : nat :=
  Z.to_nat ((rangeEndTime - currentSlotStart) / (30 * 60 * 1000) + 1).

(** The two instants that the callback of [forEach] builds with [Date.UTC]
    from [currentDate] and one entry of the range: the first value of
    [currentSlotStart], and [rangeEndTime]. *)
Definition blockStart (currentDate : Z) (range : TimeOfDay) : Z :=
  dateUTC currentDate (hours range) (minutes range).

Definition blockEnd (currentDate : Z) (range : TimeOfDay) : Z :=
  dateUTC currentDate (hours range + 30) (minutes range).

(** The callback of [dayAvailability.range.forEach]. *)
Definition rangeSlots (events : list CalendarEvent.t)
    (startRange endRange currentDate : Z) (range : TimeOfDay)
    : list CalendarSlot.t :=
  let currentSlotStart := blockStart currentDate range in
  let rangeEndTime := blockEnd currentDate range in
  slotWalk (walkFuel rangeEndTime currentSlotStart) events
    startRange endRange rangeEndTime currentSlotStart.

(** The body of the day loop for one value of [currentDate]. *)
Definition daySlots (availability : CalendarAvailability)
    (events : list CalendarEvent.t) (startRange endRange currentDate : Z)
    : list CalendarSlot.t :=
  let currentWeekday := getUTCDay currentDate in
  match find (fun day => weekday day =? currentWeekday) (include availability) with
  | None => []
  | Some dayAvailability =>
      flat_map (rangeSlots events startRange endRange currentDate)
        (range dayAvailability)
  end.

(** The [for] loop over the days of the range. *)
Fixpoint dayLoop (fuel : nat) (availability : CalendarAvailability)
    (events : list CalendarEvent.t) (startRange endRange currentDate : Z)
    : list CalendarSlot.t :=
  match fuel with
  | O => []
  | S fuel' =>
      if currentDate <=? endRange then
        daySlots availability events startRange endRange currentDate
        ++ dayLoop fuel' availability events startRange endRange
             (nextUTCDate currentDate)
      else []
  end.

Definition listAvailable30MinuteSlots (availability : CalendarAvailability)
    (events : list CalendarEvent.t) (range : Z * Z) : list CalendarSlot.t :=
  let '(startRange, endRange) := range in
  dayLoop (dayFuel startRange endRange) availability events
    startRange endRange startRange.

End Single.

(** ** list-available-30-minute-slots-multiple-person.ts *)
Module Multi.

Record Attendee : Type :=
  mkAttendee { availability : CalendarAvailability; events : list CalendarEvent.t }.

(** [t.hours * 60 + t.minutes] *)
Definition minutesOf (t : TimeOfDay) : Z := hours t * 60 + minutes t.

(** [intersectRanges].  The indices [i] and [j] only move forward by two, so
    the loop state is the pair of suffixes [rangeA.slice(i)], [rangeB.slice(j)];
    [endA] or [endB] is [undefined] when a suffix has one element, and the
    read of its [.hours] throws. *)
Fixpoint intersectRanges (rangeA : list TimeOfDay)
    : list TimeOfDay -> result (list TimeOfDay) :=
  fix walkB (rangeB : list TimeOfDay) : result (list TimeOfDay) :=
    match rangeA, rangeB with
    | startA :: restA, startB :: restB =>
        match restA, restB with
        | endA :: nextA, endB :: nextB =>
            let maxStart :=
              if minutesOf startA >? minutesOf startB then startA else startB in
            let minEnd :=
              if minutesOf endA <? minutesOf endB then endA else endB in
            let pushed :=
              if minutesOf maxStart <? minutesOf minEnd
              then [maxStart; minEnd] else [] in
            result' ←
              (if minutesOf endA <? minutesOf endB
               then intersectRanges nextA rangeB
               else walkB nextB);
            Ok (pushed ++ result')
        | _, _ => Throw TypeError
        end
    | _, _ => Ok []
    end.

(** [xs.reduce(f)] with no initial value: a [TypeError] on an empty array. *)
Definition reduce {A : Type} (f : A -> A -> result A) (xs : list A) : result A :=
  match xs with
  | [] => Throw TypeError
  | x :: rest => fold_left (fun acc curr => a ← acc; f a curr) rest (Ok x)
  end.

(** The test of [attendees.every] and [events.every] for one sub-slot. *)
Definition isAvailableForAll (attendees : list Attendee)
    (currentSlotStart currentSlotEnd : Z) : bool :=
  forallb (fun attendee =>
    forallb (fun event =>
      let eventStart := CalendarEvent.start event - bufferBefore event * 60 * 1000 in
      let eventEnd := CalendarEvent.end_ event + bufferAfter event * 60 * 1000 in
      (currentSlotEnd <=? eventStart) || (currentSlotStart >=? eventEnd))
      (events attendee)) attendees.

(** The [while (currentSlotStart < rangeEndTime && currentSlotStart < endRange)]
    loop. *)
Fixpoint slotWalk (fuel : nat) (attendees : list Attendee)
    (endRange rangeEndTime currentSlotStart : Z) : list CalendarSlot.t :=
  match fuel with
  | O => []
  | S fuel' =>
      if (currentSlotStart <? rangeEndTime) && (currentSlotStart <? endRange) then
        let currentSlotEnd := currentSlotStart + 30 * 60 * 1000 in
        (if isAvailableForAll attendees currentSlotStart currentSlotEnd
         then [CalendarSlot.mk currentSlotStart 30] else [])
        ++ slotWalk fuel' attendees endRange rangeEndTime currentSlotEnd
      else []
  end.

Definition walkFuel (endRange rangeEndTime currentSlotStart : Z) : nat :=
  Z.to_nat ((Z.min rangeEndTime endRange - currentSlotStart) / (30 * 60 * 1000) + 1).

(** The [for (let i = 0; i < commonRange.length - 1; i += 2)] loop: one walk
    for each complete pair; a last unpaired element is skipped. *)
Fixpoint pairLoop (attendees : list Attendee) (endRange currentDate : Z)
    (commonRange : list TimeOfDay) : list CalendarSlot.t :=
  match commonRange with
  | rangeStart :: rangeEnd :: rest =>
      let currentSlotStart :=
        dateUTC currentDate (hours rangeStart) (minutes rangeStart) in
      let rangeEndTime :=
        dateUTC currentDate (hours rangeEnd) (minutes rangeEnd) in
      slotWalk (walkFuel endRange rangeEndTime currentSlotStart) attendees
        endRange rangeEndTime currentSlotStart
      ++ pairLoop attendees endRange currentDate rest
  | _ => []
  end.

(** [attendees.map(...find(...)?.range).filter(Boolean)]. *)
Definition commonAvailableRanges (attendees : list Attendee)
    (currentWeekday : Weekday) : list (list TimeOfDay) :=
  omap (fun attendee =>
    range <$> find (fun day => weekday day =? currentWeekday)
                (include (availability attendee))) attendees.

(** The body of the day loop.  An array is truthy, so the callback of
    [reduce] always intersects and [if (!commonRange) continue] never
    fires. *)
Definition daySlots (attendees : list Attendee) (endRange currentDate : Z)
    : result (list CalendarSlot.t) :=
  let currentWeekday := getUTCDay currentDate in
  let ranges := commonAvailableRanges attendees currentWeekday in
  if negb (length ranges =? length attendees)%nat then Ok []
  else
    commonRange ← reduce intersectRanges ranges;
    Ok (pairLoop attendees endRange currentDate commonRange).

Fixpoint dayLoop (fuel : nat) (attendees : list Attendee)
    (endRange currentDate : Z) : result (list CalendarSlot.t) :=
  match fuel with
  | O => Ok []
  | S fuel' =>
      if currentDate <=? endRange then
        today ← daySlots attendees endRange currentDate;
        later ← dayLoop fuel' attendees endRange (nextUTCDate currentDate);
        Ok (today ++ later)
      else Ok []
  end.

Definition listAvailable30MinuteSlotsMultiplePerson (attendees : list Attendee)
    (range : Z * Z) : result (list CalendarSlot.t) :=
  let '(startRange, endRange) := range in
  dayLoop (dayFuel startRange endRange) attendees endRange startRange.

End Multi.

(** ** The operations over a store of [Date] objects

    The sources never assign to a field of an availability, of an event, of an
    attendee or of a slot, and the only arrays they push to are the ones they
    create ([availableSlots], [result]); what they do mutate are [Date]
    objects, with [setUTCDate], [setHours], [setUTCHours] and [setMinutes].
    This second model keeps the [Date]s in a store: an event, a slot and a
    date range hold the addresses of their [Date]s, [new Date] allocates a
    cell, and a setter writes the cell of its receiver. *)
Module Store.

(** The address of a [Date] object, and the store: cell [l] holds the time
    value of the [Date] at address [l]. *)
Abbreviation loc := nat (only parsing).
Abbreviation heap := (list Z) (only parsing).

(** A computation reads and writes the store and returns or throws; the store
    survives a throw. *)
Record M (A : Type) : Type := mkM { run : heap -> heap * result A }.
Arguments mkM {A} run.
Arguments run {A} m h.

#[global] Instance M_ret : MRet M := fun _ a => mkM (fun h => (h, Ok a)).

#[global] Instance M_bind : MBind M := fun _ _ k m =>
  mkM (fun h =>
    match run m h with
    | (h', Ok a) => run (k a) h'
    | (h', Throw e) => (h', Throw e)
    end).

Definition throw {A : Type} (e : JsError) : M A := mkM (fun h => (h, Throw e)).

(** The result of a computation that has no part in the store. *)
Definition liftR {A : Type} (r : result A) : M A := mkM (fun h => (h, r)).

(** The time value of the [Date] at [d]; an address is always that of an
    object, and the 0 of the other case is never read. *)
Definition readDate (h : heap) (d : loc) : Z := default 0 (h !! d).

(** [new Date(v)] for a number [v]. *)
Definition newDate (v : Z) : M loc := mkM (fun h => (h ++ [v], Ok (length h))).

(** [d.getTime()], and the conversion of [d] to a number in a comparison. *)
Definition getTime (d : loc) : M Z := mkM (fun h => (h, Ok (readDate h d))).

(** The write that every setter of [d] ends with. *)
Definition setTime (d : loc) (v : Z) : M unit := mkM (fun h => (<[d := v]> h, Ok tt)).

(** [new Date(d)] for a [Date] [d]. *)
Definition copyDate (d : loc) : M loc := t ← getTime d; newDate t.

(** [a < b], [a <= b], [a > b], [a >= b] on two [Date]s. *)
Definition dateLt (a b : loc) : M bool := x ← getTime a; y ← getTime b; mret (x <? y).
Definition dateLe (a b : loc) : M bool := x ← getTime a; y ← getTime b; mret (x <=? y).
Definition dateGt (a b : loc) : M bool := x ← getTime a; y ← getTime b; mret (x >? y).
Definition dateGe (a b : loc) : M bool := x ← getTime a; y ← getTime b; mret (x >=? y).

(** [d.getUTCDay()] *)
Definition dateGetUTCDay (d : loc) : M Z := t ← getTime d; mret (getUTCDay t).

(** [d.setUTCDate(d.getUTCDate() + 1)] *)
Definition dateSetNextUTCDate (d : loc) : M unit :=
  t ← getTime d; setTime d (nextUTCDate t).

(** [d.setUTCHours(h, m, 0, 0)] *)
Definition dateSetUTCHours (d : loc) (h m : Z) : M unit :=
  t ← getTime d; setTime d (setUTCHours t h m).

(** [d.setHours(h, m, 0, 0)] *)
Definition dateSetHours (tz : TimeZone) (d : loc) (h m : Z) : M unit :=
  t ← getTime d; setTime d (setHours tz t h m).

(** [new Date(Date.UTC(d.getUTCFullYear(), d.getUTCMonth(), d.getUTCDate(), h, m))] *)
Definition newDateUTC (d : loc) (h m : Z) : M loc :=
  t ← getTime d; newDate (dateUTC t h m).

(** [xs.some(p)] and [xs.every(p)] stop at the first callback that decides. *)
Fixpoint someM {A : Type} (p : A -> M bool) (xs : list A) : M bool :=
  match xs with
  | [] => mret false
  | x :: rest => b ← p x; if (b : bool) then mret true else someM p rest
  end.

Fixpoint everyM {A : Type} (p : A -> M bool) (xs : list A) : M bool :=
  match xs with
  | [] => mret true
  | x :: rest => b ← p x; if (b : bool) then everyM p rest else mret false
  end.

(** [xs.forEach(f)] where [f] pushes slots to the array of results. *)
Fixpoint forEachM {A B : Type} (f : A -> M (list B)) (xs : list A) : M (list B) :=
  match xs with
  | [] => mret []
  | x :: rest => pushed ← f x; later ← forEachM f rest; mret (pushed ++ later)
  end.

(** A loop whose bound on iterations is computed from the store at its entry. *)
Definition withFuel {A : Type} (fuel : heap -> nat) (loop : nat -> M A) : M A :=
  mkM (fun h => run (loop (fuel h)) h).

(** Modelled from the spec: [CalendarEvent] (of [../types]) as an object whose
    [start] and [end] are the addresses of two [Date]s. *)
Record EventObj : Type :=
  mkEventObj { eventStart : loc; eventEnd : loc; eventBuffer : option Buffer }.

(** Modelled from the spec: [CalendarSlot] (of [../types]) as an object whose
    [start] is the address of a [Date]. *)
Record SlotObj : Type := mkSlotObj { slotStart : loc; slotDurationM : Z }.

Record AttendeeObj : Type :=
  mkAttendeeObj { attendeeAvailability : CalendarAvailability;
                  attendeeEvents : list EventObj }.

(** What the objects hold in a given store. *)
Definition readEvent (h : heap) (event : EventObj) : CalendarEvent.t :=
  CalendarEvent.mk (readDate h (eventStart event)) (readDate h (eventEnd event))
    (eventBuffer event).

Definition readSlot (h : heap) (slot : SlotObj) : CalendarSlot.t :=
  CalendarSlot.mk (readDate h (slotStart slot)) (slotDurationM slot).

Definition readAttendee (h : heap) (attendee : AttendeeObj) : Multi.Attendee :=
  Multi.mkAttendee (attendeeAvailability attendee)
    (map (readEvent h) (attendeeEvents attendee)).

(** [event.buffer?.before || 0], [event.buffer?.after || 0] *)
Definition objBufferBefore (event : EventObj) : Z :=
  orZero (b ← eventBuffer event; before b).

Definition objBufferAfter (event : EventObj) : Z :=
  orZero (b ← eventBuffer event; after b).

(** The two [new Date(event.start.getTime() - ...)], [new Date(event.end.getTime() + ...)]
    of the buffer-aware operations. *)
Definition newBufferedStart (event : EventObj) : M loc :=
  t ← getTime (eventStart event); newDate (t - objBufferBefore event * 60 * 1000).

Definition newBufferedEnd (event : EventObj) : M loc :=
  t ← getTime (eventEnd event); newDate (t + objBufferAfter event * 60 * 1000).

End Store.

(** *** is-slot-available-with-buffer.ts, over the store *)
Module StoreWithBuffer.
Import Store.

Definition calculateSlotEndTime (start : loc) (durationM : Z) : M loc :=
  t ← getTime start; newDate (t + durationM * 60000).

Definition isSlotInRange (tz : TimeZone) (slotStart slotEnd : loc)
    (ranges : list TimeOfDay) : M bool :=
  someM (fun range =>
    rangeStart ← copyDate slotStart;
    _ ← dateSetHours tz rangeStart (hours range) (minutes range);
    t ← getTime rangeStart;
    rangeEnd ← newDate (t + 24 * 60 * 60 * 1000);
    inside ← dateGe slotStart rangeStart;
    if (inside : bool) then dateLe slotEnd rangeEnd else mret false) ranges.

Definition isSlotWithinAvailability (tz : TimeZone) (slotStart slotEnd : loc)
    (availability : CalendarAvailability) : M bool :=
  someM (fun entry =>
    day ← dateGetUTCDay slotStart;
    let isCorrectWeekday := weekday entry =? day in
    if isCorrectWeekday then isSlotInRange tz slotStart slotEnd (range entry)
    else mret false) (include availability).

Definition isSlotConflictedWithEvents (slotStart slotEnd : loc)
    (events : list EventObj) : M bool :=
  someM (fun event =>
    eventStartWithBuffer ← newBufferedStart event;
    eventEndWithBuffer ← newBufferedEnd event;
    startsBefore ← dateLt slotStart eventEndWithBuffer;
    if (startsBefore : bool) then dateGt slotEnd eventStartWithBuffer else mret false) events.

Definition isSlotAvailableWithBuffer (tz : TimeZone)
    (availability : CalendarAvailability) (events : list EventObj)
    (slot : SlotObj) : M bool :=
  let slotStart := slotStart slot in
  slotEnd ← calculateSlotEndTime slotStart (slotDurationM slot);
  within ← isSlotWithinAvailability tz slotStart slotEnd availability;
  if negb within then mret false
  else
    conflicted ← isSlotConflictedWithEvents slotStart slotEnd events;
    if (conflicted : bool) then mret false else mret true.

End StoreWithBuffer.

(** *** is-slot-available-with-events.ts, over the store *)
Module StoreWithEvents.
Import Store.

Definition calculateSlotEndTime (start : loc) (durationM : Z) : M loc :=
  t ← getTime start; newDate (t + durationM * 60000).

(** [availableStart] is created before [startRange.hours] is read, and
    [availableEnd] before [endRange.hours]. *)
Definition isSlotWithinAvailability (slotStart slotEnd : loc)
    (availability : CalendarAvailability) : M bool :=
  slotWeekday ← dateGetUTCDay slotStart;
  match find (fun avail => weekday avail =? slotWeekday) (include availability) with
  | None => mret false
  | Some availabilityForDay =>
      match range availabilityForDay with
      | [] => _ ← copyDate slotStart; throw TypeError
      | [startRange] =>
          availableStart ← copyDate slotStart;
          _ ← dateSetUTCHours availableStart (hours startRange) (minutes startRange);
          _ ← copyDate slotStart;
          throw TypeError
      | startRange :: endRange :: _ =>
          availableStart ← copyDate slotStart;
          _ ← dateSetUTCHours availableStart (hours startRange) (minutes startRange);
          availableEnd ← copyDate slotStart;
          _ ← dateSetUTCHours availableEnd (hours endRange) (minutes endRange);
          inside ← dateGe slotStart availableStart;
          if (inside : bool) then dateLe slotEnd availableEnd else mret false
      end
  end.

Definition isSlotConflictedWithEvents (slotStart slotEnd : loc)
    (events : list EventObj) : M bool :=
  someM (fun event =>
    let eventStart := eventStart event in
    let eventEnd := eventEnd event in
    startsBefore ← dateLt slotStart eventEnd;
    if (startsBefore : bool) then dateGt slotEnd eventStart else mret false) events.

Definition isSlotAvailableWithEvents (availability : CalendarAvailability)
    (events : list EventObj) (slot : SlotObj) : M bool :=
  let slotStart := slotStart slot in
  slotEnd ← calculateSlotEndTime slotStart (slotDurationM slot);
  within ← isSlotWithinAvailability slotStart slotEnd availability;
  if negb within then mret false
  else
    conflicted ← isSlotConflictedWithEvents slotStart slotEnd events;
    if (conflicted : bool) then mret false else mret true.

End StoreWithEvents.

(** *** is-slot-available.ts, over the store *)
Module StoreIsSlotAvailable.
Import Store.

Definition getAvailabilityTimeRange (date : loc) (range : list TimeOfDay)
    : M (loc * loc) :=
  startAvailable ← copyDate date;
  match range with
  | [] => throw TypeError
  | r0 :: rest =>
      _ ← dateSetUTCHours startAvailable (hours r0) (minutes r0);
      endAvailable ← copyDate date;
      match rest with
      | [] => throw TypeError
      | r1 :: _ =>
          _ ← dateSetUTCHours endAvailable (hours r1) (minutes r1);
          mret (startAvailable, endAvailable)
      end
  end.

Definition calculateSlotEndTime (tz : TimeZone) (start : loc) (durationM : Z) : M loc :=
  endTime ← copyDate start;
  t ← getTime endTime;
  _ ← setTime endTime (setMinutes tz t (getMinutes tz t + durationM));
  mret endTime.

Definition isSlotWithinAvailableRange
    (slotStart slotEnd startAvailable endAvailable : loc) : M bool :=
  inside ← dateGe slotStart startAvailable;
  if (inside : bool) then dateLe slotEnd endAvailable else mret false.

Definition isSlotAvailable (tz : TimeZone) (availability : CalendarAvailability)
    (slot : SlotObj) : M bool :=
  let slotDate := slotStart slot in
  slotWeekday ← dateGetUTCDay slotDate;
  match IsSlotAvailable.findAvailabilityForWeekday availability slotWeekday with
  | None => mret false
  | Some availableEntry =>
      '(startAvailable, endAvailable) ←
        getAvailabilityTimeRange slotDate (range availableEntry);
      slotEnd ← calculateSlotEndTime tz (slotStart slot) (slotDurationM slot);
      isSlotWithinAvailableRange (slotStart slot) slotEnd startAvailable endAvailable
  end.

End StoreIsSlotAvailable.

(** *** list-available-30-minute-slots.ts, over the store *)
Module StoreSingle.
Import Store.

Definition hasConflict (events : list EventObj)
    (currentSlotStart currentSlotEnd : loc) : M bool :=
  someM (fun event =>
    eventStart ← newBufferedStart event;
    eventEnd ← newBufferedEnd event;
    startsInside ←
      (a ← dateGe currentSlotStart eventStart;
       if (a : bool) then dateLt currentSlotStart eventEnd else mret false);
    if (startsInside : bool) then mret true
    else
      endsInside ←
        (a ← dateGt currentSlotEnd eventStart;
         if (a : bool) then dateLe currentSlotEnd eventEnd else mret false);
      if (endsInside : bool) then mret true
      else
        a ← dateLe currentSlotStart eventStart;
        if (a : bool) then dateGe currentSlotEnd eventEnd else mret false) events.

Fixpoint slotWalk (fuel : nat) (events : list EventObj)
    (startRange endRange rangeEndTime currentSlotStart : loc) : M (list SlotObj) :=
  match fuel with
  | O => mret []
  | S fuel' =>
      inBlock ← dateLt currentSlotStart rangeEndTime;
      if (inBlock : bool) then
        t ← getTime currentSlotStart;
        currentSlotEnd ← newDate (t + 30 * 60 * 1000);
        early ← dateLt currentSlotStart startRange;
        outside ← (if (early : bool) then mret true else dateGt currentSlotEnd endRange);
        if (outside : bool) then mret []
        else
          conflict ← hasConflict events currentSlotStart currentSlotEnd;
          pushed ←
            (if negb conflict
             then start ← copyDate currentSlotStart; mret [mkSlotObj start 30]
             else mret []);
          later ← slotWalk fuel' events startRange endRange rangeEndTime currentSlotEnd;
          mret (pushed ++ later)
      else mret []
  end.

Definition rangeSlots (events : list EventObj)
    (startRange endRange currentDate : loc) (range : TimeOfDay) : M (list SlotObj) :=
  currentSlotStart ← newDateUTC currentDate (hours range) (minutes range);
  rangeEndTime ← newDateUTC currentDate (hours range + 30) (minutes range);
  withFuel
    (fun h => Single.walkFuel (readDate h rangeEndTime) (readDate h currentSlotStart))
    (fun fuel => slotWalk fuel events startRange endRange rangeEndTime currentSlotStart).

Definition daySlots (availability : CalendarAvailability) (events : list EventObj)
    (startRange endRange currentDate : loc) : M (list SlotObj) :=
  currentWeekday ← dateGetUTCDay currentDate;
  match find (fun day => weekday day =? currentWeekday) (include availability) with
  | None => mret []
  | Some dayAvailability =>
      forEachM (rangeSlots events startRange endRange currentDate)
        (range dayAvailability)
  end.

Fixpoint dayLoop (fuel : nat) (availability : CalendarAvailability)
    (events : list EventObj) (startRange endRange currentDate : loc)
    : M (list SlotObj) :=
  match fuel with
  | O => mret []
  | S fuel' =>
      inRange ← dateLe currentDate endRange;
      if (inRange : bool) then
        today ← daySlots availability events startRange endRange currentDate;
        _ ← dateSetNextUTCDate currentDate;
        later ← dayLoop fuel' availability events startRange endRange currentDate;
        mret (today ++ later)
      else mret []
  end.

Definition listAvailable30MinuteSlots (availability : CalendarAvailability)
    (events : list EventObj) (range : loc * loc) : M (list SlotObj) :=
  let '(startRange, endRange) := range in
  currentDate ← copyDate startRange;
  withFuel (fun h => dayFuel (readDate h currentDate) (readDate h endRange))
    (fun fuel => dayLoop fuel availability events startRange endRange currentDate).

End StoreSingle.

(** *** list-available-30-minute-slots-multiple-person.ts, over the store *)
Module StoreMulti.
Import Store.

Definition isAvailableForAll (attendees : list AttendeeObj)
    (currentSlotStart currentSlotEnd : loc) : M bool :=
  everyM (fun attendee =>
    everyM (fun event =>
      eventStart ← newBufferedStart event;
      eventEnd ← newBufferedEnd event;
      a ← dateLe currentSlotEnd eventStart;
      if (a : bool) then mret true else dateGe currentSlotStart eventEnd)
      (attendeeEvents attendee)) attendees.

Fixpoint slotWalk (fuel : nat) (attendees : list AttendeeObj)
    (endRange rangeEndTime currentSlotStart : loc) : M (list SlotObj) :=
  match fuel with
  | O => mret []
  | S fuel' =>
      inPair ← dateLt currentSlotStart rangeEndTime;
      inRange ← (if (inPair : bool) then dateLt currentSlotStart endRange else mret false);
      if (inRange : bool) then
        t ← getTime currentSlotStart;
        currentSlotEnd ← newDate (t + 30 * 60 * 1000);
        free ← isAvailableForAll attendees currentSlotStart currentSlotEnd;
        pushed ←
          (if (free : bool)
           then start ← copyDate currentSlotStart; mret [mkSlotObj start 30]
           else mret []);
        later ← slotWalk fuel' attendees endRange rangeEndTime currentSlotEnd;
        mret (pushed ++ later)
      else mret []
  end.

Fixpoint pairLoop (attendees : list AttendeeObj) (endRange currentDate : loc)
    (commonRange : list TimeOfDay) : M (list SlotObj) :=
  match commonRange with
  | rangeStart :: rangeEnd :: rest =>
      currentSlotStart ←
        newDateUTC currentDate (hours rangeStart) (minutes rangeStart);
      rangeEndTime ← newDateUTC currentDate (hours rangeEnd) (minutes rangeEnd);
      pushed ←
        withFuel
          (fun h => Multi.walkFuel (readDate h endRange) (readDate h rangeEndTime)
                      (readDate h currentSlotStart))
          (fun fuel => slotWalk fuel attendees endRange rangeEndTime currentSlotStart);
      later ← pairLoop attendees endRange currentDate rest;
      mret (pushed ++ later)
  | _ => mret []
  end.

Definition commonAvailableRanges (attendees : list AttendeeObj)
    (currentWeekday : Weekday) : list (list TimeOfDay) :=
  omap (fun attendee =>
    range <$> find (fun day => weekday day =? currentWeekday)
                (include (attendeeAvailability attendee))) attendees.

Definition daySlots (attendees : list AttendeeObj) (endRange currentDate : loc)
    : M (list SlotObj) :=
  currentWeekday ← dateGetUTCDay currentDate;
  let ranges := commonAvailableRanges attendees currentWeekday in
  if negb (length ranges =? length attendees)%nat then mret []
  else
    commonRange ← liftR (Multi.reduce Multi.intersectRanges ranges);
    pairLoop attendees endRange currentDate commonRange.

Fixpoint dayLoop (fuel : nat) (attendees : list AttendeeObj)
    (endRange currentDate : loc) : M (list SlotObj) :=
  match fuel with
  | O => mret []
  | S fuel' =>
      inRange ← dateLe currentDate endRange;
      if (inRange : bool) then
        today ← daySlots attendees endRange currentDate;
        _ ← dateSetNextUTCDate currentDate;
        later ← dayLoop fuel' attendees endRange currentDate;
        mret (today ++ later)
      else mret []
  end.

Definition listAvailable30MinuteSlotsMultiplePerson (attendees : list AttendeeObj)
    (range : loc * loc) : M (list SlotObj) :=
  let '(startRange, endRange) := range in
  currentDate ← copyDate startRange;
  withFuel (fun h => dayFuel (readDate h currentDate) (readDate h endRange))
    (fun fuel => dayLoop fuel attendees endRange currentDate).

End StoreMulti.


(** * The vocabulary of the properties *)

(** ** Test data: Sunday 4 January 1970 and the days after it *)

(** The instant [h:m] UTC of the first Sunday after the epoch; hours from 24
    on fall on the following days. *)
Definition sunday (h m : Z) : Z := 3 * msPerDay + MakeTime h m.

(** Free on Sundays, 09:00 to 10:00. *)
Definition sundayMorning : CalendarAvailability :=
  mkAvailability [mkWindow 0 [mkTime 9 0; mkTime 10 0]].

(** Free on Sundays from 09:00 to 10:00, with no event. *)
Definition sundayAttendee : Multi.Attendee := Multi.mkAttendee sundayMorning [].

(** A store with the range Sunday 09:00 to 10:00 at the addresses 0 and 1, and
    an event 09:00 to 09:15 at the addresses 2 and 3. *)
Definition sundayStore : list Z := [sunday 9 0; sunday 10 0; sunday 9 0; sunday 9 15].

(** ** Events, ranges and intersections *)

(** The buffered interval of an event, as all three buffer-aware operations
    compute it. *)
Definition bufferedStart (event : CalendarEvent.t) : Z :=
  CalendarEvent.start event - bufferBefore event * 60 * 1000.

Definition bufferedEnd (event : CalendarEvent.t) : Z :=
  CalendarEvent.end_ event + bufferAfter event * 60 * 1000.

(** [event'] is [event] with buffers that are at least as large. *)
Definition bufferGrown (event event' : CalendarEvent.t) : Prop :=
  CalendarEvent.start event' = CalendarEvent.start event
  /\ CalendarEvent.end_ event' = CalendarEvent.end_ event
  /\ bufferBefore event <= bufferBefore event'
  /\ bufferAfter event <= bufferAfter event'.

(** The condition of the specification: the entry found for the UTC weekday of
    the slot has at least two time-of-day values, and the slot lies between the
    instants that the first two of them give on the UTC day of the slot. *)
Definition withinFirstPair (availability : CalendarAvailability)
    (slot : CalendarSlot.t) : Prop :=
  let slotStart := CalendarSlot.start slot in
  let slotEnd := slotStart + CalendarSlot.durationM slot * 60000 in
  exists entry first second others,
    find (fun day => weekday day =? getUTCDay slotStart) (include availability)
    = Some entry
    /\ range entry = first :: second :: others
    /\ setUTCHours slotStart (hours first) (minutes first) <= slotStart
    /\ slotEnd <= setUTCHours slotStart (hours second) (minutes second).

(** A range made of complete pairs. *)
Definition paired (range : list TimeOfDay) : Prop := Nat.even (length range) = true.

(** What one step of [intersectRanges] pushes. *)
Definition overlapOf (startA endA startB endB : TimeOfDay) : list TimeOfDay :=
  let maxStart :=
    if Multi.minutesOf startA >? Multi.minutesOf startB then startA else startB in
  let minEnd :=
    if Multi.minutesOf endA <? Multi.minutesOf endB then endA else endB in
  if Multi.minutesOf maxStart <? Multi.minutesOf minEnd then [maxStart; minEnd] else [].

(** Every range of every attendee is made of complete pairs. *)
Definition pairedAttendees (attendees : list Multi.Attendee) : Prop :=
  Forall (fun attendee =>
    Forall (fun entry => paired (range entry)) (include (Multi.availability attendee)))
    attendees.

(** The pairs of minutes since midnight that a range denotes. *)
Fixpoint pairsOf (range : list TimeOfDay) : list (Z * Z) :=
  match range with
  | start :: end_ :: rest =>
      (Multi.minutesOf start, Multi.minutesOf end_) :: pairsOf rest
  | _ => []
  end.

(** A valid pair-sequence: complete pairs, each one ascending, none starting
    before the one before it has ended. *)
Fixpoint validRange (range : list TimeOfDay) : Prop :=
  match range with
  | [] => True
  | [_] => False
  | start :: end_ :: rest =>
      Multi.minutesOf start < Multi.minutesOf end_
      /\ match rest with
         | [] => True
         | next :: _ => Multi.minutesOf end_ <= Multi.minutesOf next
         end
      /\ validRange rest
  end.

(** A time of day with its minutes in 0..59 is determined by its minutes since
    midnight. *)
Definition normalTime (t : TimeOfDay) : Prop := 0 <= minutes t < 60.

(** ** Runs over the store *)
Module StoreSpec.
Import Store.

(** [m] runs from [h] to a store that extends [h], with the result [r]. *)
Definition extends {A : Type} (m : M A) (h : heap) (r : result A) : Prop :=
  exists k, run m h = (h ++ k, r).

(** Every [Date] of the events is an object of the store. *)
Definition eventsIn (h : heap) (events : list EventObj) : Prop :=
  Forall (fun event =>
    (eventStart event < length h)%nat /\ (eventEnd event < length h)%nat) events.

(** Every [Date] of the events of the attendees is an object of the store. *)
Definition attendeesIn (h : heap) (attendees : list AttendeeObj) : Prop :=
  Forall (fun attendee => eventsIn h (attendeeEvents attendee)) attendees.

(** [m] runs from [h] to a store that extends [h] and returns slot objects
    whose [Date]s were created on the way and hold the starts of [slots]. *)
Definition yields (m : M (list SlotObj)) (h : heap) (slots : list CalendarSlot.t) : Prop :=
  exists k objs,
    run m h = (h ++ k, Ok objs)
    /\ map (readSlot (h ++ k)) objs = slots
    /\ Forall (fun obj => (length h <= slotStart obj < length (h ++ k))%nat) objs
    /\ NoDup (map slotStart objs).

(** [m] yields the slots of [r], or throws what [r] throws. *)
Definition yieldsR (m : M (list SlotObj)) (h : heap)
    (r : result (list CalendarSlot.t)) : Prop :=
  match r with
  | Ok slots => yields m h slots
  | Throw e => extends m h (Throw e)
  end.

(** The [Date]s of [h] hold the same time values in [h']. *)
Definition unchanged (h h' : heap) : Prop :=
  forall d : loc, (d < length h)%nat -> h' !! d = h !! d.

End StoreSpec.

(** ** Walks, covered minutes *)

(** The starts of [n] consecutive 30-minute sub-slots, from [cur] on. *)
Fixpoint grid (n : nat) (cur : Z) : list Z :=
  match n with
  | O => []
  | S n' => cur :: grid n' (cur + 30 * 60 * 1000)
  end.

(** The number of sub-slots that the walk of [listAvailable30MinuteSlots]
    visits from [cur] before it leaves the block or the date range. *)
Definition singleWalkCount (endRange rangeEndTime cur : Z) : nat :=
  Z.to_nat (Z.min ((rangeEndTime - cur + (30 * 60 * 1000 - 1)) / (30 * 60 * 1000))
                  ((endRange - cur) / (30 * 60 * 1000))).

(** The number of sub-slots that the walk of
    [listAvailable30MinuteSlotsMultiplePerson] visits from [cur]. *)
Definition multiWalkCount (endRange rangeEndTime cur : Z) : nat :=
  Z.to_nat ((Z.min rangeEndTime endRange - cur + (30 * 60 * 1000 - 1))
            / (30 * 60 * 1000)).

(** The minute [t] of the day lies in one of the pairs of [range]. *)
Definition covers (range : list TimeOfDay) (t : Z) : Prop :=
  exists pair, In pair (pairsOf range) /\ fst pair <= t < snd pair.

(** A valid pair-sequence none of whose pairs starts before [lo]. *)
Fixpoint validFrom (lo : Z) (range : list TimeOfDay) : Prop :=
  match range with
  | [] => True
  | [_] => False
  | start :: end_ :: rest =>
      lo <= Multi.minutesOf start
      /\ Multi.minutesOf start < Multi.minutesOf end_
      /\ validFrom (Multi.minutesOf end_) rest
  end.

(** Every entry of every attendee holds a valid pair-sequence. *)
Definition validAttendees (attendees : list Multi.Attendee) : Prop :=
  Forall (fun attendee =>
    Forall (fun entry => validRange (range entry)) (include (Multi.availability attendee)))
    attendees.

(** No event has a buffer, or all its buffers are zero. *)
Definition unbuffered (event : CalendarEvent.t) : Prop :=
  bufferBefore event = 0 /\ bufferAfter event = 0.


(** The entry of the attendee for the weekday of [currentDate] holds a pair
    that contains the minute [t] of the day. *)
Definition availableAt (attendee : Multi.Attendee) (currentDate t : Z) : Prop :=
  exists entry,
    find (fun day => weekday day =? getUTCDay currentDate)
      (include (Multi.availability attendee)) = Some entry
    /\ covers (range entry) t.

(** The dates that the day loops visit: [n] days from [cur] on. *)
Fixpoint days (n : nat) (cur : Z) : list Z :=
  match n with
  | O => []
  | S n' => cur :: days n' (nextUTCDate cur)
  end.

(** The first pair of every entry spans at most 24 hours. *)
Definition firstPairWithinADay (availability : CalendarAvailability) : Prop :=
  Forall (fun entry =>
    match range entry with
    | first :: second :: _ => Multi.minutesOf second - Multi.minutesOf first <= 24 * 60
    | _ => True
    end) (include availability).

(** * Properties *)

(** ** Date arithmetic *)

Lemma dateUTC_plus_hours (d h k m : Z) :
  dateUTC d (h + k) m = dateUTC d h m + k * msPerHour.
Proof. unfold dateUTC, MakeTime. lia. Qed.

Lemma Day_nextUTCDate (d : Z) : Day (nextUTCDate d) = Day d + 1.
Proof.
  unfold Day, nextUTCDate, msPerDay.
  replace (d + 86400000) with (d + 1 * 86400000) by lia.
  rewrite Z.div_add by lia. reflexivity.
Qed.

Lemma sunday_is_weekday_0 (h m : Z) :
  0 <= MakeTime h m < msPerDay -> getUTCDay (sunday h m) = 0.
Proof.
  intros Hr. unfold getUTCDay, Day, sunday.
  replace ((3 * msPerDay + MakeTime h m) / msPerDay) with 3; [reflexivity|].
  unfold msPerDay in *. rewrite Z.add_comm, Z.div_add by lia.
  rewrite Z.div_small by lia. reflexivity.
Qed.

(** ** The loops leave through their own tests *)

Module SingleFacts.
Import Single.

Lemma walkFuel_step (rangeEndTime cur : Z) :
  cur < rangeEndTime ->
  walkFuel rangeEndTime cur = S (walkFuel rangeEndTime (cur + 30 * 60 * 1000)).
Proof.
  intros Hlt. unfold walkFuel.
  replace (rangeEndTime - (cur + 30 * 60 * 1000))
    with (rangeEndTime - cur + (-1) * (30 * 60 * 1000)) by lia.
  rewrite Z.div_add by lia.
  assert (0 <= (rangeEndTime - cur) / (30 * 60 * 1000))
    by (apply Z.div_pos; lia).
  lia.
Qed.

(** Any fuel from [walkFuel] on gives the same walk: the loop stops because
    [currentSlotStart] reaches [rangeEndTime] or leaves the date range. *)
Lemma slotWalk_fuel (events : list CalendarEvent.t) (startRange endRange rangeEndTime : Z)
    (fuel : nat) :
  forall cur : Z,
    (walkFuel rangeEndTime cur <= fuel)%nat ->
    slotWalk fuel events startRange endRange rangeEndTime cur
    = slotWalk (walkFuel rangeEndTime cur) events startRange endRange rangeEndTime cur.
Proof.
  induction fuel as [|fuel IH]; intros cur Hle.
  - replace (walkFuel rangeEndTime cur) with O by lia. reflexivity.
  - destruct (Z.ltb_spec cur rangeEndTime) as [Hlt|Hge].
    + rewrite (walkFuel_step _ _ Hlt) in *. simpl.
      destruct (cur <? rangeEndTime); [|reflexivity].
      destruct ((cur <? startRange) || (cur + 30 * 60 * 1000 >? endRange));
        [reflexivity|].
      f_equal. apply IH. lia.
    + simpl. destruct (Z.ltb_spec cur rangeEndTime) as [?|_]; [lia|].
      destruct (walkFuel rangeEndTime cur); simpl; [reflexivity|].
      destruct (Z.ltb_spec cur rangeEndTime); [lia|reflexivity].
Qed.

Lemma dayFuel_step (startRange endRange : Z) :
  startRange <= endRange ->
  dayFuel startRange endRange = S (dayFuel (nextUTCDate startRange) endRange).
Proof.
  intros Hle. unfold dayFuel, nextUTCDate.
  replace (endRange - (startRange + msPerDay))
    with (endRange - startRange + (-1) * msPerDay) by lia.
  unfold msPerDay. rewrite Z.div_add by lia.
  assert (0 <= (endRange - startRange) / 86400000) by (apply Z.div_pos; lia).
  lia.
Qed.

Lemma dayLoop_fuel (availability : CalendarAvailability)
    (events : list CalendarEvent.t) (startRange endRange : Z) (fuel : nat) :
  forall cur : Z,
    (dayFuel cur endRange <= fuel)%nat ->
    dayLoop fuel availability events startRange endRange cur
    = dayLoop (dayFuel cur endRange) availability events startRange endRange cur.
Proof.
  induction fuel as [|fuel IH]; intros cur Hle.
  - replace (dayFuel cur endRange) with O by lia. reflexivity.
  - destruct (Z.leb_spec cur endRange) as [Hin|Hout].
    + rewrite (dayFuel_step _ _ Hin) in *. simpl.
      destruct (cur <=? endRange); [|reflexivity].
      f_equal. apply IH. lia.
    + simpl. destruct (Z.leb_spec cur endRange) as [?|_]; [lia|].
      destruct (dayFuel cur endRange); simpl; [reflexivity|].
      destruct (Z.leb_spec cur endRange); [lia|reflexivity].
Qed.

(** The enumerator unfolds one day at a time. *)
Lemma dayLoop_unfold (availability : CalendarAvailability)
    (events : list CalendarEvent.t) (startRange endRange cur : Z) :
  dayLoop (dayFuel cur endRange) availability events startRange endRange cur
  = if cur <=? endRange
    then daySlots availability events startRange endRange cur
         ++ dayLoop (dayFuel (nextUTCDate cur) endRange) availability events
              startRange endRange (nextUTCDate cur)
    else [].
Proof.
  destruct (Z.leb_spec cur endRange) as [Hin|Hout].
  - rewrite (dayFuel_step _ _ Hin). simpl.
    destruct (Z.leb_spec cur endRange); [reflexivity|lia].
  - destruct (dayFuel cur endRange); simpl; [reflexivity|].
    destruct (Z.leb_spec cur endRange); [lia|reflexivity].
Qed.

End SingleFacts.

Module MultiFacts.
Import Multi.

Lemma multi_walkFuel_step (endRange rangeEndTime cur : Z) :
  cur < rangeEndTime -> cur < endRange ->
  walkFuel endRange rangeEndTime cur
  = S (walkFuel endRange rangeEndTime (cur + 30 * 60 * 1000)).
Proof.
  intros Hpair Hrange. unfold walkFuel.
  replace (Z.min rangeEndTime endRange - (cur + 30 * 60 * 1000))
    with (Z.min rangeEndTime endRange - cur + (-1) * (30 * 60 * 1000)) by lia.
  rewrite Z.div_add by lia.
  assert (0 <= (Z.min rangeEndTime endRange - cur) / (30 * 60 * 1000))
    by (apply Z.div_pos; lia).
  lia.
Qed.

(** Any fuel from [walkFuel] on gives the same walk. *)
Lemma multi_slotWalk_fuel (attendees : list Attendee) (endRange rangeEndTime : Z)
    (fuel : nat) :
  forall cur : Z,
    (walkFuel endRange rangeEndTime cur <= fuel)%nat ->
    slotWalk fuel attendees endRange rangeEndTime cur
    = slotWalk (walkFuel endRange rangeEndTime cur) attendees endRange rangeEndTime cur.
Proof.
  induction fuel as [|fuel IH]; intros cur Hle.
  - replace (walkFuel endRange rangeEndTime cur) with O by lia. reflexivity.
  - destruct (Z.ltb_spec cur rangeEndTime) as [Hpair|Hpair];
      destruct (Z.ltb_spec cur endRange) as [Hrange|Hrange].
    + rewrite (multi_walkFuel_step _ _ _ Hpair Hrange) in *. simpl.
      destruct (Z.ltb_spec cur rangeEndTime); [|lia].
      destruct (Z.ltb_spec cur endRange); [|lia].
      simpl. f_equal. apply IH. lia.
    + simpl. destruct (Z.ltb_spec cur rangeEndTime); [|lia].
      destruct (Z.ltb_spec cur endRange); [lia|]. simpl.
      destruct (walkFuel endRange rangeEndTime cur); simpl; [reflexivity|].
      destruct (Z.ltb_spec cur rangeEndTime); [|lia].
      destruct (Z.ltb_spec cur endRange); [lia|reflexivity].
    + simpl. destruct (Z.ltb_spec cur rangeEndTime); [lia|]. simpl.
      destruct (walkFuel endRange rangeEndTime cur); simpl; [reflexivity|].
      destruct (Z.ltb_spec cur rangeEndTime); [lia|reflexivity].
    + simpl. destruct (Z.ltb_spec cur rangeEndTime); [lia|]. simpl.
      destruct (walkFuel endRange rangeEndTime cur); simpl; [reflexivity|].
      destruct (Z.ltb_spec cur rangeEndTime); [lia|reflexivity].
Qed.

(** Any fuel from [dayFuel] on gives the same day loop. *)
Lemma multi_dayLoop_fuel (attendees : list Attendee) (endRange : Z) (fuel : nat) :
  forall cur : Z,
    (dayFuel cur endRange <= fuel)%nat ->
    dayLoop fuel attendees endRange cur
    = dayLoop (dayFuel cur endRange) attendees endRange cur.
Proof.
  induction fuel as [|fuel IH]; intros cur Hle.
  - replace (dayFuel cur endRange) with O by lia. reflexivity.
  - destruct (Z.leb_spec cur endRange) as [Hin|Hout].
    + rewrite (SingleFacts.dayFuel_step _ _ Hin) in *. simpl.
      destruct (cur <=? endRange); [|reflexivity].
      rewrite IH by lia. reflexivity.
    + simpl. destruct (Z.leb_spec cur endRange) as [?|_]; [lia|].
      destruct (dayFuel cur endRange); simpl; [reflexivity|].
      destruct (Z.leb_spec cur endRange); [lia|reflexivity].
Qed.

End MultiFacts.

(** ** What the slots of the single-person enumerator satisfy *)

Module SingleSlots.
Import Single.

(** Every slot of a walk starts on the 30-minute grid of the walk, inside
    the block and the date range, lasts 30 minutes and passed the conflict
    test. *)
Lemma in_slotWalk (events : list CalendarEvent.t) (startRange endRange rangeEndTime : Z)
    (slot : CalendarSlot.t) (fuel : nat) :
  forall cur : Z,
    In slot (slotWalk fuel events startRange endRange rangeEndTime cur) ->
    CalendarSlot.durationM slot = 30
    /\ (exists k : Z, 0 <= k /\ CalendarSlot.start slot = cur + k * (30 * 60 * 1000))
    /\ CalendarSlot.start slot < rangeEndTime
    /\ startRange <= CalendarSlot.start slot
    /\ CalendarSlot.start slot + 30 * 60 * 1000 <= endRange
    /\ hasConflict events (CalendarSlot.start slot)
         (CalendarSlot.start slot + 30 * 60 * 1000) = false.
Proof.
  induction fuel as [|fuel IH]; intros cur Hin; simpl in Hin; [contradiction|].
  destruct (Z.ltb_spec cur rangeEndTime) as [Hlt|]; [|contradiction].
  destruct (Z.ltb_spec cur startRange) as [|Hs]; simpl in Hin; [contradiction|].
  destruct (Z.gtb_spec (cur + 30 * 60 * 1000) endRange) as [|He];
    simpl in Hin; [contradiction|].
  apply in_app_or in Hin as [Hhere|Hlater].
  - destruct (hasConflict events cur (cur + 30 * 60 * 1000)) eqn:Hc;
      simpl in Hhere; [contradiction|].
    destruct Hhere as [<-|[]]. simpl.
    repeat split; try lia; try assumption.
    exists 0. lia.
  - destruct (IH _ Hlater) as (Hd & (k & Hk & Hst) & Hrest).
    repeat split; try tauto.
    exists (k + 1). lia.
Qed.

Lemma in_rangeSlots (events : list CalendarEvent.t) (startRange endRange currentDate : Z)
    (range : TimeOfDay) (slot : CalendarSlot.t) :
  In slot (rangeSlots events startRange endRange currentDate range) ->
  CalendarSlot.durationM slot = 30
  /\ blockStart currentDate range <= CalendarSlot.start slot < blockEnd currentDate range
  /\ startRange <= CalendarSlot.start slot
  /\ CalendarSlot.start slot + 30 * 60 * 1000 <= endRange
  /\ hasConflict events (CalendarSlot.start slot)
       (CalendarSlot.start slot + 30 * 60 * 1000) = false.
Proof.
  unfold rangeSlots. intros Hin.
  apply in_slotWalk in Hin as (Hd & (k & Hk & Hst) & Hlt & Hrest).
  repeat split; try tauto; lia.
Qed.

Lemma in_daySlots (availability : CalendarAvailability) (events : list CalendarEvent.t)
    (startRange endRange currentDate : Z) (slot : CalendarSlot.t) :
  In slot (daySlots availability events startRange endRange currentDate) ->
  exists dayAvailability entry,
    find (fun day => weekday day =? getUTCDay currentDate) (include availability)
    = Some dayAvailability
    /\ In entry (range dayAvailability)
    /\ In slot (rangeSlots events startRange endRange currentDate entry).
Proof.
  unfold daySlots. intros Hin.
  destruct (find _ (include availability)) as [dayAvailability|]; [|contradiction].
  apply in_flat_map in Hin as (entry & Hr & Hs).
  exists dayAvailability, entry. auto.
Qed.

Lemma in_dayLoop (availability : CalendarAvailability) (events : list CalendarEvent.t)
    (startRange endRange : Z) (slot : CalendarSlot.t) (fuel : nat) :
  forall cur : Z,
    In slot (dayLoop fuel availability events startRange endRange cur) ->
    exists n : nat,
      In slot (daySlots availability events startRange endRange
                 (cur + Z.of_nat n * msPerDay))
      /\ cur + Z.of_nat n * msPerDay <= endRange.
Proof.
  induction fuel as [|fuel IH]; intros cur Hin; simpl in Hin; [contradiction|].
  destruct (Z.leb_spec cur endRange) as [Hle|]; [|contradiction].
  apply in_app_or in Hin as [Hhere|Hlater].
  - exists O. rewrite Z.add_0_r. auto.
  - destruct (IH _ Hlater) as (n & Hn & Hb). exists (S n).
    unfold nextUTCDate in *.
    replace (cur + Z.of_nat (S n) * msPerDay)
      with (cur + msPerDay + Z.of_nat n * msPerDay) by lia.
    auto.
Qed.

(** Each returned slot is a 30-minute slot inside the requested range. *)
Lemma listed_slot_in_range (availability : CalendarAvailability)
    (events : list CalendarEvent.t) (startRange endRange : Z) (slot : CalendarSlot.t) :
  In slot (listAvailable30MinuteSlots availability events (startRange, endRange)) ->
  CalendarSlot.durationM slot = 30
  /\ startRange <= CalendarSlot.start slot
  /\ CalendarSlot.start slot + 30 * 60 * 1000 <= endRange
  /\ hasConflict events (CalendarSlot.start slot)
       (CalendarSlot.start slot + 30 * 60 * 1000) = false.
Proof.
  unfold listAvailable30MinuteSlots. intros Hin.
  apply in_dayLoop in Hin as (n & Hin & _).
  apply in_daySlots in Hin as (w & r & _ & _ & Hin).
  apply in_rangeSlots in Hin. tauto.
Qed.

End SingleSlots.

(** ** The overlap tests *)

(** Turns boolean comparisons of time values into propositions. *)
Ltac bool_to_Z :=
  repeat first
    [ rewrite andb_true_iff | rewrite orb_true_iff
    | rewrite Z.ltb_lt | rewrite Z.leb_le | rewrite Z.gtb_lt | rewrite Z.geb_le ].

Ltac bool_to_Z_in H :=
  repeat first
    [ rewrite andb_true_iff in H | rewrite orb_true_iff in H
    | rewrite Z.ltb_lt in H | rewrite Z.leb_le in H
    | rewrite Z.gtb_lt in H | rewrite Z.geb_le in H ].

Lemma hasConflict_iff (events : list CalendarEvent.t) (s e : Z) :
  Single.hasConflict events s e = true <->
  exists event, In event events
    /\ ((bufferedStart event <= s /\ s < bufferedEnd event)
        \/ (bufferedStart event < e /\ e <= bufferedEnd event)
        \/ (s <= bufferedStart event /\ bufferedEnd event <= e)).
Proof.
  unfold Single.hasConflict. rewrite existsb_exists.
  split; intros (event & Hin & Ht); exists event; (split; [exact Hin|]).
  - bool_to_Z_in Ht. unfold bufferedStart, bufferedEnd. tauto.
  - bool_to_Z. unfold bufferedStart, bufferedEnd in Ht. tauto.
Qed.

Lemma isSlotConflictedWithEvents_iff (events : list CalendarEvent.t) (s e : Z) :
  WithBuffer.isSlotConflictedWithEvents s e events = true <->
  exists event, In event events /\ s < bufferedEnd event /\ bufferedStart event < e.
Proof.
  unfold WithBuffer.isSlotConflictedWithEvents,
    WithBuffer.calculateEventStartWithBuffer, WithBuffer.calculateEventEndWithBuffer.
  rewrite existsb_exists.
  split; intros (event & Hin & Ht); exists event; (split; [exact Hin|]).
  - bool_to_Z_in Ht. exact Ht.
  - bool_to_Z. exact Ht.
Qed.

Lemma isAvailableForAll_iff (attendees : list Multi.Attendee) (s e : Z) :
  Multi.isAvailableForAll attendees s e = true <->
  forall attendee event,
    In attendee attendees -> In event (Multi.events attendee) ->
    e <= bufferedStart event \/ bufferedEnd event <= s.
Proof.
  unfold Multi.isAvailableForAll. rewrite forallb_forall. split.
  - intros H attendee event Ha He. specialize (H _ Ha).
    rewrite forallb_forall in H. specialize (H _ He).
    bool_to_Z_in H. exact H.
  - intros H attendee Ha. rewrite forallb_forall. intros event He.
    bool_to_Z. exact (H _ _ Ha He).
Qed.

(** The half-open test of the validator implies the three-way test of the
    enumerator, whatever the event: what the enumerator keeps, the validator
    finds free of conflicts. *)
Lemma half_open_conflict_is_three_way (events : list CalendarEvent.t) (s e : Z) :
  WithBuffer.isSlotConflictedWithEvents s e events = true ->
  Single.hasConflict events s e = true.
Proof.
  rewrite isSlotConflictedWithEvents_iff, hasConflict_iff.
  intros (event & Hin & H). exists event. split; [exact Hin|]. lia.
Qed.

(** For a slot and a buffered interval that are not empty the two tests agree. *)
Lemma three_way_conflict_is_half_open (events : list CalendarEvent.t) (s e : Z) :
  s < e ->
  Forall (fun event => bufferedStart event < bufferedEnd event) events ->
  Single.hasConflict events s e = true ->
  WithBuffer.isSlotConflictedWithEvents s e events = true.
Proof.
  rewrite isSlotConflictedWithEvents_iff, hasConflict_iff, Forall_forall.
  intros Hse Hev (event & Hin & H). exists event. split; [exact Hin|].
  specialize (Hev _ Hin). lia.
Qed.

Lemma listed_slot_conflict_free (availability : CalendarAvailability)
    (events : list CalendarEvent.t) (startRange endRange : Z) (slot : CalendarSlot.t) :
  In slot (Single.listAvailable30MinuteSlots availability events (startRange, endRange)) ->
  WithBuffer.isSlotConflictedWithEvents (CalendarSlot.start slot)
    (WithBuffer.calculateSlotEndTime (CalendarSlot.start slot) (CalendarSlot.durationM slot))
    events = false.
Proof.
  intros Hin. apply SingleSlots.listed_slot_in_range in Hin as (Hd & _ & _ & Hc).
  unfold WithBuffer.calculateSlotEndTime. rewrite Hd.
  destruct (WithBuffer.isSlotConflictedWithEvents _ _ events) eqn:E; [|reflexivity].
  apply half_open_conflict_is_three_way in E.
  replace (30 * 60000) with (30 * 60 * 1000) in E by lia. congruence.
Qed.

(** ** The block of one range entry (claims C1, C2, C4) *)

(** The end of the block lies 30 hours after its start: the 30 is added to
    the hours argument of [Date.UTC]. *)
Lemma blockEnd_is_30_hours (currentDate : Z) (range : TimeOfDay) :
  Single.blockEnd currentDate range
  = Single.blockStart currentDate range + 30 * msPerHour.
Proof. apply dateUTC_plus_hours. Qed.

(** C1: in [listAvailable30MinuteSlots] an entry of the availability range
    should define a block that ends 30 minutes after the entry's time of day,
    so that the walk of the entry stays inside it.  The code ends the block 30
    hours after its start, and on Sunday 4 January 1970, with the range 09:00
    to 11:00, the walk of the entry 09:00 returns four slots, the last one
    starting at 10:30. *)
Theorem C1_block_is_30_hours_not_30_minutes :
  (forall currentDate range,
     Single.blockEnd currentDate range - Single.blockStart currentDate range
     = 60 * (30 * msPerMinute))
  /\ Single.rangeSlots [] (sunday 9 0) (sunday 11 0) (sunday 9 0) (mkTime 9 0)
     = [ CalendarSlot.mk (sunday 9 0) 30; CalendarSlot.mk (sunday 9 30) 30;
         CalendarSlot.mk (sunday 10 0) 30; CalendarSlot.mk (sunday 10 30) 30 ]
  /\ Single.listAvailable30MinuteSlots sundayMorning [] (sunday 9 0, sunday 11 0)
     = [ CalendarSlot.mk (sunday 9 0) 30; CalendarSlot.mk (sunday 9 30) 30;
         CalendarSlot.mk (sunday 10 0) 30; CalendarSlot.mk (sunday 10 30) 30;
         CalendarSlot.mk (sunday 10 0) 30; CalendarSlot.mk (sunday 10 30) 30 ].
Proof.
  split; [|split].
  - intros. rewrite blockEnd_is_30_hours. unfold msPerHour, msPerMinute. lia.
  - vm_compute. reflexivity.
  - vm_compute. reflexivity.
Qed.

(** C2: every slot that [listAvailable30MinuteSlots] returns should be
    accepted by [isSlotAvailableWithBuffer].  With Sunday 09:00 to 10:00 as
    the only availability and the range Sunday 09:00 to Monday 00:30, the
    enumerator returns the slot that starts on Monday at 00:00, and the
    validator rejects it in every time zone. *)
Theorem C2_enumerated_slot_rejected :
  let slot := CalendarSlot.mk (sunday 24 0) 30 in
  In slot (Single.listAvailable30MinuteSlots sundayMorning [] (sunday 9 0, sunday 24 30))
  /\ getUTCDay (CalendarSlot.start slot) = 1
  /\ forall tz, WithBuffer.isSlotAvailableWithBuffer tz sundayMorning [] slot = false.
Proof.
  split; [|split].
  - apply (nth_error_In _ 30). vm_compute. reflexivity.
  - vm_compute. reflexivity.
  - intros tz. reflexivity.
Qed.

(** C4: the slots of [listAvailable30MinuteSlots] should come in ascending
    order of their start.  With Sunday 09:00 to 10:00 as availability and the
    range Sunday 09:00 to 11:00 the starts are 09:00, 09:30, 10:00, 10:30,
    10:00, 10:30. *)
Theorem C4_output_not_ascending :
  map CalendarSlot.start
    (Single.listAvailable30MinuteSlots sundayMorning [] (sunday 9 0, sunday 11 0))
  = [sunday 9 0; sunday 9 30; sunday 10 0; sunday 10 30; sunday 10 0; sunday 10 30]
  /\ ~ Sorted Z.le
       (map CalendarSlot.start
          (Single.listAvailable30MinuteSlots sundayMorning [] (sunday 9 0, sunday 11 0))).
Proof.
  split; [vm_compute; reflexivity|].
  intros Hs.
  assert (E : map CalendarSlot.start
                (Single.listAvailable30MinuteSlots sundayMorning []
                   (sunday 9 0, sunday 11 0))
              = [291600000; 293400000; 295200000; 297000000; 295200000; 297000000])
    by (vm_compute; reflexivity).
  rewrite E in Hs.
  do 3 (apply Sorted_inv in Hs as [Hs _]).
  apply Sorted_inv in Hs as [_ Hhd].
  inversion Hhd; lia.
Qed.

(** ** Boundary exactness (claim C6) *)

(** C6: a slot whose end is the buffered start of an event, or whose start is
    the buffered end of the event, does not conflict with that event in any of
    the three buffer-aware operations.  The event and the slot are those of
    the data model: the event ends after it starts, its buffers are not
    negative, and the slot lasts a positive number of minutes. *)
Theorem C6_boundary_exactness (event : CalendarEvent.t) (slot : CalendarSlot.t)
    (availability : CalendarAvailability) :
  CalendarEvent.start event < CalendarEvent.end_ event ->
  0 <= bufferBefore event ->
  0 <= bufferAfter event ->
  0 < CalendarSlot.durationM slot ->
  WithBuffer.calculateSlotEndTime (CalendarSlot.start slot) (CalendarSlot.durationM slot)
    = bufferedStart event
  \/ CalendarSlot.start slot = bufferedEnd event ->
  Single.hasConflict [event] (CalendarSlot.start slot)
    (WithBuffer.calculateSlotEndTime (CalendarSlot.start slot) (CalendarSlot.durationM slot))
  = false
  /\ WithBuffer.isSlotConflictedWithEvents (CalendarSlot.start slot)
       (WithBuffer.calculateSlotEndTime (CalendarSlot.start slot) (CalendarSlot.durationM slot))
       [event]
     = false
  /\ Multi.isAvailableForAll [Multi.mkAttendee availability [event]]
       (CalendarSlot.start slot)
       (WithBuffer.calculateSlotEndTime (CalendarSlot.start slot) (CalendarSlot.durationM slot))
     = true.
Proof.
  intros Hev Hb Ha Hd Htouch.
  set (s := CalendarSlot.start slot) in *.
  set (e := WithBuffer.calculateSlotEndTime s (CalendarSlot.durationM slot)) in *.
  assert (Hse : s < e) by (unfold e, WithBuffer.calculateSlotEndTime; lia).
  assert (Hbuf : bufferedStart event < bufferedEnd event)
    by (unfold bufferedStart, bufferedEnd; lia).
  split; [|split].
  - destruct (Single.hasConflict [event] s e) eqn:E; [|reflexivity].
    apply hasConflict_iff in E as (ev & [<-|[]] & H). lia.
  - destruct (WithBuffer.isSlotConflictedWithEvents s e [event]) eqn:E; [|reflexivity].
    apply isSlotConflictedWithEvents_iff in E as (ev & [<-|[]] & H). lia.
  - apply isAvailableForAll_iff. intros a ev [<-|[]] [<-|[]]. lia.
Qed.

(** The event 09:00 to 09:30 with 15 minutes of buffer after it, and the slot
    that starts at its buffered end, 09:45. *)
Lemma C6_boundary_exactness_witness :
  let event := CalendarEvent.mk (sunday 9 0) (sunday 9 30) (Some (mkBuffer None (Some 15))) in
  let slot := CalendarSlot.mk (sunday 9 45) 30 in
  Single.hasConflict [event] (CalendarSlot.start slot)
    (WithBuffer.calculateSlotEndTime (CalendarSlot.start slot) (CalendarSlot.durationM slot))
  = false
  /\ WithBuffer.isSlotConflictedWithEvents (CalendarSlot.start slot)
       (WithBuffer.calculateSlotEndTime (CalendarSlot.start slot) (CalendarSlot.durationM slot))
       [event]
     = false
  /\ Multi.isAvailableForAll [Multi.mkAttendee sundayMorning [event]]
       (CalendarSlot.start slot)
       (WithBuffer.calculateSlotEndTime (CalendarSlot.start slot) (CalendarSlot.durationM slot))
     = true.
Proof.
  intros event slot.
  apply (C6_boundary_exactness event slot sundayMorning).
  - vm_compute. reflexivity.
  - vm_compute. discriminate.
  - vm_compute. discriminate.
  - vm_compute. reflexivity.
  - right. vm_compute. reflexivity.
Defined.

(** Outside the data model the three-way test of the enumerator is not strict:
    an event of no length at 09:30 conflicts with the slot 09:00 to 09:30 that
    touches it, while the half-open test of the validator lets the slot pass. *)
Remark empty_event_touching_slot :
  let event := CalendarEvent.mk (sunday 9 30) (sunday 9 30) None in
  Single.hasConflict [event] (sunday 9 0) (sunday 9 30) = true
  /\ WithBuffer.isSlotConflictedWithEvents (sunday 9 0) (sunday 9 30) [event] = false.
Proof. split; vm_compute; reflexivity. Qed.

(** ** Buffer monotonicity (claim C7) *)

Lemma bufferGrown_interval (event event' : CalendarEvent.t) :
  bufferGrown event event' ->
  bufferedStart event' <= bufferedStart event
  /\ bufferedEnd event <= bufferedEnd event'.
Proof. unfold bufferGrown, bufferedStart, bufferedEnd. lia. Qed.

Section OneEventGrows.
Variables (before_ after_ : list CalendarEvent.t) (event event' : CalendarEvent.t).
Hypothesis Hgrown : bufferGrown event event'.

Let small := before_ ++ event :: after_.
Let large := before_ ++ event' :: after_.

Lemma validator_conflict_grows (s e : Z) :
  WithBuffer.isSlotConflictedWithEvents s e small = true ->
  WithBuffer.isSlotConflictedWithEvents s e large = true.
Proof using Hgrown.
  rewrite !isSlotConflictedWithEvents_iff.
  destruct (bufferGrown_interval _ _ Hgrown) as [Hs He].
  intros (ev & Hin & H). unfold small, large in *.
  apply in_app_or in Hin as [Hin|[<-|Hin]].
  - exists ev. split; [apply in_or_app; auto|exact H].
  - exists event'. split; [apply in_or_app; simpl; auto|lia].
  - exists ev. split; [apply in_or_app; simpl; auto|exact H].
Qed.

Lemma multi_free_shrinks (s e : Z) :
  (forall ev, In ev large -> e <= bufferedStart ev \/ bufferedEnd ev <= s) ->
  forall ev, In ev small -> e <= bufferedStart ev \/ bufferedEnd ev <= s.
Proof using Hgrown.
  destruct (bufferGrown_interval _ _ Hgrown) as [Hs He].
  intros H ev Hin. unfold small, large in *.
  apply in_app_or in Hin as [Hin|[<-|Hin]].
  - apply H, in_or_app; auto.
  - assert (Hin' : In event' (before_ ++ event' :: after_))
      by (apply in_or_app; simpl; auto).
    specialize (H _ Hin'). lia.
  - apply H, in_or_app; simpl; auto.
Qed.

Lemma enumerator_conflict_grows (s e : Z) :
  s < e ->
  bufferedStart event < bufferedEnd event ->
  Single.hasConflict small s e = true ->
  Single.hasConflict large s e = true.
Proof using Hgrown.
  rewrite !hasConflict_iff.
  destruct (bufferGrown_interval _ _ Hgrown) as [Hs He].
  intros Hse Hne (ev & Hin & H). unfold small, large in *.
  apply in_app_or in Hin as [Hin|[<-|Hin]].
  - exists ev. split; [apply in_or_app; auto|exact H].
  - exists event'. split; [apply in_or_app; simpl; auto|lia].
  - exists ev. split; [apply in_or_app; simpl; auto|exact H].
Qed.

End OneEventGrows.

(** The single-person enumerator keeps every slot that it keeps under a
    conflict test that rejects more. *)
Section SingleMonotone.
Variables (availability : CalendarAvailability) (small large : list CalendarEvent.t).
Hypothesis Hconflict : forall s,
  Single.hasConflict small s (s + 30 * 60 * 1000) = true ->
  Single.hasConflict large s (s + 30 * 60 * 1000) = true.

Lemma single_slotWalk_mono (startRange endRange rangeEndTime : Z)
    (slot : CalendarSlot.t) (fuel : nat) :
  forall cur,
    In slot (Single.slotWalk fuel large startRange endRange rangeEndTime cur) ->
    In slot (Single.slotWalk fuel small startRange endRange rangeEndTime cur).
Proof using Hconflict.
  induction fuel as [|fuel IH]; intros cur; simpl; [tauto|].
  destruct (cur <? rangeEndTime); [|tauto].
  destruct ((cur <? startRange) || (cur + 30 * 60 * 1000 >? endRange)); [tauto|].
  intros Hin. apply in_or_app. apply in_app_or in Hin as [Hin|Hin].
  - left. specialize (Hconflict cur).
    destruct (Single.hasConflict large cur _); [contradiction|].
    destruct (Single.hasConflict small cur _); [|exact Hin].
    discriminate Hconflict. reflexivity.
  - right. apply IH, Hin.
Qed.

Lemma single_daySlots_mono (startRange endRange cur : Z) (slot : CalendarSlot.t) :
  In slot (Single.daySlots availability large startRange endRange cur) ->
  In slot (Single.daySlots availability small startRange endRange cur).
Proof using Hconflict.
  unfold Single.daySlots.
  destruct (find _ (include availability)) as [w|]; [|tauto].
  rewrite !in_flat_map. intros (r & Hr & Hin). exists r. split; [exact Hr|].
  unfold Single.rangeSlots in *. apply single_slotWalk_mono, Hin.
Qed.

Lemma single_dayLoop_mono (startRange endRange : Z) (slot : CalendarSlot.t)
    (fuel : nat) :
  forall cur,
    In slot (Single.dayLoop fuel availability large startRange endRange cur) ->
    In slot (Single.dayLoop fuel availability small startRange endRange cur).
Proof using Hconflict.
  induction fuel as [|fuel IH]; intros cur; simpl; [tauto|].
  destruct (cur <=? endRange); [|tauto].
  intros Hin. apply in_or_app. apply in_app_or in Hin as [Hin|Hin].
  - left. apply single_daySlots_mono, Hin.
  - right. apply IH, Hin.
Qed.

End SingleMonotone.

(** The multi-person enumerator: the availability alone decides the walks and
    the exceptions; the events only filter the sub-slots. *)
Lemma commonAvailableRanges_availability (attendees : list Multi.Attendee)
    (currentWeekday : Weekday) :
  Multi.commonAvailableRanges attendees currentWeekday
  = omap (fun a => range <$> find (fun day => weekday day =? currentWeekday) (include a))
      (map Multi.availability attendees).
Proof.
  unfold Multi.commonAvailableRanges.
  induction attendees as [|a rest IH]; [reflexivity|].
  cbn [map]. cbn [omap list_omap]. cbn [omap list_omap] in IH.
  rewrite IH. reflexivity.
Qed.

Section MultiMonotone.
Variables small large : list Multi.Attendee.
Hypothesis Havail : map Multi.availability small = map Multi.availability large.
Hypothesis Hfree : forall s e,
  Multi.isAvailableForAll large s e = true -> Multi.isAvailableForAll small s e = true.

Lemma multi_slotWalk_mono (endRange rangeEndTime : Z) (fuel : nat) :
  forall cur,
    incl (Multi.slotWalk fuel large endRange rangeEndTime cur)
         (Multi.slotWalk fuel small endRange rangeEndTime cur).
Proof using Hfree.
  induction fuel as [|fuel IH]; intros cur; simpl; [apply incl_refl|].
  destruct ((cur <? rangeEndTime) && (cur <? endRange)); [|apply incl_refl].
  apply incl_app_app; [|apply IH].
  specialize (Hfree cur (cur + 30 * 60 * 1000)).
  destruct (Multi.isAvailableForAll large cur _); [|apply incl_nil_l].
  rewrite Hfree by reflexivity. apply incl_refl.
Qed.

Lemma multi_pairLoop_mono (endRange cur : Z) (commonRange : list TimeOfDay) :
  incl (Multi.pairLoop large endRange cur commonRange)
       (Multi.pairLoop small endRange cur commonRange).
Proof using Hfree.
  revert commonRange.
  fix IH 1. intros [|s [|e rest]]; simpl; try apply incl_refl.
  apply incl_app_app; [apply multi_slotWalk_mono|apply IH].
Qed.

Lemma multi_daySlots_mono (endRange cur : Z) :
  match Multi.daySlots large endRange cur with
  | Ok slots' =>
      exists slots, Multi.daySlots small endRange cur = Ok slots /\ incl slots' slots
  | Throw err => Multi.daySlots small endRange cur = Throw err
  end.
Proof using Havail Hfree.
  unfold Multi.daySlots.
  rewrite !commonAvailableRanges_availability, Havail.
  rewrite <- (length_map Multi.availability small),
          <- (length_map Multi.availability large), Havail.
  destruct (negb _).
  - exists []. split; [reflexivity|apply incl_refl].
  - destruct (Multi.reduce Multi.intersectRanges _) as [commonRange|err]; simpl.
    + eexists. split; [reflexivity|apply multi_pairLoop_mono].
    + reflexivity.
Qed.

Lemma multi_dayLoop_mono (endRange : Z) (fuel : nat) :
  forall cur,
    match Multi.dayLoop fuel large endRange cur with
    | Ok slots' =>
        exists slots,
          Multi.dayLoop fuel small endRange cur = Ok slots /\ incl slots' slots
    | Throw err => Multi.dayLoop fuel small endRange cur = Throw err
    end.
Proof using Havail Hfree.
  induction fuel as [|fuel IH]; intros cur; simpl.
  - exists []. split; [reflexivity|apply incl_refl].
  - destruct (cur <=? endRange).
    + pose proof (multi_daySlots_mono endRange cur) as Hday.
      destruct (Multi.daySlots large endRange cur) as [today'|err]; simpl.
      * destruct Hday as (today & -> & Hi). simpl.
        specialize (IH (nextUTCDate cur)).
        destruct (Multi.dayLoop fuel large endRange (nextUTCDate cur))
          as [later'|err]; simpl.
        -- destruct IH as (later & -> & Hl). simpl.
           eexists. split; [reflexivity|apply incl_app_app; assumption].
        -- rewrite IH. reflexivity.
      * rewrite Hday. reflexivity.
    + exists []. split; [reflexivity|apply incl_refl].
Qed.

End MultiMonotone.



(** ** The availability test of the validators (claim C3) *)


(** [isSlotAvailableWithBuffer] consults every value of the range: a third and
    a fourth value change its verdict on the slot 06:30 to 07:00. *)
Remark with_buffer_consults_later_values :
  let slot := CalendarSlot.mk (sunday 6 30) 30 in
  WithBuffer.isSlotAvailableWithBuffer utcZone sundayMorning [] slot = false
  /\ WithBuffer.isSlotAvailableWithBuffer utcZone
       (mkAvailability [mkWindow 0 [mkTime 9 0; mkTime 10 0; mkTime 6 0; mkTime 7 0]])
       [] slot = true.
Proof. split; vm_compute; reflexivity. Qed.


(** ** Exceptions (claim C5) *)

(** C5, as stated, fails: with no attendee and a range of at least one day
    iteration, [reduce] is called on an empty array and throws; and
    [intersectRanges] throws when it reads the missing partner of an unpaired
    last element. *)
Lemma C5_counterexample :
  Multi.listAvailable30MinuteSlotsMultiplePerson [] (sunday 9 0, sunday 10 0)
  = Throw TypeError
  /\ Multi.intersectRanges [mkTime 9 0] [mkTime 9 0; mkTime 10 0] = Throw TypeError.
Proof. split; vm_compute; reflexivity. Qed.

(** One step of [intersectRanges] on two ranges that start with a pair. *)
Lemma intersectRanges_pairs (startA endA : TimeOfDay) (nextA : list TimeOfDay)
    (startB endB : TimeOfDay) (nextB : list TimeOfDay) :
  Multi.intersectRanges (startA :: endA :: nextA) (startB :: endB :: nextB)
  = (result' ←
       (if Multi.minutesOf endA <? Multi.minutesOf endB
        then Multi.intersectRanges nextA (startB :: endB :: nextB)
        else Multi.intersectRanges (startA :: endA :: nextA) nextB);
     Ok (overlapOf startA endA startB endB ++ result')).
Proof. reflexivity. Qed.

Lemma length_overlapOf (startA endA startB endB : TimeOfDay) :
  paired (overlapOf startA endA startB endB).
Proof. unfold overlapOf. cbv zeta. destruct (_ <? _); reflexivity. Qed.

Lemma intersectRanges_nil_r (rangeA : list TimeOfDay) :
  Multi.intersectRanges rangeA [] = Ok [].
Proof. destruct rangeA; reflexivity. Qed.

Lemma intersectRanges_nil_l (rangeB : list TimeOfDay) :
  Multi.intersectRanges [] rangeB = Ok [].
Proof. destruct rangeB; reflexivity. Qed.

Lemma intersectRanges_paired_fuel (n : nat) :
  forall rangeA rangeB,
    (length rangeA + length rangeB <= n)%nat ->
    paired rangeA -> paired rangeB ->
    exists result', Multi.intersectRanges rangeA rangeB = Ok result' /\ paired result'.
Proof.
  unfold paired.
  induction n as [|n IH]; intros rangeA rangeB Hn HA HB.
  - destruct rangeA; [|simpl in Hn; lia].
    exists []. split; [apply intersectRanges_nil_l|reflexivity].
  - destruct rangeA as [|startA [|endA nextA]]; [| discriminate HA |].
    { exists []. split; [apply intersectRanges_nil_l|reflexivity]. }
    destruct rangeB as [|startB [|endB nextB]]; [| discriminate HB |].
    { exists []. split; [reflexivity|reflexivity]. }
    rewrite intersectRanges_pairs.
    destruct (Multi.minutesOf endA <? Multi.minutesOf endB).
    + destruct (IH nextA (startB :: endB :: nextB)) as (r & -> & Hr);
        [simpl in *; lia|exact HA|exact HB|].
      eexists. split; [reflexivity|].
      rewrite length_app, Nat.even_add, Hr, length_overlapOf. reflexivity.
    + destruct (IH (startA :: endA :: nextA) nextB) as (r & -> & Hr);
        [simpl in *; lia|exact HA|exact HB|].
      eexists. split; [reflexivity|].
      rewrite length_app, Nat.even_add, Hr, length_overlapOf. reflexivity.
Qed.

Lemma intersectRanges_paired (rangeA rangeB : list TimeOfDay) :
  paired rangeA -> paired rangeB ->
  exists result', Multi.intersectRanges rangeA rangeB = Ok result' /\ paired result'.
Proof. apply (intersectRanges_paired_fuel _ _ _ (Nat.le_refl _)). Qed.

Lemma reduce_intersect_paired (ranges : list (list TimeOfDay)) :
  ranges <> [] -> Forall paired ranges ->
  exists commonRange,
    Multi.reduce Multi.intersectRanges ranges = Ok commonRange /\ paired commonRange.
Proof.
  destruct ranges as [|first rest]; [congruence|]. intros _ Hall.
  apply Forall_cons_iff in Hall as [Hfirst Hrest]. simpl.
  revert first Hfirst. induction Hrest as [|curr rest Hcurr _ IH]; intros acc Hacc.
  - exists acc. split; [reflexivity|exact Hacc].
  - simpl.
    destruct (intersectRanges_paired acc curr Hacc Hcurr) as (r & -> & Hr).
    apply IH, Hr.
Qed.

Lemma commonAvailableRanges_paired (attendees : list Multi.Attendee) (day : Weekday) :
  pairedAttendees attendees ->
  Forall paired (Multi.commonAvailableRanges attendees day).
Proof.
  unfold pairedAttendees, Multi.commonAvailableRanges.
  induction 1 as [|a rest Ha _ IH]; [constructor|].
  cbn [omap list_omap].
  destruct (find _ (include (Multi.availability a))) as [entry|] eqn:Hfind;
    cbn [fmap option_fmap option_map]; [|exact IH].
  constructor; [|exact IH].
  apply find_some in Hfind as [Hin _].
  rewrite Forall_forall in Ha. apply Ha, Hin.
Qed.

Lemma commonAvailableRanges_length (attendees : list Multi.Attendee) (day : Weekday) :
  (length (Multi.commonAvailableRanges attendees day) <= length attendees)%nat.
Proof.
  unfold Multi.commonAvailableRanges.
  induction attendees as [|a rest IH]; [apply Nat.le_refl|].
  cbn [omap list_omap].
  destruct (find _ (include (Multi.availability a)));
    cbn [fmap option_fmap option_map]; simpl; lia.
Qed.

(** An attendee with no entry for the weekday makes the array of ranges
    shorter than the array of attendees. *)
Lemma commonAvailableRanges_absent (attendees : list Multi.Attendee) (day : Weekday)
    (attendee : Multi.Attendee) :
  In attendee attendees ->
  find (fun w => weekday w =? day) (include (Multi.availability attendee)) = None ->
  (length (Multi.commonAvailableRanges attendees day) < length attendees)%nat.
Proof.
  intros Hin Hnone.
  induction attendees as [|a rest IH]; [contradiction|].
  unfold Multi.commonAvailableRanges in *. cbn [omap list_omap].
  destruct Hin as [->|Hin].
  - rewrite Hnone. cbn [fmap option_fmap option_map].
    pose proof (commonAvailableRanges_length rest day) as Hl.
    unfold Multi.commonAvailableRanges in Hl. simpl. lia.
  - specialize (IH Hin).
    destruct (find _ (include (Multi.availability a)));
      cbn [fmap option_fmap option_map]; simpl; lia.
Qed.

Lemma multi_daySlots_paired (attendees : list Multi.Attendee) (endRange cur : Z) :
  attendees <> [] -> pairedAttendees attendees ->
  exists slots, Multi.daySlots attendees endRange cur = Ok slots.
Proof.
  intros Hne Hp. unfold Multi.daySlots.
  destruct (Nat.eqb_spec (length (Multi.commonAvailableRanges attendees (getUTCDay cur)))
              (length attendees)) as [Hlen|Hlen]; cbn [negb].
  - destruct (reduce_intersect_paired
                (Multi.commonAvailableRanges attendees (getUTCDay cur)))
      as (commonRange & -> & _).
    + intros Hnil. rewrite Hnil in Hlen. destruct attendees; [congruence|discriminate].
    + apply commonAvailableRanges_paired, Hp.
    + eexists. reflexivity.
  - eexists. reflexivity.
Qed.

Lemma multi_dayLoop_paired (attendees : list Multi.Attendee) (endRange : Z) (fuel : nat) :
  attendees <> [] -> pairedAttendees attendees ->
  forall cur, exists slots, Multi.dayLoop fuel attendees endRange cur = Ok slots.
Proof.
  intros Hne Hp. induction fuel as [|fuel IH]; intros cur; simpl.
  - eexists. reflexivity.
  - destruct (cur <=? endRange); [|eexists; reflexivity].
    destruct (multi_daySlots_paired attendees endRange cur Hne Hp) as (today & ->).
    destruct (IH (nextUTCDate cur)) as (later & ->).
    eexists. reflexivity.
Qed.

(** C5, amended: with at least one attendee and ranges made of complete pairs
    [listAvailable30MinuteSlotsMultiplePerson] throws nothing, and
    [intersectRanges] throws nothing on two ranges of even length; the
    validators that read the first pair throw nothing when every range has two
    values or more; a weekday with no entry gives no slot for the day, or the
    verdict [false]; [intersectRanges] can throw on a range of odd length.
    ([listAvailable30MinuteSlots] and [isSlotAvailableWithBuffer] have no
    operation that can throw on data of the declared types.) *)
Theorem C5_no_exception_on_well_shaped_input :
  (forall rangeA rangeB,
     paired rangeA -> paired rangeB ->
     exists result', Multi.intersectRanges rangeA rangeB = Ok result')
  /\ (forall attendees range,
        attendees <> [] -> pairedAttendees attendees ->
        exists slots,
          Multi.listAvailable30MinuteSlotsMultiplePerson attendees range = Ok slots)
  /\ (forall tz availability events slot,
        Forall (fun entry => (2 <= length (range entry))%nat) (include availability) ->
        (exists verdict,
           WithEvents.isSlotAvailableWithEvents availability events slot = Ok verdict)
        /\ (exists verdict,
              IsSlotAvailable.isSlotAvailable tz availability slot = Ok verdict))
  /\ (forall availability events startRange endRange currentDate,
        find (fun day => weekday day =? getUTCDay currentDate) (include availability)
        = None ->
        Single.daySlots availability events startRange endRange currentDate = [])
  /\ (forall attendees attendee endRange currentDate,
        In attendee attendees ->
        find (fun day => weekday day =? getUTCDay currentDate)
          (include (Multi.availability attendee)) = None ->
        Multi.daySlots attendees endRange currentDate = Ok [])
  /\ (forall tz availability events slot,
        find (fun day => weekday day =? getUTCDay (CalendarSlot.start slot))
          (include availability) = None ->
        WithBuffer.isSlotAvailableWithBuffer tz availability events slot = false
        /\ WithEvents.isSlotAvailableWithEvents availability events slot = Ok false
        /\ IsSlotAvailable.isSlotAvailable tz availability slot = Ok false)
  /\ (exists rangeA rangeB,
        ~ paired rangeA /\ Multi.intersectRanges rangeA rangeB = Throw TypeError).
Proof.
  repeat split.
  - intros rangeA rangeB HA HB.
    destruct (intersectRanges_paired rangeA rangeB HA HB) as (r & Hr & _).
    exists r. exact Hr.
  - intros attendees [startRange endRange] Hne Hp.
    apply multi_dayLoop_paired; assumption.
  - unfold WithEvents.isSlotAvailableWithEvents, WithEvents.isSlotWithinAvailability.
    destruct (find _ (include availability)) as [entry|] eqn:Hfind;
      [|eexists; reflexivity].
    apply find_some in Hfind as [Hin _].
    rewrite Forall_forall in H. specialize (H _ Hin).
    destruct (range entry) as [|first [|second others]]; simpl in H; try lia.
    cbn [mbind result_bind bindR].
    destruct (negb _); [eexists; reflexivity|].
    destruct (WithEvents.isSlotConflictedWithEvents _ _ events); eexists; reflexivity.
  - unfold IsSlotAvailable.isSlotAvailable, IsSlotAvailable.findAvailabilityForWeekday,
      IsSlotAvailable.getAvailabilityTimeRange.
    destruct (find _ (include availability)) as [entry|] eqn:Hfind;
      [|eexists; reflexivity].
    apply find_some in Hfind as [Hin _].
    rewrite Forall_forall in H. specialize (H _ Hin).
    destruct (range entry) as [|first [|second others]]; simpl in H; try lia.
    eexists. reflexivity.
  - intros availability events startRange endRange currentDate Hnone.
    unfold Single.daySlots. rewrite Hnone. reflexivity.
  - intros attendees attendee endRange currentDate Hin Hnone.
    unfold Multi.daySlots.
    pose proof (commonAvailableRanges_absent _ _ _ Hin Hnone) as Hlt.
    destruct (Nat.eqb_spec (length (Multi.commonAvailableRanges attendees
                                      (getUTCDay currentDate))) (length attendees));
      [lia|reflexivity].
  - unfold WithBuffer.isSlotAvailableWithBuffer, WithBuffer.isSlotWithinAvailability.
    replace (existsb _ (include availability)) with false; [reflexivity|].
    symmetry. apply not_true_is_false. intros Hex.
    apply existsb_exists in Hex as (entry & Hin & Ht).
    apply andb_true_iff in Ht as [Hday _].
    apply (find_none _ _ H) in Hin. congruence.
  - unfold WithEvents.isSlotAvailableWithEvents, WithEvents.isSlotWithinAvailability.
    rewrite H. reflexivity.
  - unfold IsSlotAvailable.isSlotAvailable, IsSlotAvailable.findAvailabilityForWeekday,
      IsSlotAvailable.getSlotWeekday.
    rewrite H. reflexivity.
  - exists [mkTime 9 0], [mkTime 9 0; mkTime 10 0]. split; [|reflexivity].
    unfold paired. simpl. discriminate.
Qed.

(** ** The slots of the multi-person enumerator (claim C10) *)

Module MultiSlots.
Import Multi.

Lemma in_multi_slotWalk (attendees : list Attendee) (endRange rangeEndTime : Z)
    (slot : CalendarSlot.t) (fuel : nat) :
  forall cur : Z,
    In slot (slotWalk fuel attendees endRange rangeEndTime cur) ->
    CalendarSlot.durationM slot = 30
    /\ cur <= CalendarSlot.start slot
    /\ CalendarSlot.start slot < rangeEndTime
    /\ CalendarSlot.start slot < endRange
    /\ isAvailableForAll attendees (CalendarSlot.start slot)
         (CalendarSlot.start slot + 30 * 60 * 1000) = true.
Proof.
  induction fuel as [|fuel IH]; intros cur Hin; simpl in Hin; [contradiction|].
  destruct (Z.ltb_spec cur rangeEndTime) as [Hlt|]; [|contradiction].
  destruct (Z.ltb_spec cur endRange) as [Hle|]; [|contradiction].
  simpl in Hin. apply in_app_or in Hin as [Hhere|Hlater].
  - destruct (isAvailableForAll attendees cur _) eqn:Hfree; [|contradiction].
    destruct Hhere as [<-|[]]. simpl. repeat split; try lia. exact Hfree.
  - destruct (IH _ Hlater) as (Hd & Hs & Hrest). repeat split; try tauto. lia.
Qed.

Lemma in_multi_pairLoop (attendees : list Attendee) (endRange currentDate : Z)
    (slot : CalendarSlot.t) :
  forall commonRange,
    In slot (pairLoop attendees endRange currentDate commonRange) ->
    CalendarSlot.durationM slot = 30 /\ CalendarSlot.start slot < endRange.
Proof.
  fix IH 1. intros [|s [|e rest]] Hin; simpl in Hin; try contradiction.
  apply in_app_or in Hin as [Hin|Hin].
  - apply in_multi_slotWalk in Hin. tauto.
  - apply (IH rest), Hin.
Qed.

Lemma in_multi_dayLoop (attendees : list Attendee) (endRange : Z)
    (slot : CalendarSlot.t) (fuel : nat) :
  forall cur slots,
    dayLoop fuel attendees endRange cur = Ok slots ->
    In slot slots ->
    CalendarSlot.durationM slot = 30 /\ CalendarSlot.start slot < endRange.
Proof.
  induction fuel as [|fuel IH]; intros cur slots Hrun Hin; simpl in Hrun.
  - injection Hrun as <-. contradiction.
  - destruct (cur <=? endRange); [|injection Hrun as <-; contradiction].
    destruct (daySlots attendees endRange cur) as [today|] eqn:Hday;
      [|discriminate].
    cbn [mbind result_bind bindR] in Hrun.
    destruct (dayLoop fuel attendees endRange (nextUTCDate cur)) as [later|] eqn:Hl;
      [|discriminate].
    injection Hrun as <-.
    apply in_app_or in Hin as [Hin|Hin]; [|exact (IH _ _ Hl Hin)].
    unfold daySlots in Hday.
    destruct (negb _); [injection Hday as <-; contradiction|].
    destruct (reduce intersectRanges _) as [commonRange|]; [|discriminate].
    injection Hday as <-. apply in_multi_pairLoop in Hin. exact Hin.
Qed.

End MultiSlots.

(** C10: [listAvailable30MinuteSlotsMultiplePerson] only keeps the start of a
    slot before the end of the date range (and of the pair), while
    [listAvailable30MinuteSlots] keeps the whole slot inside the date range:
    for the range 09:15 to 10:00 the multi-person enumerator returns the slot
    of 09:00, which starts before the range, and for the range 09:00 to 09:45
    it returns the slot of 09:30, which ends after the range. *)
Theorem C10_multi_person_walk_not_clipped :
  (forall attendees startRange endRange slots slot,
     Multi.listAvailable30MinuteSlotsMultiplePerson attendees (startRange, endRange)
     = Ok slots ->
     In slot slots -> CalendarSlot.start slot < endRange)
  /\ (forall availability events startRange endRange slot,
        In slot (Single.listAvailable30MinuteSlots availability events
                   (startRange, endRange)) ->
        startRange <= CalendarSlot.start slot
        /\ CalendarSlot.start slot + CalendarSlot.durationM slot * 60000 <= endRange)
  /\ (exists slots slot,
        Multi.listAvailable30MinuteSlotsMultiplePerson [sundayAttendee]
          (sunday 9 15, sunday 10 0) = Ok slots
        /\ In slot slots
        /\ CalendarSlot.start slot < sunday 9 15)
  /\ (exists slots slot,
        Multi.listAvailable30MinuteSlotsMultiplePerson [sundayAttendee]
          (sunday 9 0, sunday 9 45) = Ok slots
        /\ In slot slots
        /\ sunday 9 45 < CalendarSlot.start slot + CalendarSlot.durationM slot * 60000).
Proof.
  split; [|split; [|split]].
  - intros attendees startRange endRange slots slot Hrun Hin.
    unfold Multi.listAvailable30MinuteSlotsMultiplePerson in Hrun.
    apply (MultiSlots.in_multi_dayLoop _ _ _ _ _ _ Hrun Hin).
  - intros availability events startRange endRange slot Hin.
    apply SingleSlots.listed_slot_in_range in Hin as (-> & Hs & He & _). lia.
  - exists [CalendarSlot.mk (sunday 9 0) 30; CalendarSlot.mk (sunday 9 30) 30],
      (CalendarSlot.mk (sunday 9 0) 30).
    split; [vm_compute; reflexivity|]. split; [left; reflexivity|].
    vm_compute. reflexivity.
  - exists [CalendarSlot.mk (sunday 9 0) 30; CalendarSlot.mk (sunday 9 30) 30],
      (CalendarSlot.mk (sunday 9 30) 30).
    split; [vm_compute; reflexivity|]. split; [right; left; reflexivity|].
    vm_compute. reflexivity.
Qed.

(** ** Intersection of ranges (claim C8) *)

Lemma normalTime_eq (a b : TimeOfDay) :
  normalTime a -> normalTime b -> Multi.minutesOf a = Multi.minutesOf b -> a = b.
Proof.
  destruct a as [ha ma], b as [hb mb]. unfold normalTime, Multi.minutesOf. simpl.
  intros Ha Hb Heq. f_equal; lia.
Qed.

Lemma pairsOf_overlap_app (startA endA startB endB : TimeOfDay) (rest : list TimeOfDay) :
  pairsOf (overlapOf startA endA startB endB ++ rest)
  = pairsOf (overlapOf startA endA startB endB) ++ pairsOf rest.
Proof. unfold overlapOf. cbv zeta. destruct (_ <? _); reflexivity. Qed.

Lemma overlapOf_comm (startA endA startB endB : TimeOfDay) :
  pairsOf (overlapOf startA endA startB endB)
  = pairsOf (overlapOf startB endB startA endA)
  /\ (normalTime startA -> normalTime endA -> normalTime startB -> normalTime endB ->
      overlapOf startA endA startB endB = overlapOf startB endB startA endA).
Proof.
  assert (Hpair : forall a b c d : Z, a = c -> b = d -> [(a, b)] = [(c, d)])
    by (intros; subst; reflexivity).
  assert (Htime : forall a b c d : TimeOfDay, a = c -> b = d -> [a; b] = [c; d])
    by (intros; subst; reflexivity).
  unfold overlapOf. cbv zeta.
  destruct (Z.gtb_spec (Multi.minutesOf startA) (Multi.minutesOf startB)) as [Hs|Hs];
  destruct (Z.gtb_spec (Multi.minutesOf startB) (Multi.minutesOf startA)) as [Hs'|Hs'];
  destruct (Z.ltb_spec (Multi.minutesOf endA) (Multi.minutesOf endB)) as [He|He];
  destruct (Z.ltb_spec (Multi.minutesOf endB) (Multi.minutesOf endA)) as [He'|He'];
  try lia;
  repeat match goal with
         | |- context [?a <? ?b] => destruct (Z.ltb_spec a b)
         end;
  try lia; simpl;
  (split; [first [reflexivity | apply Hpair; lia]|]); intros;
  first [ reflexivity
        | apply Htime;
          first [reflexivity | apply normalTime_eq; [assumption|assumption|lia]] ].
Qed.

Lemma overlapOf_disjoint (startA endA startB endB : TimeOfDay) :
  Multi.minutesOf endA <= Multi.minutesOf startB ->
  overlapOf startA endA startB endB = [].
Proof.
  intros Hle. unfold overlapOf. cbv zeta.
  destruct (Z.gtb_spec (Multi.minutesOf startA) (Multi.minutesOf startB));
    destruct (Z.ltb_spec (Multi.minutesOf endA) (Multi.minutesOf endB));
    match goal with
    | |- context [?a <? ?b] => destruct (Z.ltb_spec a b)
    end; try reflexivity; lia.
Qed.

(** The head pair of the first range is dropped without a push when the
    second range begins at its end or later. *)
Lemma intersectRanges_skip (startA endA : TimeOfDay) (nextA rangeB : list TimeOfDay) :
  validRange rangeB ->
  match rangeB with
  | [] => True
  | startB :: _ => Multi.minutesOf endA <= Multi.minutesOf startB
  end ->
  Multi.intersectRanges (startA :: endA :: nextA) rangeB
  = Multi.intersectRanges nextA rangeB.
Proof.
  destruct rangeB as [|startB [|endB nextB]]; simpl; intros Hv Hle.
  - symmetry. apply intersectRanges_nil_r.
  - contradiction.
  - destruct Hv as (Hb & _ & _).
    change (Multi.intersectRanges (startA :: endA :: nextA) (startB :: endB :: nextB)
            = Multi.intersectRanges nextA (startB :: endB :: nextB)).
    rewrite intersectRanges_pairs, (overlapOf_disjoint _ _ _ _ Hle).
    destruct (Z.ltb_spec (Multi.minutesOf endA) (Multi.minutesOf endB)); [|lia].
    destruct (Multi.intersectRanges nextA (startB :: endB :: nextB)); reflexivity.
Qed.

Lemma validRange_tail (start end_ : TimeOfDay) (rest : list TimeOfDay) :
  validRange (start :: end_ :: rest) ->
  validRange rest
  /\ match rest with
     | [] => True
     | next :: _ => Multi.minutesOf end_ <= Multi.minutesOf next
     end.
Proof. simpl. tauto. Qed.

Lemma intersectRanges_comm_fuel (n : nat) :
  forall rangeA rangeB,
    (length rangeA + length rangeB <= n)%nat ->
    validRange rangeA -> validRange rangeB ->
    exists resultAB resultBA,
      Multi.intersectRanges rangeA rangeB = Ok resultAB
      /\ Multi.intersectRanges rangeB rangeA = Ok resultBA
      /\ pairsOf resultAB = pairsOf resultBA
      /\ (Forall normalTime rangeA -> Forall normalTime rangeB -> resultAB = resultBA).
Proof.
  induction n as [|n IH]; intros rangeA rangeB Hn HA HB.
  { destruct rangeA; [|simpl in Hn; lia].
    exists [], []. rewrite intersectRanges_nil_l, intersectRanges_nil_r. auto. }
  destruct rangeA as [|startA [|endA nextA]]; [|contradiction|].
  { exists [], []. rewrite intersectRanges_nil_l, intersectRanges_nil_r. auto. }
  destruct rangeB as [|startB [|endB nextB]]; [|contradiction|].
  { exists [], []. rewrite intersectRanges_nil_l, intersectRanges_nil_r. auto. }
  destruct (validRange_tail _ _ _ HA) as [HnextA HleA].
  destruct (validRange_tail _ _ _ HB) as [HnextB HleB].
  rewrite (intersectRanges_pairs startA endA nextA startB endB nextB).
  rewrite (intersectRanges_pairs startB endB nextB startA endA nextA).
  destruct (overlapOf_comm startA endA startB endB) as [Hpairs Hsame].
  assert (Hstep : forall restA restB,
    (length restA + length restB <= n)%nat -> validRange restA -> validRange restB ->
    (Forall normalTime (startA :: endA :: nextA) -> Forall normalTime restA) ->
    (Forall normalTime (startB :: endB :: nextB) -> Forall normalTime restB) ->
    exists resultAB resultBA,
      (result' ← Multi.intersectRanges restA restB;
       Ok (overlapOf startA endA startB endB ++ result')) = Ok resultAB
      /\ (result' ← Multi.intersectRanges restB restA;
          Ok (overlapOf startB endB startA endA ++ result')) = Ok resultBA
      /\ pairsOf resultAB = pairsOf resultBA
      /\ (Forall normalTime (startA :: endA :: nextA) ->
          Forall normalTime (startB :: endB :: nextB) -> resultAB = resultBA)).
  { intros restA restB Hlen HvA HvB HnA HnB.
    destruct (IH restA restB Hlen HvA HvB) as (r1 & r2 & -> & -> & Hp & Hr).
    eexists _, _. split; [reflexivity|]. split; [reflexivity|]. split.
    - rewrite !pairsOf_overlap_app, Hpairs, Hp. reflexivity.
    - intros HtA HtB. rewrite (Hr (HnA HtA) (HnB HtB)).
      f_equal.
      apply Forall_cons_iff in HtA as [? HtA]. apply Forall_cons_iff in HtA as [? _].
      apply Forall_cons_iff in HtB as [? HtB]. apply Forall_cons_iff in HtB as [? _].
      apply Hsame; assumption. }
  assert (Htail : forall (x y : TimeOfDay) (l : list TimeOfDay),
    Forall normalTime (x :: y :: l) -> Forall normalTime l).
  { intros x y l H. apply Forall_cons_iff in H as [_ H].
    apply Forall_cons_iff in H as [_ H]. exact H. }
  destruct (Z.ltb_spec (Multi.minutesOf endA) (Multi.minutesOf endB)) as [Hlt|Hge];
    destruct (Z.ltb_spec (Multi.minutesOf endB) (Multi.minutesOf endA)) as [Hgt|Hle];
    try lia.
  - (* endA < endB: both calls drop the head pair of A *)
    apply Hstep; auto; simpl in *; try lia. apply Htail.
  - (* endB < endA: both calls drop the head pair of B *)
    apply Hstep; auto; simpl in *; try lia. apply Htail.
  - (* endA = endB: one call drops the pair of B, the other the pair of A; the
       pair that is left is dropped at the next step without a push *)
    rewrite (intersectRanges_skip startA endA nextA nextB HnextB)
      by (destruct nextB; [exact I|lia]).
    rewrite (intersectRanges_skip startB endB nextB nextA HnextA)
      by (destruct nextA; [exact I|lia]).
    apply Hstep; auto; simpl in *; try lia; apply Htail.
Qed.

(** C8: for two valid pair-sequences, [intersectRanges(A, B)] and
    [intersectRanges(B, A)] both return, and their results denote the same
    pairs of times of day, in the same order; with minutes in 0..59 the two
    results are the same sequence of time-of-day values. *)
Theorem C8_intersectRanges_commutative (rangeA rangeB : list TimeOfDay) :
  validRange rangeA -> validRange rangeB ->
  exists resultAB resultBA,
    Multi.intersectRanges rangeA rangeB = Ok resultAB
    /\ Multi.intersectRanges rangeB rangeA = Ok resultBA
    /\ (forall pair, In pair (pairsOf resultAB) <-> In pair (pairsOf resultBA))
    /\ pairsOf resultAB = pairsOf resultBA
    /\ (Forall normalTime rangeA -> Forall normalTime rangeB -> resultAB = resultBA).
Proof.
  intros HA HB.
  destruct (intersectRanges_comm_fuel _ rangeA rangeB (Nat.le_refl _) HA HB)
    as (r1 & r2 & H1 & H2 & Hp & Hr).
  exists r1, r2. repeat split; try assumption; rewrite Hp; auto.
Qed.

(** Attendee A is free 09:00 to 12:00 and 13:00 to 14:00, attendee B 10:00 to
    11:00 and 11:30 to 13:30. *)
Lemma C8_intersectRanges_commutative_witness :
  let rangeA := [mkTime 9 0; mkTime 12 0; mkTime 13 0; mkTime 14 0] in
  let rangeB := [mkTime 10 0; mkTime 11 0; mkTime 11 30; mkTime 13 30] in
  exists resultAB resultBA,
    Multi.intersectRanges rangeA rangeB = Ok resultAB
    /\ Multi.intersectRanges rangeB rangeA = Ok resultBA
    /\ (forall pair, In pair (pairsOf resultAB) <-> In pair (pairsOf resultBA))
    /\ pairsOf resultAB = pairsOf resultBA
    /\ (Forall normalTime rangeA -> Forall normalTime rangeB -> resultAB = resultBA).
Proof.
  intros rangeA rangeB.
  apply (C8_intersectRanges_commutative rangeA rangeB).
  - vm_compute. repeat split; discriminate.
  - vm_compute. repeat split; discriminate.
Defined.

(** ** The store: inputs are left unchanged, results are new objects (claim C9) *)

Module StoreFacts.
Import Store StoreSpec.

Lemma readDate_app_l (h k : heap) (d : loc) :
  (d < length h)%nat -> readDate (h ++ k) d = readDate h d.
Proof. intros Hd. unfold readDate. rewrite lookup_app_l by exact Hd. reflexivity. Qed.

Lemma readDate_new (h k : heap) (v : Z) : readDate (h ++ v :: k) (length h) = v.
Proof. unfold readDate. rewrite list_lookup_middle by reflexivity. reflexivity. Qed.

Lemma readDate_second (h k : heap) (v w : Z) :
  readDate (h ++ v :: w :: k) (length (h ++ [v])) = w.
Proof.
  replace (h ++ v :: w :: k) with ((h ++ [v]) ++ w :: k)
    by (rewrite <- app_assoc; reflexivity).
  apply readDate_new.
Qed.

Lemma insert_new (h k : heap) (v v' : Z) :
  <[length h := v']> (h ++ v :: k) = h ++ v' :: k.
Proof.
  rewrite insert_app_r_alt by apply Nat.le_refl.
  rewrite Nat.sub_diag. reflexivity.
Qed.

(** A cell other than the one that was written reads the same. *)
Lemma readDate_other_cell (h k : heap) (v v' : Z) (d : loc) :
  d <> length h -> readDate (h ++ v' :: k) d = readDate (h ++ v :: k) d.
Proof.
  intros Hd. unfold readDate.
  rewrite <- (insert_new h k v v').
  rewrite list_lookup_insert_ne by congruence. reflexivity.
Qed.

Lemma run_bind {A B : Type} (m : M A) (f : A -> M B) (h : heap) :
  run (m ≫= f) h
  = match run m h with
    | (h', Ok a) => run (f a) h'
    | (h', Throw e) => (h', Throw e)
    end.
Proof. reflexivity. Qed.

Lemma extends_ret {A : Type} (a : A) (h : heap) : extends (mret a) h (Ok a).
Proof. exists []. rewrite app_nil_r. reflexivity. Qed.

Lemma extends_bind {A B : Type} (m : M A) (f : A -> M B) (h : heap) (a : A)
    (r : result B) :
  extends m h (Ok a) ->
  (forall k, extends (f a) (h ++ k) r) ->
  extends (m ≫= f) h r.
Proof.
  intros [k E] Hf. destruct (Hf k) as [k' E'].
  exists (k ++ k'). rewrite run_bind, E, E', app_assoc. reflexivity.
Qed.

(** [someM] computes [existsb] when each callback, run from a store that
    extends [h], extends it in turn and returns the value of the pure
    callback at [h]. *)
Lemma extends_someM {A : Type} (p : A -> M bool) (q : A -> bool) (xs : list A) :
  forall h : heap,
    (forall x k, In x xs -> extends (p x) (h ++ k) (Ok (q x))) ->
    extends (someM p xs) h (Ok (existsb q xs)).
Proof.
  induction xs as [|x rest IH]; intros h Hp; simpl.
  - apply extends_ret.
  - pose proof (Hp x [] (or_introl eq_refl)) as Hx. rewrite app_nil_r in Hx.
    apply (extends_bind _ _ _ _ _ Hx). intros k.
    destruct (q x); simpl.
    + apply extends_ret.
    + destruct (IH (h ++ k)) as [k' E].
      * intros y k' Hy. rewrite <- app_assoc. apply Hp. right. exact Hy.
      * exists k'. exact E.
Qed.

Lemma extends_everyM {A : Type} (p : A -> M bool) (q : A -> bool) (xs : list A) :
  forall h : heap,
    (forall x k, In x xs -> extends (p x) (h ++ k) (Ok (q x))) ->
    extends (everyM p xs) h (Ok (forallb q xs)).
Proof.
  induction xs as [|x rest IH]; intros h Hp; simpl.
  - apply extends_ret.
  - pose proof (Hp x [] (or_introl eq_refl)) as Hx. rewrite app_nil_r in Hx.
    apply (extends_bind _ _ _ _ _ Hx). intros k.
    destruct (q x); simpl.
    + destruct (IH (h ++ k)) as [k' E].
      * intros y k' Hy. rewrite <- app_assoc. apply Hp. right. exact Hy.
      * exists k'. exact E.
    + apply extends_ret.
Qed.

(** Running a primitive, or one of the date operations, in front of a
    continuation. *)
Lemma run_ret {A : Type} (a : A) (h : heap) : run (mret a) h = (h, Ok a).
Proof. reflexivity. Qed.

Lemma run_throw_bind {A B : Type} (e : JsError) (K : A -> M B) (h : heap) :
  run (throw e ≫= K) h = (h, Throw e).
Proof. reflexivity. Qed.

Lemma run_bind_assoc {A B C : Type} (m : M A) (f : A -> M B) (g : B -> M C)
    (h : heap) :
  run ((m ≫= f) ≫= g) h = run (m ≫= fun a => f a ≫= g) h.
Proof. rewrite !run_bind. destruct (run m h) as [h' [a|e]]; reflexivity. Qed.

Lemma run_throw {A : Type} (e : JsError) (h : heap) :
  run (throw e : M A) h = (h, Throw e).
Proof. reflexivity. Qed.

Lemma run_withFuel {A : Type} (fuel : heap -> nat) (loop : nat -> M A) (h : heap) :
  run (withFuel fuel loop) h = run (loop (fuel h)) h.
Proof. reflexivity. Qed.

Lemma run_ret_bind {A B : Type} (a : A) (K : A -> M B) (h : heap) :
  run (mret a ≫= K) h = run (K a) h.
Proof. reflexivity. Qed.

Lemma run_getTime_bind {B : Type} (d : loc) (K : Z -> M B) (h : heap) :
  run (getTime d ≫= K) h = run (K (readDate h d)) h.
Proof. reflexivity. Qed.

Lemma run_newDate_bind {B : Type} (v : Z) (K : loc -> M B) (h : heap) :
  run (newDate v ≫= K) h = run (K (length h)) (h ++ [v]).
Proof. reflexivity. Qed.

Lemma run_copyDate_bind {B : Type} (d : loc) (K : loc -> M B) (h : heap) :
  run (copyDate d ≫= K) h = run (K (length h)) (h ++ [readDate h d]).
Proof. reflexivity. Qed.

Lemma run_newDateUTC_bind {B : Type} (d : loc) (hh mm : Z) (K : loc -> M B) (h : heap) :
  run (newDateUTC d hh mm ≫= K) h
  = run (K (length h)) (h ++ [dateUTC (readDate h d) hh mm]).
Proof. reflexivity. Qed.

Lemma run_dateGetUTCDay_bind {B : Type} (d : loc) (K : Z -> M B) (h : heap) :
  run (dateGetUTCDay d ≫= K) h = run (K (getUTCDay (readDate h d))) h.
Proof. reflexivity. Qed.

Lemma run_dateLt_bind {B : Type} (a b : loc) (K : bool -> M B) (h : heap) :
  run (dateLt a b ≫= K) h = run (K (readDate h a <? readDate h b)) h.
Proof. reflexivity. Qed.

Lemma run_dateLe_bind {B : Type} (a b : loc) (K : bool -> M B) (h : heap) :
  run (dateLe a b ≫= K) h = run (K (readDate h a <=? readDate h b)) h.
Proof. reflexivity. Qed.

Lemma run_dateGt_bind {B : Type} (a b : loc) (K : bool -> M B) (h : heap) :
  run (dateGt a b ≫= K) h = run (K (readDate h a >? readDate h b)) h.
Proof. reflexivity. Qed.

Lemma run_dateGe_bind {B : Type} (a b : loc) (K : bool -> M B) (h : heap) :
  run (dateGe a b ≫= K) h = run (K (readDate h a >=? readDate h b)) h.
Proof. reflexivity. Qed.

Lemma run_dateLt (a b : loc) (h : heap) :
  run (dateLt a b) h = (h, Ok (readDate h a <? readDate h b)).
Proof. reflexivity. Qed.

Lemma run_dateLe (a b : loc) (h : heap) :
  run (dateLe a b) h = (h, Ok (readDate h a <=? readDate h b)).
Proof. reflexivity. Qed.

Lemma run_dateGt (a b : loc) (h : heap) :
  run (dateGt a b) h = (h, Ok (readDate h a >? readDate h b)).
Proof. reflexivity. Qed.

Lemma run_dateGe (a b : loc) (h : heap) :
  run (dateGe a b) h = (h, Ok (readDate h a >=? readDate h b)).
Proof. reflexivity. Qed.

(** A setter on the [Date] that was created last rewrites the last cell. *)
Lemma run_setTime_new_bind {B : Type} (h : heap) (v v' : Z) (K : unit -> M B) :
  run (setTime (length h) v' ≫= K) (h ++ [v]) = run (K tt) (h ++ [v']).
Proof.
  rewrite run_bind. unfold setTime at 1. cbn [run].
  rewrite insert_new. reflexivity.
Qed.

Lemma run_dateSetHours_new_bind {B : Type} (tz : TimeZone) (h : heap) (v hh mm : Z)
    (K : unit -> M B) :
  run (dateSetHours tz (length h) hh mm ≫= K) (h ++ [v])
  = run (K tt) (h ++ [setHours tz v hh mm]).
Proof.
  rewrite run_bind. unfold dateSetHours. rewrite run_getTime_bind, readDate_new.
  unfold setTime. cbn [run]. rewrite insert_new. reflexivity.
Qed.

Lemma run_dateSetUTCHours_new_bind {B : Type} (h : heap) (v hh mm : Z)
    (K : unit -> M B) :
  run (dateSetUTCHours (length h) hh mm ≫= K) (h ++ [v])
  = run (K tt) (h ++ [setUTCHours v hh mm]).
Proof.
  rewrite run_bind. unfold dateSetUTCHours. rewrite run_getTime_bind, readDate_new.
  unfold setTime. cbn [run]. rewrite insert_new. reflexivity.
Qed.

Lemma run_newBufferedStart_bind {B : Type} (event : EventObj) (K : loc -> M B) (h : heap) :
  run (newBufferedStart event ≫= K) h
  = run (K (length h))
      (h ++ [readDate h (eventStart event) - objBufferBefore event * 60 * 1000]).
Proof. reflexivity. Qed.

Lemma run_newBufferedEnd_bind {B : Type} (event : EventObj) (K : loc -> M B) (h : heap) :
  run (newBufferedEnd event ≫= K) h
  = run (K (length h))
      (h ++ [readDate h (eventEnd event) + objBufferAfter event * 60 * 1000]).
Proof. reflexivity. Qed.

(** One step of symbolic execution. *)
Ltac run_step :=
  first
    [ rewrite run_bind_assoc
    | rewrite run_ret_bind | rewrite run_throw_bind
    | rewrite run_getTime_bind | rewrite run_newDate_bind
    | rewrite run_copyDate_bind | rewrite run_newDateUTC_bind
    | rewrite run_dateGetUTCDay_bind
    | rewrite run_dateLt_bind | rewrite run_dateLe_bind
    | rewrite run_dateGt_bind | rewrite run_dateGe_bind
    | rewrite run_dateSetHours_new_bind | rewrite run_dateSetUTCHours_new_bind
    | rewrite run_setTime_new_bind
    | rewrite run_newBufferedStart_bind | rewrite run_newBufferedEnd_bind
    | rewrite run_dateLt | rewrite run_dateLe | rewrite run_dateGt | rewrite run_dateGe
    | rewrite run_ret | rewrite run_throw | rewrite run_withFuel ];
  cbv beta iota.

Lemma readEvent_app_l (h k : heap) (events : list EventObj) :
  eventsIn h events -> map (readEvent (h ++ k)) events = map (readEvent h) events.
Proof.
  intros Hin. apply map_ext_in. intros event Hev.
  unfold eventsIn in Hin. rewrite Forall_forall in Hin.
  destruct (Hin _ Hev) as [Hs He].
  unfold readEvent. rewrite !readDate_app_l by assumption. reflexivity.
Qed.

(** Simplifies the reads of a store that has grown. *)
Ltac read_store :=
  cbn [app];
  repeat first
    [ rewrite readDate_new
    | rewrite readDate_second
    | rewrite readDate_app_l by (rewrite ?length_app; simpl; lia) ].

(** Runs the operations in front of the goal, one after the other. *)
Ltac run_all := repeat (run_step; read_store).

Ltac run_done := rewrite <- ?app_assoc; simpl app; reflexivity.

Lemma existsb_map_compose {A B : Type} (f : B -> bool) (g : A -> B) (xs : list A) :
  existsb f (map g xs) = existsb (fun x => f (g x)) xs.
Proof. induction xs as [|x rest IH]; simpl; [reflexivity|]. rewrite IH. reflexivity. Qed.

Lemma forallb_map_compose {A B : Type} (f : B -> bool) (g : A -> B) (xs : list A) :
  forallb f (map g xs) = forallb (fun x => f (g x)) xs.
Proof. induction xs as [|x rest IH]; simpl; [reflexivity|]. rewrite IH. reflexivity. Qed.

(** *** The validators *)

Lemma with_buffer_isSlotInRange (tz : TimeZone) (slotStart slotEnd : loc)
    (ranges : list TimeOfDay) (h : heap) :
  (slotStart < length h)%nat -> (slotEnd < length h)%nat ->
  extends (StoreWithBuffer.isSlotInRange tz slotStart slotEnd ranges) h
    (Ok (WithBuffer.isSlotInRange tz (readDate h slotStart) (readDate h slotEnd) ranges)).
Proof.
  intros Hs He. unfold StoreWithBuffer.isSlotInRange, WithBuffer.isSlotInRange.
  apply extends_someM. intros range k _.
  set (t := setHours tz (readDate h slotStart) (hours range) (minutes range)).
  exists [t; t + 24 * 60 * 60 * 1000].
  run_all. fold t.
  destruct (readDate h slotStart >=? t); run_all; run_done.
Qed.

Lemma with_buffer_isSlotWithinAvailability (tz : TimeZone) (slotStart slotEnd : loc)
    (availability : CalendarAvailability) (h : heap) :
  (slotStart < length h)%nat -> (slotEnd < length h)%nat ->
  extends (StoreWithBuffer.isSlotWithinAvailability tz slotStart slotEnd availability) h
    (Ok (WithBuffer.isSlotWithinAvailability tz (readDate h slotStart)
           (readDate h slotEnd) availability)).
Proof.
  intros Hs He.
  unfold StoreWithBuffer.isSlotWithinAvailability, WithBuffer.isSlotWithinAvailability.
  apply extends_someM. intros entry k _.
  destruct (with_buffer_isSlotInRange tz slotStart slotEnd (range entry) (h ++ k))
    as [k' E]; [rewrite length_app; lia|rewrite length_app; lia|].
  revert E. read_store. intros E.
  unfold extends. run_all. cbv zeta.
  destruct (weekday entry =? getUTCDay (readDate h slotStart)); simpl andb.
  - exists k'. exact E.
  - exists []. rewrite app_nil_r. reflexivity.
Qed.

Lemma with_buffer_isSlotConflictedWithEvents (slotStart slotEnd : loc)
    (events : list EventObj) (h : heap) :
  (slotStart < length h)%nat -> (slotEnd < length h)%nat -> eventsIn h events ->
  extends (StoreWithBuffer.isSlotConflictedWithEvents slotStart slotEnd events) h
    (Ok (WithBuffer.isSlotConflictedWithEvents (readDate h slotStart)
           (readDate h slotEnd) (map (readEvent h) events))).
Proof.
  intros Hs He Hev.
  unfold StoreWithBuffer.isSlotConflictedWithEvents, WithBuffer.isSlotConflictedWithEvents.
  rewrite existsb_map_compose.
  apply extends_someM. intros event k Hin.
  unfold eventsIn in Hev. rewrite Forall_forall in Hev. destruct (Hev _ Hin) as [H1 H2].
  eexists [_; _].
  run_all.
  unfold WithBuffer.calculateEventStartWithBuffer, WithBuffer.calculateEventEndWithBuffer.
  cbv zeta. cbn [CalendarEvent.start CalendarEvent.end_ readEvent].
  change (bufferBefore (readEvent h event)) with (objBufferBefore event).
  change (bufferAfter (readEvent h event)) with (objBufferAfter event).
  destruct (readDate h slotStart <? _); run_all; run_done.
Qed.

Lemma eventsIn_app (h k : heap) (events : list EventObj) :
  eventsIn h events -> eventsIn (h ++ k) events.
Proof.
  unfold eventsIn. apply Forall_impl. intros event [Hs He].
  rewrite length_app. split; lia.
Qed.

Ltac store_size := rewrite ?length_app; simpl; lia.

(** Uses the specification [lem] of the call in front of the goal. *)
Ltac run_call_as lem k :=
  let E := fresh "E" in
  destruct lem as [k E];
  first [rewrite run_bind, E | rewrite E];
  clear E; cbv beta iota; read_store.

Ltac run_call lem := let k := fresh "k" in run_call_as lem k.

Ltac run_end :=
  first [ exists []; rewrite app_nil_r; reflexivity
        | eexists; rewrite <- ?app_assoc; reflexivity ].

Lemma with_buffer_isSlotAvailableWithBuffer (tz : TimeZone)
    (availability : CalendarAvailability) (events : list EventObj) (slot : SlotObj)
    (h : heap) :
  (slotStart slot < length h)%nat -> eventsIn h events ->
  extends (StoreWithBuffer.isSlotAvailableWithBuffer tz availability events slot) h
    (Ok (WithBuffer.isSlotAvailableWithBuffer tz availability
           (map (readEvent h) events) (readSlot h slot))).
Proof.
  intros Hs Hev.
  unfold StoreWithBuffer.isSlotAvailableWithBuffer, WithBuffer.isSlotAvailableWithBuffer.
  cbv zeta. unfold StoreWithBuffer.calculateSlotEndTime, extends.
  cbn [CalendarSlot.start CalendarSlot.durationM readSlot].
  run_all.
  run_call (with_buffer_isSlotWithinAvailability tz (slotStart slot) (length h)
              availability (h ++ [readDate h (slotStart slot) + slotDurationM slot * 60000])
              ltac:(store_size) ltac:(store_size)).
  unfold WithBuffer.calculateSlotEndTime.
  destruct (WithBuffer.isSlotWithinAvailability tz _ _ availability);
    cbn [negb]; [|run_all; run_end].
  match goal with
  | |- context [run _ ?H] =>
      run_call (with_buffer_isSlotConflictedWithEvents (slotStart slot) (length h)
                  events H ltac:(store_size) ltac:(store_size)
                  ltac:(repeat apply eventsIn_app; exact Hev))
  end.
  rewrite !readEvent_app_l by (repeat apply eventsIn_app; exact Hev).
  destruct (WithBuffer.isSlotConflictedWithEvents _ _ _); run_all; run_end.
Qed.

(** Runs through the branches of the conditionals in front of the goal. *)
Ltac run_cases :=
  repeat (run_all;
          match goal with
          | |- context [run (if ?b then _ else _) _] => destruct b
          | |- context [run ((if ?b then _ else _) ≫= _) _] => destruct b
          end);
  run_all.

Lemma result_bind_Ok {A B : Type} (a : A) (k : A -> result B) : (Ok a ≫= k) = k a.
Proof. reflexivity. Qed.

Lemma result_bind_Throw {A B : Type} (e : JsError) (k : A -> result B) :
  (Throw e ≫= k) = Throw e.
Proof. reflexivity. Qed.

Lemma with_events_isSlotWithinAvailability (slotStart slotEnd : loc)
    (availability : CalendarAvailability) (h : heap) :
  (slotStart < length h)%nat -> (slotEnd < length h)%nat ->
  extends (StoreWithEvents.isSlotWithinAvailability slotStart slotEnd availability) h
    (WithEvents.isSlotWithinAvailability (readDate h slotStart) (readDate h slotEnd)
       availability).
Proof.
  intros Hs He.
  unfold StoreWithEvents.isSlotWithinAvailability, WithEvents.isSlotWithinAvailability,
    extends.
  cbv zeta. run_all.
  destruct (find _ (include availability)) as [entry|]; [|run_all; run_end].
  destruct (range entry) as [|startRange [|endRange others]]; run_cases; run_end.
Qed.

Lemma with_events_isSlotConflictedWithEvents (slotStart slotEnd : loc)
    (events : list EventObj) (h : heap) :
  (slotStart < length h)%nat -> (slotEnd < length h)%nat -> eventsIn h events ->
  extends (StoreWithEvents.isSlotConflictedWithEvents slotStart slotEnd events) h
    (Ok (WithEvents.isSlotConflictedWithEvents (readDate h slotStart)
           (readDate h slotEnd) (map (readEvent h) events))).
Proof.
  intros Hs He Hev.
  unfold StoreWithEvents.isSlotConflictedWithEvents, WithEvents.isSlotConflictedWithEvents.
  rewrite existsb_map_compose.
  apply extends_someM. intros event k Hin.
  unfold eventsIn in Hev. rewrite Forall_forall in Hev. destruct (Hev _ Hin) as [H1 H2].
  unfold extends. cbv zeta. cbn [CalendarEvent.start CalendarEvent.end_ readEvent].
  run_cases; run_end.
Qed.

Lemma with_events_isSlotAvailableWithEvents (availability : CalendarAvailability)
    (events : list EventObj) (slot : SlotObj) (h : heap) :
  (slotStart slot < length h)%nat -> eventsIn h events ->
  extends (StoreWithEvents.isSlotAvailableWithEvents availability events slot) h
    (WithEvents.isSlotAvailableWithEvents availability (map (readEvent h) events)
       (readSlot h slot)).
Proof.
  intros Hs Hev.
  unfold StoreWithEvents.isSlotAvailableWithEvents, WithEvents.isSlotAvailableWithEvents.
  cbv zeta. unfold StoreWithEvents.calculateSlotEndTime, extends.
  cbn [CalendarSlot.start CalendarSlot.durationM readSlot].
  run_all.
  run_call (with_events_isSlotWithinAvailability (slotStart slot) (length h)
              availability (h ++ [readDate h (slotStart slot) + slotDurationM slot * 60000])
              ltac:(store_size) ltac:(store_size)).
  unfold WithEvents.calculateSlotEndTime.
  destruct (WithEvents.isSlotWithinAvailability _ _ availability) as [within|e];
    rewrite ?result_bind_Ok, ?result_bind_Throw; cbv beta iota; [|run_end].
  destruct within; cbn [negb]; [|run_all; run_end].
  match goal with
  | |- context [run _ ?H] =>
      run_call (with_events_isSlotConflictedWithEvents (slotStart slot) (length h)
                  events H ltac:(store_size) ltac:(store_size)
                  ltac:(repeat apply eventsIn_app; exact Hev))
  end.
  rewrite !readEvent_app_l by (repeat apply eventsIn_app; exact Hev).
  destruct (WithEvents.isSlotConflictedWithEvents _ _ _); run_all; run_end.
Qed.

Lemma is_slot_available_store (tz : TimeZone) (availability : CalendarAvailability)
    (slot : SlotObj) (h : heap) :
  (slotStart slot < length h)%nat ->
  extends (StoreIsSlotAvailable.isSlotAvailable tz availability slot) h
    (IsSlotAvailable.isSlotAvailable tz availability (readSlot h slot)).
Proof.
  intros Hs.
  unfold StoreIsSlotAvailable.isSlotAvailable, IsSlotAvailable.isSlotAvailable,
    StoreIsSlotAvailable.getAvailabilityTimeRange,
    IsSlotAvailable.getAvailabilityTimeRange,
    StoreIsSlotAvailable.calculateSlotEndTime, IsSlotAvailable.calculateSlotEndTime,
    StoreIsSlotAvailable.isSlotWithinAvailableRange,
    IsSlotAvailable.isSlotWithinAvailableRange, IsSlotAvailable.getSlotWeekday, extends.
  cbv zeta. cbn [CalendarSlot.start CalendarSlot.durationM readSlot].
  run_all.
  destruct (IsSlotAvailable.findAvailabilityForWeekday availability _) as [entry|];
    [|run_all; run_end].
  destruct (range entry) as [|r0 [|r1 others]];
    rewrite ?result_bind_Ok, ?result_bind_Throw; cbv beta iota;
    run_cases; run_end.
Qed.

(** *** The enumerators *)

Lemma readSlot_app_l (h k : heap) (obj : SlotObj) :
  (slotStart obj < length h)%nat -> readSlot (h ++ k) obj = readSlot h obj.
Proof. intros Hs. unfold readSlot. rewrite readDate_app_l by exact Hs. reflexivity. Qed.

Lemma map_readSlot_app_l (h k : heap) (objs : list SlotObj) :
  Forall (fun obj => (slotStart obj < length h)%nat) objs ->
  map (readSlot (h ++ k)) objs = map (readSlot h) objs.
Proof.
  intros Hall. apply map_ext_in. intros obj Hin.
  rewrite Forall_forall in Hall. apply readSlot_app_l, Hall, Hin.
Qed.

(** Slot objects whose [Date]s lie on the two sides of an address are
    pairwise distinct when each side is. *)
Lemma NoDup_starts_app (o1 o2 : list SlotObj) (n : nat) :
  NoDup (map slotStart o1) -> NoDup (map slotStart o2) ->
  Forall (fun obj => (slotStart obj < n)%nat) o1 ->
  Forall (fun obj => (n <= slotStart obj)%nat) o2 ->
  NoDup (map slotStart (o1 ++ o2)).
Proof.
  intros N1 N2 F1 F2. rewrite map_app. apply NoDup_app; [exact N1|exact N2|].
  intros d H1 H2.
  apply in_map_iff in H1 as (x & <- & Hx). apply in_map_iff in H2 as (y & Heq & Hy).
  rewrite Forall_forall in F1, F2. specialize (F1 _ Hx). specialize (F2 _ Hy). lia.
Qed.

Lemma yields_nil (h : heap) : yields (mret []) h [].
Proof.
  exists [], []. rewrite app_nil_r. repeat split; constructor.
Qed.

Lemma yields_one (h : heap) (d : loc) (slot : CalendarSlot.t) :
  (d < length h)%nat ->
  slot = CalendarSlot.mk (readDate h d) 30 ->
  yields (start ← copyDate d; mret [mkSlotObj start 30]) h [slot].
Proof.
  intros Hd ->. exists [readDate h d], [mkSlotObj (length h) 30].
  split; [reflexivity|]. split; [|split].
  - unfold readSlot. cbn [map slotStart slotDurationM]. rewrite readDate_new. reflexivity.
  - constructor; [|constructor]. cbn [slotStart]. rewrite length_app. simpl. lia.
  - constructor; [intros []|constructor].
Qed.

Lemma yields_app (m1 m2 : M (list SlotObj)) (h : heap) (p1 p2 : list CalendarSlot.t) :
  yields m1 h p1 ->
  (forall k, yields m2 (h ++ k) p2) ->
  yields (a ← m1; b ← m2; mret (a ++ b)) h (p1 ++ p2).
Proof.
  intros (k1 & o1 & E1 & V1 & F1 & N1) H2.
  destruct (H2 k1) as (k2 & o2 & E2 & V2 & F2 & N2).
  exists (k1 ++ k2), (o1 ++ o2).
  rewrite run_bind, E1. cbv beta iota. rewrite run_bind, E2. cbv beta iota.
  rewrite run_ret, !app_assoc. split; [reflexivity|]. split; [|split].
  - rewrite map_app, V2. f_equal. rewrite <- V1. apply map_readSlot_app_l.
    eapply Forall_impl; [|exact F1]. simpl. intros obj Hb. lia.
  - apply Forall_app. split.
    + eapply Forall_impl; [|exact F1]. simpl. intros obj Hb.
      rewrite !length_app in *. lia.
    + eapply Forall_impl; [|exact F2]. simpl. intros obj Hb.
      rewrite !length_app in *. lia.
  - apply (NoDup_starts_app o1 o2 (length (h ++ k1)) N1 N2).
    + eapply Forall_impl; [|exact F1]. simpl. intros obj Hb. lia.
    + eapply Forall_impl; [|exact F2]. simpl. intros obj Hb. lia.
Qed.

(** A computation that yields from a store that extends [h] yields from [h],
    when it is run there. *)
Lemma yields_weaken (m : M (list SlotObj)) (h k : heap) (slots : list CalendarSlot.t) :
  yields m (h ++ k) slots ->
  exists k' objs,
    run m (h ++ k) = (h ++ k', Ok objs)
    /\ map (readSlot (h ++ k')) objs = slots
    /\ Forall (fun obj => (length h <= slotStart obj < length (h ++ k'))%nat) objs
    /\ NoDup (map slotStart objs).
Proof.
  intros (k' & objs & E & V & F & N). exists (k ++ k'), objs.
  rewrite app_assoc. split; [exact E|]. split; [exact V|]. split; [|exact N].
  eapply Forall_impl; [|exact F]. simpl. intros obj Hb. rewrite !length_app in *. lia.
Qed.

Lemma single_hasConflict_store (events : list EventObj) (cs ce : loc) (h : heap) :
  (cs < length h)%nat -> (ce < length h)%nat -> eventsIn h events ->
  extends (StoreSingle.hasConflict events cs ce) h
    (Ok (Single.hasConflict (map (readEvent h) events) (readDate h cs) (readDate h ce))).
Proof.
  intros Hs He Hev. unfold StoreSingle.hasConflict, Single.hasConflict.
  rewrite existsb_map_compose.
  apply extends_someM. intros event k Hin.
  unfold eventsIn in Hev. rewrite Forall_forall in Hev. destruct (Hev _ Hin) as [H1 H2].
  unfold extends. cbv zeta. cbn [CalendarEvent.start CalendarEvent.end_ readEvent].
  change (bufferBefore (readEvent h event)) with (objBufferBefore event).
  change (bufferAfter (readEvent h event)) with (objBufferAfter event).
  run_cases; run_end.
Qed.

Lemma single_slotWalk_store (events : list EventObj) (fuel : nat) :
  forall (h : heap) (startRange endRange rangeEndTime cur : loc),
    (startRange < length h)%nat -> (endRange < length h)%nat ->
    (rangeEndTime < length h)%nat -> (cur < length h)%nat ->
    eventsIn h events ->
    yields (StoreSingle.slotWalk fuel events startRange endRange rangeEndTime cur) h
      (Single.slotWalk fuel (map (readEvent h) events) (readDate h startRange)
         (readDate h endRange) (readDate h rangeEndTime) (readDate h cur)).
Proof.
  induction fuel as [|fuel IH]; intros h startRange endRange rangeEndTime cur Hs He Hr Hc Hev.
  - apply yields_nil.
  - cbn [StoreSingle.slotWalk Single.slotWalk].
    destruct (readDate h cur <? readDate h rangeEndTime) eqn:Hblock.
    2:{ exists [], []. run_all. rewrite Hblock, run_ret, app_nil_r.
        repeat split; constructor. }
    set (slotEnd := readDate h cur + 30 * 60 * 1000).
    destruct ((readDate h cur <? readDate h startRange) || (slotEnd >? readDate h endRange))
      eqn:Hout.
    { exists [slotEnd], []. run_all. rewrite Hblock. cbv beta iota. run_all.
      fold slotEnd.
      destruct (readDate h cur <? readDate h startRange); simpl in Hout; run_all;
        [|rewrite Hout; run_all];
        repeat split; constructor. }
    unfold yields. run_all. rewrite Hblock. cbv beta iota. run_all. fold slotEnd.
    assert (Hout' := Hout). apply orb_false_elim in Hout' as [Hearly Hlate].
    rewrite Hearly. cbv beta iota. run_all. rewrite Hlate. cbv beta iota.
    run_call_as (single_hasConflict_store events cur (length h) (h ++ [slotEnd])
                   ltac:(store_size) ltac:(store_size) ltac:(apply eventsIn_app, Hev)) k1.
    rewrite readEvent_app_l by exact Hev.
    rewrite <- app_assoc. apply yields_weaken. apply yields_app.
    + destruct (Single.hasConflict _ _ _); cbn [negb].
      * apply yields_nil.
      * apply yields_one; [store_size|]. read_store. reflexivity.
    + intros k.
      pose proof (IH ((h ++ [slotEnd] ++ k1) ++ k) startRange endRange rangeEndTime
                    (length h) ltac:(store_size) ltac:(store_size) ltac:(store_size)
                    ltac:(store_size) ltac:(repeat apply eventsIn_app; exact Hev)) as Hy.
      revert Hy. rewrite <- !app_assoc. cbn [app]. read_store.
      rewrite (readEvent_app_l h _ events Hev). exact (fun Hy => Hy).
Qed.

Lemma single_rangeSlots_store (events : list EventObj) (startRange endRange cur : loc)
    (range : TimeOfDay) (h : heap) :
  (startRange < length h)%nat -> (endRange < length h)%nat -> (cur < length h)%nat ->
  eventsIn h events ->
  yields (StoreSingle.rangeSlots events startRange endRange cur range) h
    (Single.rangeSlots (map (readEvent h) events) (readDate h startRange)
       (readDate h endRange) (readDate h cur) range).
Proof.
  intros Hs He Hc Hev.
  unfold StoreSingle.rangeSlots, Single.rangeSlots, Single.blockStart, Single.blockEnd,
    yields.
  cbv zeta. run_all.
  set (first := dateUTC (readDate h cur) (hours range) (minutes range)).
  set (last := dateUTC (readDate h cur) (hours range + 30) (minutes range)).
  rewrite <- app_assoc. apply yields_weaken.
  pose proof (single_slotWalk_store events (Single.walkFuel last first)
                (h ++ [first] ++ [last]) startRange endRange (length (h ++ [first]))
                (length h) ltac:(store_size) ltac:(store_size) ltac:(store_size)
                ltac:(store_size) ltac:(apply eventsIn_app, Hev)) as Hy.
  revert Hy. rewrite (readEvent_app_l h _ events Hev). read_store.
  exact (fun Hy => Hy).
Qed.

Lemma yields_forEachM {A : Type} (f : A -> M (list SlotObj))
    (g : A -> list CalendarSlot.t) (xs : list A) :
  forall h : heap,
    (forall x k, In x xs -> yields (f x) (h ++ k) (g x)) ->
    yields (forEachM f xs) h (flat_map g xs).
Proof.
  induction xs as [|x rest IH]; intros h Hf; simpl.
  - apply yields_nil.
  - apply yields_app.
    + pose proof (Hf x [] (or_introl eq_refl)) as Hx. rewrite app_nil_r in Hx. exact Hx.
    + intros k. apply IH. intros y k' Hy. rewrite <- app_assoc. apply Hf. right. exact Hy.
Qed.

Lemma single_daySlots_store (availability : CalendarAvailability)
    (events : list EventObj) (startRange endRange cur : loc) (h : heap) :
  (startRange < length h)%nat -> (endRange < length h)%nat -> (cur < length h)%nat ->
  eventsIn h events ->
  yields (StoreSingle.daySlots availability events startRange endRange cur) h
    (Single.daySlots availability (map (readEvent h) events) (readDate h startRange)
       (readDate h endRange) (readDate h cur)).
Proof.
  intros Hs He Hc Hev.
  unfold StoreSingle.daySlots, Single.daySlots. cbv zeta.
  assert (Hstep : forall K : Z -> M (list SlotObj),
    run (dateGetUTCDay cur ≫= K) h = run (K (getUTCDay (readDate h cur))) h)
    by reflexivity.
  unfold yields. rewrite Hstep. fold (yields
    (match find (fun day => weekday day =? getUTCDay (readDate h cur))
             (include availability) with
     | Some dayAvailability =>
         forEachM (StoreSingle.rangeSlots events startRange endRange cur)
           (range dayAvailability)
     | None => mret []
     end) h
    (match find (fun day => weekday day =? getUTCDay (readDate h cur))
             (include availability) with
     | Some dayAvailability =>
         flat_map (Single.rangeSlots (map (readEvent h) events) (readDate h startRange)
                     (readDate h endRange) (readDate h cur)) (range dayAvailability)
     | None => []
     end)).
  destruct (find _ (include availability)) as [dayAvailability|]; [|apply yields_nil].
  apply yields_forEachM. intros entry k _.
  pose proof (single_rangeSlots_store events startRange endRange cur entry (h ++ k)
                ltac:(store_size) ltac:(store_size) ltac:(store_size)
                ltac:(apply eventsIn_app, Hev)) as Hy.
  revert Hy. rewrite (readEvent_app_l h _ events Hev). read_store. exact (fun Hy => Hy).
Qed.

(** The increment of the day loop writes the cell of [currentDate]. *)
Lemma run_dateSetNextUTCDate_bind {B : Type} (h : heap) (c : Z) (k : heap)
    (K : unit -> M B) :
  run (dateSetNextUTCDate (length h) ≫= K) (h ++ c :: k)
  = run (K tt) (h ++ nextUTCDate c :: k).
Proof.
  rewrite run_bind. unfold dateSetNextUTCDate. rewrite run_getTime_bind, readDate_new.
  unfold setTime. cbn [run]. rewrite insert_new. reflexivity.
Qed.

(** The slots of one day keep their starts when the loop moves [currentDate]
    on and the store grows. *)
Lemma map_readSlot_past_day (h k k1 k2 : heap) (c c' : Z) (objs : list SlotObj) :
  Forall (fun obj =>
    (length (h ++ c :: k) <= slotStart obj < length ((h ++ c :: k) ++ k1))%nat) objs ->
  map (readSlot (h ++ c' :: (k ++ k1) ++ k2)) objs
  = map (readSlot ((h ++ c :: k) ++ k1)) objs.
Proof.
  intros Hall. apply map_ext_in. intros obj Hin.
  rewrite Forall_forall in Hall. specialize (Hall _ Hin).
  unfold readSlot. f_equal.
  rewrite (readDate_other_cell h ((k ++ k1) ++ k2) c c')
    by (rewrite length_app in Hall; simpl in Hall; lia).
  replace (h ++ c :: (k ++ k1) ++ k2) with (((h ++ c :: k) ++ k1) ++ k2)
    by (rewrite <- !app_assoc; reflexivity).
  apply readDate_app_l. lia.
Qed.

Lemma single_dayLoop_store (availability : CalendarAvailability)
    (events : list EventObj) (startRange endRange : loc) (h : heap) :
  (startRange < length h)%nat -> (endRange < length h)%nat -> eventsIn h events ->
  forall (fuel : nat) (c : Z) (k : heap),
    exists c' k' objs,
      run (StoreSingle.dayLoop fuel availability events startRange endRange (length h))
        (h ++ c :: k)
      = (h ++ c' :: k ++ k', Ok objs)
      /\ map (readSlot (h ++ c' :: k ++ k')) objs
         = Single.dayLoop fuel availability (map (readEvent h) events)
             (readDate h startRange) (readDate h endRange) c
      /\ Forall (fun obj =>
           (length (h ++ c :: k) <= slotStart obj < length (h ++ c' :: k ++ k'))%nat) objs
      /\ NoDup (map slotStart objs).
Proof.
  intros Hs He Hev. induction fuel as [|fuel IH]; intros c k.
  - exists c, [], []. rewrite app_nil_r. repeat split; constructor.
  - cbn [StoreSingle.dayLoop Single.dayLoop]. run_all.
    destruct (c <=? readDate h endRange).
    2:{ exists c, [], []. rewrite run_ret, app_nil_r. repeat split; constructor. }
    destruct (single_daySlots_store availability events startRange endRange (length h)
                (h ++ c :: k) ltac:(store_size) ltac:(store_size) ltac:(store_size)
                ltac:(apply eventsIn_app, Hev)) as (k1 & o1 & E1 & V1 & F1 & N1).
    revert V1. rewrite (readEvent_app_l h _ events Hev). read_store. intros V1.
    rewrite run_bind, E1. cbv beta iota.
    rewrite <- app_assoc. cbn [app]. rewrite run_dateSetNextUTCDate_bind.
    destruct (IH (nextUTCDate c) (k ++ k1)) as (c' & k2 & o2 & E2 & V2 & F2 & N2).
    rewrite run_bind, E2. cbv beta iota. rewrite run_ret.
    exists c', (k1 ++ k2), (o1 ++ o2).
    rewrite (app_assoc k k1 k2). split; [reflexivity|]. split; [|split].
    + rewrite map_app, V2. f_equal. rewrite <- V1. apply map_readSlot_past_day, F1.
    + apply Forall_app. split.
      * eapply Forall_impl; [|exact F1]. simpl. intros obj Hb.
        rewrite !length_app in *. simpl in *. rewrite !length_app in *. lia.
      * eapply Forall_impl; [|exact F2]. simpl. intros obj Hb.
        rewrite !length_app in *. simpl in *. rewrite !length_app in *. lia.
    + apply (NoDup_starts_app o1 o2 (length ((h ++ c :: k) ++ k1)) N1 N2).
      * eapply Forall_impl; [|exact F1]. simpl. intros obj Hb. lia.
      * eapply Forall_impl; [|exact F2]. simpl. intros obj Hb.
        rewrite !length_app in *. simpl in *. rewrite !length_app in *. lia.
Qed.

(** [listAvailable30MinuteSlots] over the store: the store it leaves extends
    the store it was given, the slots it returns are those of the pure
    operation, and their [Date]s are new objects. *)
Lemma single_listAvailable30MinuteSlots_store (availability : CalendarAvailability)
    (events : list EventObj) (startRange endRange : loc) (h : heap) :
  (startRange < length h)%nat -> (endRange < length h)%nat -> eventsIn h events ->
  exists h' objs,
    run (StoreSingle.listAvailable30MinuteSlots availability events (startRange, endRange)) h
    = (h', Ok objs)
    /\ h `prefix_of` h'
    /\ map (readSlot h') objs
       = Single.listAvailable30MinuteSlots availability (map (readEvent h) events)
           (readDate h startRange, readDate h endRange)
    /\ Forall (fun obj => (length h <= slotStart obj < length h')%nat) objs
    /\ NoDup (map slotStart objs).
Proof.
  intros Hs He Hev.
  unfold StoreSingle.listAvailable30MinuteSlots, Single.listAvailable30MinuteSlots.
  run_all.
  destruct (single_dayLoop_store availability events startRange endRange h Hs He Hev
              (dayFuel (readDate h startRange) (readDate h endRange))
              (readDate h startRange) []) as (c' & k' & objs & E & V & F & N).
  exists (h ++ c' :: [] ++ k'), objs. split; [exact E|]. split; [|split; [|split]].
  - eexists. reflexivity.
  - exact V.
  - eapply Forall_impl; [|exact F]. simpl. intros obj Hb.
    rewrite !length_app in *. simpl in *. lia.
  - exact N.
Qed.

Lemma attendeesIn_app (h k : heap) (attendees : list AttendeeObj) :
  attendeesIn h attendees -> attendeesIn (h ++ k) attendees.
Proof. unfold attendeesIn. apply Forall_impl. intros a. apply eventsIn_app. Qed.

Lemma readAttendee_app_l (h k : heap) (attendees : list AttendeeObj) :
  attendeesIn h attendees ->
  map (readAttendee (h ++ k)) attendees = map (readAttendee h) attendees.
Proof.
  intros Hin. apply map_ext_in. intros a Ha.
  unfold attendeesIn in Hin. rewrite Forall_forall in Hin.
  unfold readAttendee. rewrite readEvent_app_l by (apply Hin, Ha). reflexivity.
Qed.

Lemma multi_isAvailableForAll_store (attendees : list AttendeeObj) (cs ce : loc)
    (h : heap) :
  (cs < length h)%nat -> (ce < length h)%nat -> attendeesIn h attendees ->
  extends (StoreMulti.isAvailableForAll attendees cs ce) h
    (Ok (Multi.isAvailableForAll (map (readAttendee h) attendees)
           (readDate h cs) (readDate h ce))).
Proof.
  intros Hs He Hin. unfold StoreMulti.isAvailableForAll, Multi.isAvailableForAll.
  rewrite forallb_map_compose.
  apply extends_everyM. intros attendee k Ha.
  unfold attendeesIn in Hin. rewrite Forall_forall in Hin. specialize (Hin _ Ha).
  cbn [Multi.events readAttendee]. rewrite forallb_map_compose.
  apply extends_everyM. intros event k' Hev.
  unfold eventsIn in Hin. rewrite Forall_forall in Hin. destruct (Hin _ Hev) as [H1 H2].
  unfold extends. cbv zeta. cbn [CalendarEvent.start CalendarEvent.end_ readEvent].
  change (bufferBefore (readEvent h event)) with (objBufferBefore event).
  change (bufferAfter (readEvent h event)) with (objBufferAfter event).
  run_cases; run_end.
Qed.

Lemma multi_slotWalk_store (attendees : list AttendeeObj) (fuel : nat) :
  forall (h : heap) (endRange rangeEndTime cur : loc),
    (endRange < length h)%nat -> (rangeEndTime < length h)%nat -> (cur < length h)%nat ->
    attendeesIn h attendees ->
    yields (StoreMulti.slotWalk fuel attendees endRange rangeEndTime cur) h
      (Multi.slotWalk fuel (map (readAttendee h) attendees) (readDate h endRange)
         (readDate h rangeEndTime) (readDate h cur)).
Proof.
  induction fuel as [|fuel IH]; intros h endRange rangeEndTime cur He Hr Hc Hin.
  - apply yields_nil.
  - cbn [StoreMulti.slotWalk Multi.slotWalk].
    destruct (readDate h cur <? readDate h rangeEndTime) eqn:Hpair.
    2:{ exists [], []. run_all. rewrite Hpair. cbv beta iota. run_all.
        rewrite app_nil_r. repeat split; constructor. }
    destruct (readDate h cur <? readDate h endRange) eqn:Hrange.
    2:{ exists [], []. run_all. rewrite Hpair. cbv beta iota. run_all.
        rewrite Hrange. cbv beta iota. run_all.
        rewrite app_nil_r. repeat split; constructor. }
    cbn [andb]. set (slotEnd := readDate h cur + 30 * 60 * 1000).
    unfold yields. run_all. rewrite Hpair. cbv beta iota. run_all.
    rewrite Hrange. cbv beta iota. run_all. fold slotEnd.
    run_call_as (multi_isAvailableForAll_store attendees cur (length h) (h ++ [slotEnd])
                   ltac:(store_size) ltac:(store_size)
                   ltac:(apply attendeesIn_app, Hin)) k1.
    rewrite readAttendee_app_l by exact Hin.
    rewrite <- app_assoc. apply yields_weaken. apply yields_app.
    + destruct (Multi.isAvailableForAll _ _ _).
      * apply yields_one; [store_size|]. read_store. reflexivity.
      * apply yields_nil.
    + intros k.
      pose proof (IH ((h ++ [slotEnd] ++ k1) ++ k) endRange rangeEndTime
                    (length h) ltac:(store_size) ltac:(store_size) ltac:(store_size)
                    ltac:(repeat apply attendeesIn_app; exact Hin)) as Hy.
      revert Hy. rewrite <- !app_assoc. cbn [app]. read_store.
      rewrite (readAttendee_app_l h _ attendees Hin). exact (fun Hy => Hy).
Qed.

Lemma yields_withFuel (fuel : heap -> nat) (loop : nat -> M (list SlotObj)) (h : heap)
    (slots : list CalendarSlot.t) :
  yields (loop (fuel h)) h slots -> yields (withFuel fuel loop) h slots.
Proof. unfold yields. rewrite run_withFuel. exact (fun H => H). Qed.

Lemma multi_pairLoop_store (attendees : list AttendeeObj) (endRange cur : loc) :
  forall (commonRange : list TimeOfDay) (h : heap),
    (endRange < length h)%nat -> (cur < length h)%nat -> attendeesIn h attendees ->
    yields (StoreMulti.pairLoop attendees endRange cur commonRange) h
      (Multi.pairLoop (map (readAttendee h) attendees) (readDate h endRange)
         (readDate h cur) commonRange).
Proof.
  fix IH 1. intros [|rangeStart [|rangeEnd rest]] h He Hc Hin;
    try apply yields_nil.
  cbn [StoreMulti.pairLoop Multi.pairLoop]. cbv zeta.
  set (first := dateUTC (readDate h cur) (hours rangeStart) (minutes rangeStart)).
  set (last := dateUTC (readDate h cur) (hours rangeEnd) (minutes rangeEnd)).
  unfold yields. run_all. fold first. fold last.
  rewrite <- app_assoc. apply yields_weaken. apply yields_app.
  - apply yields_withFuel. read_store.
    pose proof (multi_slotWalk_store attendees
                  (Multi.walkFuel (readDate h endRange) last first)
                  (h ++ [first] ++ [last]) endRange (length (h ++ [first])) (length h)
                  ltac:(store_size) ltac:(store_size) ltac:(store_size)
                  ltac:(apply attendeesIn_app, Hin)) as Hy.
    revert Hy. rewrite (readAttendee_app_l h _ attendees Hin). read_store.
    exact (fun Hy => Hy).
  - intros k.
    pose proof (IH rest ((h ++ [first] ++ [last]) ++ k) ltac:(store_size)
                  ltac:(store_size) ltac:(repeat apply attendeesIn_app; exact Hin)) as Hy.
    revert Hy. rewrite <- !app_assoc. cbn [app]. read_store.
    rewrite (readAttendee_app_l h _ attendees Hin). exact (fun Hy => Hy).
Qed.

Lemma commonAvailableRanges_store (h : heap) (attendees : list AttendeeObj)
    (day : Weekday) :
  StoreMulti.commonAvailableRanges attendees day
  = Multi.commonAvailableRanges (map (readAttendee h) attendees) day.
Proof.
  unfold StoreMulti.commonAvailableRanges, Multi.commonAvailableRanges.
  induction attendees as [|a rest IH]; [reflexivity|].
  cbn [map]. cbn [omap list_omap]. cbn [omap list_omap] in IH.
  rewrite IH. reflexivity.
Qed.

Lemma run_liftR_bind {A B : Type} (r : result A) (K : A -> M B) (h : heap) :
  run (liftR r ≫= K) h
  = match r with
    | Ok a => run (K a) h
    | Throw e => (h, Throw e)
    end.
Proof. rewrite run_bind. destruct r; reflexivity. Qed.

Lemma multi_daySlots_store (attendees : list AttendeeObj) (endRange cur : loc)
    (h : heap) :
  (endRange < length h)%nat -> (cur < length h)%nat -> attendeesIn h attendees ->
  yieldsR (StoreMulti.daySlots attendees endRange cur) h
    (Multi.daySlots (map (readAttendee h) attendees) (readDate h endRange)
       (readDate h cur)).
Proof.
  intros He Hc Hin. unfold StoreMulti.daySlots, Multi.daySlots. cbv zeta.
  rewrite <- (commonAvailableRanges_store h), length_map.
  assert (Hstep : forall K : Z -> M (list SlotObj),
    run (dateGetUTCDay cur ≫= K) h = run (K (getUTCDay (readDate h cur))) h)
    by reflexivity.
  destruct (negb _) eqn:Hlen.
  - cbn [yieldsR]. unfold yields. rewrite Hstep, Hlen. apply yields_nil.
  - destruct (Multi.reduce Multi.intersectRanges _) as [commonRange|e] eqn:Hred;
      rewrite ?result_bind_Ok, ?result_bind_Throw; cbn [yieldsR].
    + unfold yields. rewrite Hstep, Hlen, run_liftR_bind, Hred.
      apply multi_pairLoop_store; assumption.
    + unfold extends. rewrite Hstep, Hlen, run_liftR_bind, Hred. run_end.
Qed.

Lemma multi_dayLoop_store (attendees : list AttendeeObj) (endRange : loc) (h : heap) :
  (endRange < length h)%nat -> attendeesIn h attendees ->
  forall (fuel : nat) (c : Z) (k : heap),
    exists c' k' r,
      run (StoreMulti.dayLoop fuel attendees endRange (length h)) (h ++ c :: k)
      = (h ++ c' :: k ++ k', r)
      /\ match Multi.dayLoop fuel (map (readAttendee h) attendees)
                 (readDate h endRange) c with
         | Ok slots =>
             exists objs,
               r = Ok objs
               /\ map (readSlot (h ++ c' :: k ++ k')) objs = slots
               /\ Forall (fun obj =>
                    (length (h ++ c :: k) <= slotStart obj
                     < length (h ++ c' :: k ++ k'))%nat) objs
               /\ NoDup (map slotStart objs)
         | Throw e => r = Throw e
         end.
Proof.
  intros He Hin. induction fuel as [|fuel IH]; intros c k.
  - exists c, [], (Ok []). rewrite app_nil_r. split; [reflexivity|].
    exists []. repeat split; constructor.
  - cbn [StoreMulti.dayLoop Multi.dayLoop]. run_all.
    destruct (c <=? readDate h endRange).
    2:{ exists c, [], (Ok []). rewrite run_ret, app_nil_r. split; [reflexivity|].
        exists []. repeat split; constructor. }
    pose proof (multi_daySlots_store attendees endRange (length h) (h ++ c :: k)
                  ltac:(store_size) ltac:(store_size)
                  ltac:(apply attendeesIn_app, Hin)) as Hday.
    revert Hday. rewrite (readAttendee_app_l h _ attendees Hin). read_store. intros Hday.
    destruct (Multi.daySlots _ _ c) as [today|e];
      rewrite ?result_bind_Ok, ?result_bind_Throw; cbn [yieldsR] in Hday.
    2:{ destruct Hday as [k1 E1]. rewrite run_bind, E1. cbv beta iota.
        exists c, k1, (Throw e). rewrite <- app_assoc. split; reflexivity. }
    destruct Hday as (k1 & o1 & E1 & V1 & F1 & N1).
    rewrite run_bind, E1. cbv beta iota.
    rewrite <- app_assoc. cbn [app]. rewrite run_dateSetNextUTCDate_bind.
    destruct (IH (nextUTCDate c) (k ++ k1)) as (c' & k2 & r2 & E2 & P2).
    rewrite run_bind, E2. cbv beta iota.
    exists c', (k1 ++ k2). rewrite (app_assoc k k1 k2).
    destruct (Multi.dayLoop fuel _ _ (nextUTCDate c)) as [later|e];
      rewrite ?result_bind_Ok, ?result_bind_Throw.
    + destruct P2 as (o2 & -> & V2 & F2 & N2). rewrite run_ret.
      exists (Ok (o1 ++ o2)). split; [reflexivity|].
      exists (o1 ++ o2). split; [reflexivity|]. split; [|split].
      * rewrite map_app, V2. f_equal. rewrite <- V1. apply map_readSlot_past_day, F1.
      * apply Forall_app. split.
        -- eapply Forall_impl; [|exact F1]. simpl. intros obj Hb.
           rewrite !length_app in *. simpl in *. rewrite !length_app in *. lia.
        -- eapply Forall_impl; [|exact F2]. simpl. intros obj Hb.
           rewrite !length_app in *. simpl in *. rewrite !length_app in *. lia.
      * apply (NoDup_starts_app o1 o2 (length ((h ++ c :: k) ++ k1)) N1 N2).
        -- eapply Forall_impl; [|exact F1]. simpl. intros obj Hb. lia.
        -- eapply Forall_impl; [|exact F2]. simpl. intros obj Hb.
           rewrite !length_app in *. simpl in *. rewrite !length_app in *. lia.
    + rewrite P2. exists (Throw e). split; reflexivity.
Qed.

(** [listAvailable30MinuteSlotsMultiplePerson] over the store: the store it
    leaves extends the store it was given; it throws when the pure operation
    throws, and otherwise returns the slots of the pure operation, with new
    [Date] objects. *)
Lemma multi_listAvailable30MinuteSlotsMultiplePerson_store
    (attendees : list AttendeeObj) (startRange endRange : loc) (h : heap) :
  (startRange < length h)%nat -> (endRange < length h)%nat -> attendeesIn h attendees ->
  exists h' r,
    run (StoreMulti.listAvailable30MinuteSlotsMultiplePerson attendees
           (startRange, endRange)) h = (h', r)
    /\ h `prefix_of` h'
    /\ match Multi.listAvailable30MinuteSlotsMultiplePerson
               (map (readAttendee h) attendees)
               (readDate h startRange, readDate h endRange) with
       | Ok slots =>
           exists objs,
             r = Ok objs
             /\ map (readSlot h') objs = slots
             /\ Forall (fun obj => (length h <= slotStart obj < length h')%nat) objs
             /\ NoDup (map slotStart objs)
       | Throw e => r = Throw e
       end.
Proof.
  intros Hs He Hin.
  unfold StoreMulti.listAvailable30MinuteSlotsMultiplePerson,
    Multi.listAvailable30MinuteSlotsMultiplePerson.
  run_all.
  destruct (multi_dayLoop_store attendees endRange h He Hin
              (dayFuel (readDate h startRange) (readDate h endRange))
              (readDate h startRange) []) as (c' & k' & r & E & P).
  exists (h ++ c' :: [] ++ k'), r. split; [exact E|]. split; [eexists; reflexivity|].
  destruct (Multi.dayLoop _ _ _ _) as [slots|e]; [|exact P].
  destruct P as (objs & -> & V & F & N). exists objs. split; [reflexivity|].
  split; [exact V|]. split; [|exact N].
  eapply Forall_impl; [|exact F]. simpl. intros obj Hb.
  rewrite !length_app in *. simpl in *. lia.
Qed.

Lemma prefix_unchanged (h h' : heap) : h `prefix_of` h' -> unchanged h h'.
Proof. intros [k ->] d Hd. apply lookup_app_l, Hd. Qed.

Lemma extends_unchanged {A : Type} (m : M A) (h : heap) (r : result A) :
  extends m h r -> exists h', run m h = (h', r) /\ unchanged h h'.
Proof.
  intros [k E]. exists (h ++ k). split; [exact E|].
  apply prefix_unchanged. exists k. reflexivity.
Qed.

(** C9: no operation mutates its inputs.  Run from a store [h] that holds the
    [Date]s of the slot, of the date range and of the events, each of the five
    exported operations ends in a store in which every [Date] of [h] holds
    the time value it held; it returns (or throws) what the operation computes
    from the time values of [h]; and the [start] of each slot that the two
    enumerators return is a [Date] that did not exist in [h], different from
    the [start] of every other returned slot. *)
Theorem C9_inputs_unchanged_results_new (h : heap) (tz : TimeZone)
    (availability : CalendarAvailability) (events : list EventObj)
    (attendees : list AttendeeObj) (slot : SlotObj) (startRange endRange : loc) :
  (slotStart slot < length h)%nat ->
  (startRange < length h)%nat ->
  (endRange < length h)%nat ->
  eventsIn h events ->
  attendeesIn h attendees ->
  (exists h',
     run (StoreIsSlotAvailable.isSlotAvailable tz availability slot) h
     = (h', IsSlotAvailable.isSlotAvailable tz availability (readSlot h slot))
     /\ unchanged h h')
  /\ (exists h',
        run (StoreWithEvents.isSlotAvailableWithEvents availability events slot) h
        = (h', WithEvents.isSlotAvailableWithEvents availability
                 (map (readEvent h) events) (readSlot h slot))
        /\ unchanged h h')
  /\ (exists h',
        run (StoreWithBuffer.isSlotAvailableWithBuffer tz availability events slot) h
        = (h', Ok (WithBuffer.isSlotAvailableWithBuffer tz availability
                     (map (readEvent h) events) (readSlot h slot)))
        /\ unchanged h h')
  /\ (exists h' objs,
        run (StoreSingle.listAvailable30MinuteSlots availability events
               (startRange, endRange)) h = (h', Ok objs)
        /\ unchanged h h'
        /\ map (readSlot h') objs
           = Single.listAvailable30MinuteSlots availability (map (readEvent h) events)
               (readDate h startRange, readDate h endRange)
        /\ Forall (fun obj => (length h <= slotStart obj < length h')%nat) objs
        /\ NoDup (map slotStart objs))
  /\ (exists h' r,
        run (StoreMulti.listAvailable30MinuteSlotsMultiplePerson attendees
               (startRange, endRange)) h = (h', r)
        /\ unchanged h h'
        /\ match Multi.listAvailable30MinuteSlotsMultiplePerson
                   (map (readAttendee h) attendees)
                   (readDate h startRange, readDate h endRange) with
           | Ok slots =>
               exists objs,
                 r = Ok objs
                 /\ map (readSlot h') objs = slots
                 /\ Forall (fun obj => (length h <= slotStart obj < length h')%nat) objs
                 /\ NoDup (map slotStart objs)
           | Throw e => r = Throw e
           end).
Proof.
  intros Hslot Hs He Hev Hatt. repeat apply conj.
  - apply extends_unchanged, is_slot_available_store, Hslot.
  - apply extends_unchanged, with_events_isSlotAvailableWithEvents; assumption.
  - apply extends_unchanged, with_buffer_isSlotAvailableWithBuffer; assumption.
  - destruct (single_listAvailable30MinuteSlots_store availability events
                startRange endRange h Hs He Hev) as (h' & objs & E & P & V & F & N).
    exists h', objs. auto using prefix_unchanged.
  - destruct (multi_listAvailable30MinuteSlotsMultiplePerson_store attendees
                startRange endRange h Hs He Hatt) as (h' & r & E & P & R).
    exists h', r. auto using prefix_unchanged.
Qed.

End StoreFacts.

Lemma C9_inputs_unchanged_results_new_witness :
  let h := sundayStore in
  let events := [Store.mkEventObj 2 3 None] in
  let attendees := [Store.mkAttendeeObj sundayMorning events] in
  let slot := Store.mkSlotObj 0 30 in
  (exists h',
     Store.run (StoreIsSlotAvailable.isSlotAvailable utcZone sundayMorning slot) h
     = (h', IsSlotAvailable.isSlotAvailable utcZone sundayMorning (Store.readSlot h slot))
     /\ StoreSpec.unchanged h h')
  /\ (exists h',
        Store.run (StoreWithEvents.isSlotAvailableWithEvents sundayMorning events slot) h
        = (h', WithEvents.isSlotAvailableWithEvents sundayMorning
                 (map (Store.readEvent h) events) (Store.readSlot h slot))
        /\ StoreSpec.unchanged h h')
  /\ (exists h',
        Store.run (StoreWithBuffer.isSlotAvailableWithBuffer utcZone sundayMorning
                     events slot) h
        = (h', Ok (WithBuffer.isSlotAvailableWithBuffer utcZone sundayMorning
                     (map (Store.readEvent h) events) (Store.readSlot h slot)))
        /\ StoreSpec.unchanged h h')
  /\ (exists h' objs,
        Store.run (StoreSingle.listAvailable30MinuteSlots sundayMorning events
                     (0%nat, 1%nat)) h = (h', Ok objs)
        /\ StoreSpec.unchanged h h'
        /\ map (Store.readSlot h') objs
           = Single.listAvailable30MinuteSlots sundayMorning
               (map (Store.readEvent h) events)
               (Store.readDate h 0%nat, Store.readDate h 1%nat)
        /\ Forall (fun obj =>
             (length h <= Store.slotStart obj < length h')%nat) objs
        /\ NoDup (map Store.slotStart objs))
  /\ (exists h' r,
        Store.run (StoreMulti.listAvailable30MinuteSlotsMultiplePerson attendees
                     (0%nat, 1%nat)) h = (h', r)
        /\ StoreSpec.unchanged h h'
        /\ match Multi.listAvailable30MinuteSlotsMultiplePerson
                   (map (Store.readAttendee h) attendees)
                   (Store.readDate h 0%nat, Store.readDate h 1%nat) with
           | Ok slots =>
               exists objs,
                 r = Ok objs
                 /\ map (Store.readSlot h') objs = slots
                 /\ Forall (fun obj =>
                      (length h <= Store.slotStart obj < length h')%nat) objs
                 /\ NoDup (map Store.slotStart objs)
           | Throw e => r = Throw e
           end).
Proof.
  intros h events attendees slot.
  apply (StoreFacts.C9_inputs_unchanged_results_new h utcZone sundayMorning events
           attendees slot 0%nat 1%nat).
  - simpl. lia.
  - simpl. lia.
  - simpl. lia.
  - repeat constructor; simpl; lia.
  - repeat constructor; simpl; lia.
Defined.

(** On that store the enumerator returns one slot, 09:30, whose [Date] is the
    object created at address 13; the cells 0 to 3 are as they were. *)
Example store_run_sunday :
  Store.run (StoreSingle.listAvailable30MinuteSlots sundayMorning
               [Store.mkEventObj 2 3 None] (0%nat, 1%nat)) sundayStore
  = (sundayStore
       ++ [sunday 33 0; sunday 9 0; sunday 39 0; sunday 9 30; sunday 9 0; sunday 9 15;
           sunday 10 0; sunday 9 0; sunday 9 15; sunday 9 30; sunday 10 30;
           sunday 10 0; sunday 40 0; sunday 10 30],
     Ok [Store.mkSlotObj 13 30]).
Proof. vm_compute. reflexivity. Qed.

(** * Further properties of the operations *)

(** ** The validators *)

Lemma local_end_time (tz : TimeZone) (start durationM : Z) :
  IsSlotAvailable.calculateSlotEndTime tz start durationM
  = start + durationM * 60000
    + (tz start true - tz (start + tz start true + durationM * 60000) false).
Proof.
  unfold IsSlotAvailable.calculateSlotEndTime, setMinutes, getMinutes, UTC, LocalTime.
  cbv zeta. set (M := MinFromTime (start + tz start true)). unfold msPerMinute.
  replace (start + tz start true - M * 60000 + (M + durationM) * 60000)
    with (start + tz start true + durationM * 60000) by lia.
  lia.
Qed.

Lemma local_end_time_fixed (offset start durationM : Z) :
  IsSlotAvailable.calculateSlotEndTime (fixedZone offset) start durationM
  = start + durationM * 60000.
Proof. rewrite local_end_time. unfold fixedZone. lia. Qed.

(** X1: the end of a slot as [isSlotAvailable] computes it, with
    [setMinutes(getMinutes() + durationM)] on local time fields, is the start
    plus the duration, corrected by the difference of the zone offsets at the
    two ends; in a zone with a fixed offset it is the
    [start + durationM * 60000] of the two other validators. *)
Theorem X1_setMinutes_end_time (tz : TimeZone) (start durationM : Z) :
  IsSlotAvailable.calculateSlotEndTime tz start durationM
  = start + durationM * 60000
    + (tz start true - tz (start + tz start true + durationM * 60000) false)
  /\ forall offset,
       IsSlotAvailable.calculateSlotEndTime (fixedZone offset) start durationM
       = WithEvents.calculateSlotEndTime start durationM.
Proof.
  split; [apply local_end_time|].
  intros offset. apply local_end_time_fixed.
Qed.

(** X2: with no event, and in a zone with a fixed offset,
    [isSlotAvailableWithEvents] gives the verdict of [isSlotAvailable], and
    throws when it throws. *)
Theorem X2_isSlotAvailable_is_no_event_case (offset : Z)
    (availability : CalendarAvailability) (slot : CalendarSlot.t) :
  WithEvents.isSlotAvailableWithEvents availability [] slot
  = IsSlotAvailable.isSlotAvailable (fixedZone offset) availability slot.
Proof.
  unfold WithEvents.isSlotAvailableWithEvents, WithEvents.isSlotWithinAvailability,
    IsSlotAvailable.isSlotAvailable, IsSlotAvailable.findAvailabilityForWeekday,
    IsSlotAvailable.getSlotWeekday, IsSlotAvailable.getAvailabilityTimeRange,
    IsSlotAvailable.isSlotWithinAvailableRange.
  cbv zeta.
  destruct (find _ (include availability)) as [entry|]; [|reflexivity].
  destruct (range entry) as [|first [|second others]]; try reflexivity.
  cbn [mbind result_bind bindR].
  rewrite local_end_time_fixed. unfold WithEvents.calculateSlotEndTime.
  destruct (andb _ _); reflexivity.
Qed.

Lemma with_events_accepts_iff (availability : CalendarAvailability)
    (events : list CalendarEvent.t) (slot : CalendarSlot.t) :
  WithEvents.isSlotAvailableWithEvents availability events slot = Ok true
  <-> withinFirstPair availability slot
      /\ forall event, In event events ->
           CalendarSlot.start slot + CalendarSlot.durationM slot * 60000
             <= CalendarEvent.start event
           \/ CalendarEvent.end_ event <= CalendarSlot.start slot.
Proof.
  unfold WithEvents.isSlotAvailableWithEvents, WithEvents.isSlotWithinAvailability,
    WithEvents.calculateSlotEndTime, withinFirstPair.
  cbv zeta.
  set (s := CalendarSlot.start slot).
  set (e := s + CalendarSlot.durationM slot * 60000).
  assert (Hconf : WithEvents.isSlotConflictedWithEvents s e events = false
                  <-> forall event, In event events ->
                        e <= CalendarEvent.start event \/ CalendarEvent.end_ event <= s).
  { unfold WithEvents.isSlotConflictedWithEvents. split.
    - intros Hno event Hin.
      destruct (Z.le_gt_cases e (CalendarEvent.start event)) as [|Hgt]; [auto|].
      destruct (Z.le_gt_cases (CalendarEvent.end_ event) s) as [|Hlt]; [auto|].
      exfalso. apply not_true_iff_false in Hno. apply Hno.
      apply existsb_exists. exists event. split; [exact Hin|].
      bool_to_Z. lia.
    - intros Hfree. apply not_true_iff_false. intros Hex.
      apply existsb_exists in Hex as (event & Hin & Ht). bool_to_Z_in Ht.
      specialize (Hfree _ Hin). lia. }
  destruct (find _ (include availability)) as [entry|] eqn:Hfind.
  2:{ split; [discriminate|]. intros [(x & _ & _ & _ & Hx & _) _]. discriminate. }
  destruct (range entry) as [|first [|second others]] eqn:Hrange.
  1,2: split; [discriminate|];
       intros [(x & a & b & c & Hx & Hr & _) _]; injection Hx as <-; congruence.
  cbn [mbind result_bind bindR].
  destruct (andb _ _) eqn:Hin; cbn [negb].
  - bool_to_Z_in Hin.
    destruct (WithEvents.isSlotConflictedWithEvents s e events) eqn:Hc.
    + split; [discriminate|]. intros [_ Hfree]. apply Hconf in Hfree. congruence.
    + split; [|reflexivity]. intros _. split; [|apply Hconf; reflexivity].
      exists entry, first, second, others. tauto.
  - split; [discriminate|].
    intros [(x & a & b & c & Hx & Hr & Hlo & Hhi) _]. exfalso.
    injection Hx as <-. rewrite Hrange in Hr. injection Hr as <- <- <-.
    apply not_true_iff_false in Hin. apply Hin. bool_to_Z. lia.
Qed.


(** X4: a slot that a validator accepts is no longer than its window: the
    first pair of the entry for [isSlotAvailableWithEvents], 24 hours, in any
    time zone, for [isSlotAvailableWithBuffer]. *)
Theorem X4_accepted_slot_duration :
  (forall availability events slot,
     WithEvents.isSlotAvailableWithEvents availability events slot = Ok true ->
     exists entry first second others,
       find (fun day => weekday day =? getUTCDay (CalendarSlot.start slot))
         (include availability) = Some entry
       /\ range entry = first :: second :: others
       /\ CalendarSlot.durationM slot
          <= Multi.minutesOf second - Multi.minutesOf first)
  /\ (forall tz availability events slot,
        WithBuffer.isSlotAvailableWithBuffer tz availability events slot = true ->
        CalendarSlot.durationM slot <= 24 * 60).
Proof.
  split.
  - intros availability events slot Hok.
    apply with_events_accepts_iff in Hok as [(entry & a & b & c & Hf & Hr & Hlo & Hhi) _].
    exists entry, a, b, c. split; [exact Hf|]. split; [exact Hr|].
    unfold setUTCHours, MakeTime, Multi.minutesOf, msPerHour, msPerMinute in *. lia.
  - intros tz availability events slot.
    unfold WithBuffer.isSlotAvailableWithBuffer, WithBuffer.isSlotWithinAvailability,
      WithBuffer.calculateSlotEndTime.
    destruct (existsb _ (include availability)) eqn:Hav; [|discriminate].
    intros _. apply existsb_exists in Hav as (entry & _ & Ht).
    apply andb_true_iff in Ht as [_ Hr]. unfold WithBuffer.isSlotInRange in Hr.
    apply existsb_exists in Hr as (r & _ & Hr). bool_to_Z_in Hr. lia.
Qed.

Lemma X4_accepted_slot_duration_witness :
  (exists entry first second others,
     find (fun day => weekday day =? getUTCDay (CalendarSlot.start (CalendarSlot.mk (sunday 9 0) 30)))
       (include sundayMorning) = Some entry
     /\ range entry = first :: second :: others
     /\ CalendarSlot.durationM (CalendarSlot.mk (sunday 9 0) 30)
        <= Multi.minutesOf second - Multi.minutesOf first)
  /\ CalendarSlot.durationM (CalendarSlot.mk (sunday 9 0) 30) <= 24 * 60.
Proof.
  split.
  - apply (proj1 X4_accepted_slot_duration sundayMorning []).
    vm_compute. reflexivity.
  - apply (proj2 X4_accepted_slot_duration utcZone sundayMorning []).
    vm_compute. reflexivity.
Defined.

(** ** The overlap tests of the four operations *)

(** X5: for a slot that ends after it starts and events whose buffered
    interval is not empty, the three-way test of [listAvailable30MinuteSlots]
    and the half-open test of [isSlotAvailableWithBuffer] give the same
    verdict. *)
Theorem X5_three_way_test_is_half_open_test (events : list CalendarEvent.t) (s e : Z) :
  s < e ->
  Forall (fun event => bufferedStart event < bufferedEnd event) events ->
  Single.hasConflict events s e = WithBuffer.isSlotConflictedWithEvents s e events.
Proof.
  intros Hse Hev. apply eq_true_iff_eq. split.
  - apply three_way_conflict_is_half_open; assumption.
  - apply half_open_conflict_is_three_way.
Qed.

Lemma X5_three_way_test_is_half_open_test_witness :
  Single.hasConflict
    [CalendarEvent.mk (sunday 9 0) (sunday 9 30) (Some (mkBuffer (Some 10) None))]
    (sunday 8 30) (sunday 9 0)
  = WithBuffer.isSlotConflictedWithEvents (sunday 8 30) (sunday 9 0)
      [CalendarEvent.mk (sunday 9 0) (sunday 9 30) (Some (mkBuffer (Some 10) None))].
Proof.
  apply X5_three_way_test_is_half_open_test.
  - vm_compute. reflexivity.
  - constructor; [vm_compute; reflexivity|constructor].
Defined.


Lemma unbuffered_same_conflicts (events : list CalendarEvent.t) (s e : Z) :
  Forall unbuffered events ->
  WithBuffer.isSlotConflictedWithEvents s e events
  = WithEvents.isSlotConflictedWithEvents s e events.
Proof.
  intros Hall.
  unfold WithBuffer.isSlotConflictedWithEvents, WithEvents.isSlotConflictedWithEvents,
    WithBuffer.calculateEventStartWithBuffer, WithBuffer.calculateEventEndWithBuffer.
  induction Hall as [|event rest [Hb Ha] _ IH]; [reflexivity|].
  simpl. rewrite IH, Hb, Ha.
  replace (CalendarEvent.start event - 0 * 60 * 1000) with (CalendarEvent.start event) by lia.
  replace (CalendarEvent.end_ event + 0 * 60 * 1000) with (CalendarEvent.end_ event) by lia.
  reflexivity.
Qed.

(** X7: on events without buffers the conflict test of
    [isSlotAvailableWithBuffer] is that of [isSlotAvailableWithEvents]. *)
Theorem X7_unbuffered_events_same_conflicts (events : list CalendarEvent.t) (s e : Z) :
  Forall unbuffered events ->
  WithBuffer.isSlotConflictedWithEvents s e events
  = WithEvents.isSlotConflictedWithEvents s e events.
Proof. apply unbuffered_same_conflicts. Qed.

Lemma X7_unbuffered_events_same_conflicts_witness :
  WithBuffer.isSlotConflictedWithEvents (sunday 9 0) (sunday 9 30)
    [CalendarEvent.mk (sunday 9 15) (sunday 9 45) None]
  = WithEvents.isSlotConflictedWithEvents (sunday 9 0) (sunday 9 30)
      [CalendarEvent.mk (sunday 9 15) (sunday 9 45) None].
Proof.
  apply X7_unbuffered_events_same_conflicts.
  constructor; [split; reflexivity|constructor].
Defined.

(** ** The walk of one entry in [listAvailable30MinuteSlots] *)

Lemma singleWalkCount_stop (endRange rangeEndTime cur : Z) :
  rangeEndTime <= cur \/ endRange < cur + 30 * 60 * 1000 ->
  singleWalkCount endRange rangeEndTime cur = O.
Proof.
  intros Hstop. unfold singleWalkCount.
  assert (Z.min ((rangeEndTime - cur + (30 * 60 * 1000 - 1)) / (30 * 60 * 1000))
                ((endRange - cur) / (30 * 60 * 1000)) <= 0); [|lia].
  destruct Hstop as [H|H].
  - assert ((rangeEndTime - cur + (30 * 60 * 1000 - 1)) / (30 * 60 * 1000) <= 0); [|lia].
    assert ((rangeEndTime - cur + (30 * 60 * 1000 - 1)) / (30 * 60 * 1000) < 1); [|lia].
    apply Z.div_lt_upper_bound; lia.
  - assert ((endRange - cur) / (30 * 60 * 1000) < 1); [|lia].
    apply Z.div_lt_upper_bound; lia.
Qed.

Lemma singleWalkCount_step (endRange rangeEndTime cur : Z) :
  cur < rangeEndTime -> cur + 30 * 60 * 1000 <= endRange ->
  singleWalkCount endRange rangeEndTime cur
  = S (singleWalkCount endRange rangeEndTime (cur + 30 * 60 * 1000)).
Proof.
  intros Hblock Hrange. unfold singleWalkCount.
  replace (rangeEndTime - (cur + 30 * 60 * 1000) + (30 * 60 * 1000 - 1))
    with (rangeEndTime - cur + (30 * 60 * 1000 - 1) + (-1) * (30 * 60 * 1000)) by lia.
  replace (endRange - (cur + 30 * 60 * 1000))
    with (endRange - cur + (-1) * (30 * 60 * 1000)) by lia.
  rewrite !Z.div_add by lia.
  assert (1 <= (rangeEndTime - cur + (30 * 60 * 1000 - 1)) / (30 * 60 * 1000))
    by (apply Z.div_le_lower_bound; lia).
  assert (1 <= (endRange - cur) / (30 * 60 * 1000))
    by (apply Z.div_le_lower_bound; lia).
  lia.
Qed.

(** From a start inside the date range the walk visits the grid of
    [singleWalkCount] sub-slots and keeps the ones without conflict. *)
Lemma single_slotWalk_grid (events : list CalendarEvent.t)
    (startRange endRange rangeEndTime : Z) (fuel : nat) :
  forall cur : Z,
    startRange <= cur ->
    (singleWalkCount endRange rangeEndTime cur <= fuel)%nat ->
    Single.slotWalk fuel events startRange endRange rangeEndTime cur
    = map (fun start => CalendarSlot.mk start 30)
        (List.filter (fun start =>
                        negb (Single.hasConflict events start (start + 30 * 60 * 1000)))
           (grid (singleWalkCount endRange rangeEndTime cur) cur)).
Proof.
  induction fuel as [|fuel IH]; intros cur Hs Hfuel.
  - replace (singleWalkCount endRange rangeEndTime cur) with O by lia. reflexivity.
  - simpl.
    destruct (Z.ltb_spec cur rangeEndTime) as [Hblock|Hblock].
    2:{ rewrite singleWalkCount_stop by lia. reflexivity. }
    destruct (Z.ltb_spec cur startRange) as [|_]; [lia|]. simpl.
    destruct (Z.gtb_spec (cur + 30 * 60 * 1000) endRange) as [Hout|Hin].
    { rewrite singleWalkCount_stop by lia. reflexivity. }
    rewrite (singleWalkCount_step _ _ _ Hblock Hin) in *.
    rewrite IH by lia. simpl.
    destruct (Single.hasConflict events cur _); reflexivity.
Qed.

Lemma single_walkFuel_enough (endRange rangeEndTime cur : Z) :
  (singleWalkCount endRange rangeEndTime cur <= Single.walkFuel rangeEndTime cur)%nat.
Proof.
  unfold singleWalkCount, Single.walkFuel.
  assert ((rangeEndTime - cur + (30 * 60 * 1000 - 1)) / (30 * 60 * 1000)
          <= (rangeEndTime - cur) / (30 * 60 * 1000) + 1); [|lia].
  replace ((rangeEndTime - cur) / (30 * 60 * 1000) + 1)
    with ((rangeEndTime - cur + 1 * (30 * 60 * 1000)) / (30 * 60 * 1000))
    by (rewrite Z.div_add by lia; reflexivity).
  apply Z.div_le_mono; lia.
Qed.

Lemma block_walk_count (endRange currentDate : Z) (entry : TimeOfDay) :
  singleWalkCount endRange (Single.blockEnd currentDate entry)
    (Single.blockStart currentDate entry)
  = Z.to_nat (Z.min 60 ((endRange - Single.blockStart currentDate entry)
                        / (30 * 60 * 1000))).
Proof.
  unfold singleWalkCount. rewrite blockEnd_is_30_hours. unfold msPerHour.
  replace (Single.blockStart currentDate entry + 30 * 3600000
           - Single.blockStart currentDate entry + (30 * 60 * 1000 - 1))
    with (1799999 + 60 * (30 * 60 * 1000)) by lia.
  rewrite Z.div_add by lia. reflexivity.
Qed.

Lemma rangeSlots_grid (events : list CalendarEvent.t)
    (startRange endRange currentDate : Z) (entry : TimeOfDay) :
  startRange <= Single.blockStart currentDate entry ->
  Single.rangeSlots events startRange endRange currentDate entry
  = map (fun start => CalendarSlot.mk start 30)
      (List.filter (fun start =>
                      negb (Single.hasConflict events start (start + 30 * 60 * 1000)))
         (grid (Z.to_nat (Z.min 60 ((endRange - Single.blockStart currentDate entry)
                                    / (30 * 60 * 1000))))
            (Single.blockStart currentDate entry))).
Proof.
  intros Hs. unfold Single.rangeSlots. cbv zeta.
  rewrite single_slotWalk_grid by (auto using single_walkFuel_enough).
  rewrite block_walk_count. reflexivity.
Qed.

Lemma rangeSlots_early (events : list CalendarEvent.t)
    (startRange endRange currentDate : Z) (entry : TimeOfDay) :
  Single.blockStart currentDate entry < startRange ->
  Single.rangeSlots events startRange endRange currentDate entry = [].
Proof.
  intros Hearly. unfold Single.rangeSlots. cbv zeta.
  assert (Hfuel : exists n, Single.walkFuel (Single.blockEnd currentDate entry)
                              (Single.blockStart currentDate entry) = S n).
  { unfold Single.walkFuel. rewrite blockEnd_is_30_hours. unfold msPerHour.
    replace (Single.blockStart currentDate entry + 30 * 3600000
             - Single.blockStart currentDate entry) with (60 * (30 * 60 * 1000)) by lia.
    rewrite Z.div_mul by lia. exists 60%nat. reflexivity. }
  destruct Hfuel as [n ->]. simpl.
  destruct (_ <? Single.blockEnd currentDate entry); [|reflexivity].
  destruct (Z.ltb_spec (Single.blockStart currentDate entry) startRange); [|lia].
  reflexivity.
Qed.





Lemma grid_length (n : nat) : forall cur, length (grid n cur) = n.
Proof. induction n as [|n IH]; intros cur; simpl; [reflexivity|]. rewrite IH. reflexivity. Qed.

Lemma filter_grid_ascending (keep : Z -> bool) (n : nat) :
  forall cur : Z,
    StronglySorted Z.lt (List.filter keep (grid n cur))
    /\ Forall (fun start => cur <= start) (List.filter keep (grid n cur)).
Proof.
  induction n as [|n IH]; intros cur; simpl; [split; constructor|].
  destruct (IH (cur + 30 * 60 * 1000)) as [Hsorted Hlow].
  assert (Hlow' : Forall (fun start => cur < start)
                    (List.filter keep (grid n (cur + 30 * 60 * 1000)))).
  { eapply Forall_impl; [|exact Hlow]. simpl. intros start Hstart. lia. }
  destruct (keep cur).
  - split.
    + constructor; assumption.
    + constructor; [lia|]. eapply Forall_impl; [|exact Hlow']. simpl. intros; lia.
  - split; [exact Hsorted|].
    eapply Forall_impl; [|exact Hlow']. simpl. intros; lia.
Qed.

(** X10: for every day and every entry, [listAvailable30MinuteSlots] pushes at
    most 60 slots, and pushes them in strictly ascending order of start. *)
Theorem X10_entry_slots_bounded_and_ascending (events : list CalendarEvent.t)
    (startRange endRange currentDate : Z) (entry : TimeOfDay) :
  (length (Single.rangeSlots events startRange endRange currentDate entry) <= 60)%nat
  /\ StronglySorted Z.lt
       (map CalendarSlot.start
          (Single.rangeSlots events startRange endRange currentDate entry)).
Proof.
  destruct (Z.le_gt_cases startRange (Single.blockStart currentDate entry)) as [Hin|Hout].
  - rewrite rangeSlots_grid by exact Hin.
    rewrite length_map, map_map. cbn [CalendarSlot.start]. rewrite map_id. split.
    + etransitivity; [apply filter_length_le|]. rewrite grid_length. lia.
    + apply filter_grid_ascending.
  - rewrite rangeSlots_early by exact Hout. split; [simpl; lia|constructor].
Qed.

(** ** The walk of one pair in [listAvailable30MinuteSlotsMultiplePerson] *)

Lemma multiWalkCount_stop (endRange rangeEndTime cur : Z) :
  rangeEndTime <= cur \/ endRange <= cur ->
  multiWalkCount endRange rangeEndTime cur = O.
Proof.
  intros Hstop. unfold multiWalkCount.
  assert ((Z.min rangeEndTime endRange - cur + (30 * 60 * 1000 - 1)) / (30 * 60 * 1000) < 1);
    [|lia].
  apply Z.div_lt_upper_bound; lia.
Qed.

Lemma multiWalkCount_step (endRange rangeEndTime cur : Z) :
  cur < rangeEndTime -> cur < endRange ->
  multiWalkCount endRange rangeEndTime cur
  = S (multiWalkCount endRange rangeEndTime (cur + 30 * 60 * 1000)).
Proof.
  intros Hpair Hrange. unfold multiWalkCount.
  replace (Z.min rangeEndTime endRange - (cur + 30 * 60 * 1000) + (30 * 60 * 1000 - 1))
    with (Z.min rangeEndTime endRange - cur + (30 * 60 * 1000 - 1)
          + (-1) * (30 * 60 * 1000)) by lia.
  rewrite Z.div_add by lia.
  assert (1 <= (Z.min rangeEndTime endRange - cur + (30 * 60 * 1000 - 1))
               / (30 * 60 * 1000))
    by (apply Z.div_le_lower_bound; lia).
  lia.
Qed.

Lemma multi_slotWalk_grid (attendees : list Multi.Attendee) (endRange rangeEndTime : Z)
    (fuel : nat) :
  forall cur : Z,
    (multiWalkCount endRange rangeEndTime cur <= fuel)%nat ->
    Multi.slotWalk fuel attendees endRange rangeEndTime cur
    = map (fun start => CalendarSlot.mk start 30)
        (List.filter (fun start =>
                        Multi.isAvailableForAll attendees start (start + 30 * 60 * 1000))
           (grid (multiWalkCount endRange rangeEndTime cur) cur)).
Proof.
  induction fuel as [|fuel IH]; intros cur Hfuel.
  - replace (multiWalkCount endRange rangeEndTime cur) with O by lia. reflexivity.
  - simpl.
    destruct (Z.ltb_spec cur rangeEndTime) as [Hpair|Hpair]; simpl.
    2:{ rewrite multiWalkCount_stop by lia. reflexivity. }
    destruct (Z.ltb_spec cur endRange) as [Hrange|Hrange].
    2:{ rewrite multiWalkCount_stop by lia. reflexivity. }
    rewrite (multiWalkCount_step _ _ _ Hpair Hrange) in *.
    rewrite IH by lia. simpl.
    destruct (Multi.isAvailableForAll attendees cur _); reflexivity.
Qed.

Lemma multi_walkFuel_enough (endRange rangeEndTime cur : Z) :
  (multiWalkCount endRange rangeEndTime cur
   <= Multi.walkFuel endRange rangeEndTime cur)%nat.
Proof.
  unfold multiWalkCount, Multi.walkFuel.
  assert ((Z.min rangeEndTime endRange - cur + (30 * 60 * 1000 - 1)) / (30 * 60 * 1000)
          <= (Z.min rangeEndTime endRange - cur) / (30 * 60 * 1000) + 1); [|lia].
  replace ((Z.min rangeEndTime endRange - cur) / (30 * 60 * 1000) + 1)
    with ((Z.min rangeEndTime endRange - cur + 1 * (30 * 60 * 1000)) / (30 * 60 * 1000))
    by (rewrite Z.div_add by lia; reflexivity).
  apply Z.div_le_mono; lia.
Qed.


(** ** One attendee *)

Lemma multi_one_attendee_day (attendee : Multi.Attendee) (endRange currentDate : Z) :
  Multi.daySlots [attendee] endRange currentDate
  = Ok match find (fun day => weekday day =? getUTCDay currentDate)
               (include (Multi.availability attendee)) with
       | Some entry => Multi.pairLoop [attendee] endRange currentDate (range entry)
       | None => []
       end.
Proof.
  unfold Multi.daySlots, Multi.commonAvailableRanges. cbv zeta.
  cbn [omap list_omap].
  destruct (find _ (include (Multi.availability attendee))) as [entry|]; reflexivity.
Qed.

Lemma multi_one_attendee_loop (attendee : Multi.Attendee) (endRange : Z) (fuel : nat) :
  forall cur, exists slots, Multi.dayLoop fuel [attendee] endRange cur = Ok slots.
Proof.
  induction fuel as [|fuel IH]; intros cur; simpl; [eexists; reflexivity|].
  destruct (cur <=? endRange); [|eexists; reflexivity].
  rewrite multi_one_attendee_day. destruct (IH (nextUTCDate cur)) as [later ->].
  eexists. reflexivity.
Qed.

(** X12: with one attendee [listAvailable30MinuteSlotsMultiplePerson] calls
    [intersectRanges] for no day: it walks the range of the attendee as it
    is, and never throws, whatever the shape of the ranges. *)
Theorem X12_one_attendee_never_throws (attendee : Multi.Attendee) :
  (forall endRange currentDate,
     Multi.daySlots [attendee] endRange currentDate
     = Ok match find (fun day => weekday day =? getUTCDay currentDate)
                  (include (Multi.availability attendee)) with
          | Some entry => Multi.pairLoop [attendee] endRange currentDate (range entry)
          | None => []
          end)
  /\ forall range,
       exists slots,
         Multi.listAvailable30MinuteSlotsMultiplePerson [attendee] range = Ok slots.
Proof.
  split; [apply multi_one_attendee_day|].
  intros [startRange endRange]. apply multi_one_attendee_loop.
Qed.

(** ** [intersectRanges] computes the intersection *)

Lemma validFrom_weaken (lo lo' : Z) (range : list TimeOfDay) :
  lo' <= lo -> validFrom lo range -> validFrom lo' range.
Proof. destruct range as [|s [|e rest]]; simpl; [tauto|tauto|]. intros; intuition lia. Qed.

Lemma validFrom_validRange (range : list TimeOfDay) :
  forall lo, validFrom lo range -> validRange range.
Proof.
  revert range. fix IH 1. intros [|s [|e rest]] lo; simpl; try tauto.
  intros (_ & Hse & Hrest). split; [exact Hse|]. split; [|exact (IH rest _ Hrest)].
  destruct rest as [|s' [|e' rest']]; simpl in Hrest; tauto.
Qed.

Lemma validRange_validFrom (range : list TimeOfDay) :
  validRange range ->
  forall lo,
    match range with
    | [] => True
    | start :: _ => lo <= Multi.minutesOf start
    end ->
    validFrom lo range.
Proof.
  revert range. fix IH 1. intros [|s [|e rest]]; simpl; try tauto.
  intros (Hse & Hnext & Hrest) lo Hlo. split; [exact Hlo|]. split; [exact Hse|].
  apply (IH rest Hrest). exact Hnext.
Qed.

Lemma covers_nil (t : Z) : ~ covers [] t.
Proof. intros (p & [] & _). Qed.

Lemma covers_pair (start end_ : TimeOfDay) (rest : list TimeOfDay) (t : Z) :
  covers (start :: end_ :: rest) t
  <-> Multi.minutesOf start <= t < Multi.minutesOf end_ \/ covers rest t.
Proof.
  unfold covers. simpl. split.
  - intros (p & [<-|Hin] & Hp); [left; exact Hp|right; eauto].
  - intros [Hp|(p & Hin & Hp)]; [eexists; split; [left; reflexivity|exact Hp]|eauto].
Qed.

Lemma covers_lower (range : list TimeOfDay) (t : Z) :
  forall lo, validFrom lo range -> covers range t -> lo <= t.
Proof.
  revert range. fix IH 1. intros [|s [|e rest]] lo Hv Hc.
  - destruct (covers_nil _ Hc).
  - destruct Hv.
  - simpl in Hv. destruct Hv as (Hlo & Hse & Hrest).
    apply covers_pair in Hc as [Hc|Hc]; [lia|].
    specialize (IH rest _ Hrest Hc). lia.
Qed.

(** What a step pushes: nothing when the two head pairs do not overlap, and
    their common part otherwise. *)
Lemma overlapOf_cases (startA endA startB endB : TimeOfDay) :
  (overlapOf startA endA startB endB = []
   /\ Z.min (Multi.minutesOf endA) (Multi.minutesOf endB)
      <= Z.max (Multi.minutesOf startA) (Multi.minutesOf startB))
  \/ (exists maxStart minEnd,
        overlapOf startA endA startB endB = [maxStart; minEnd]
        /\ Multi.minutesOf maxStart
           = Z.max (Multi.minutesOf startA) (Multi.minutesOf startB)
        /\ Multi.minutesOf minEnd
           = Z.min (Multi.minutesOf endA) (Multi.minutesOf endB)
        /\ Multi.minutesOf maxStart < Multi.minutesOf minEnd).
Proof.
  unfold overlapOf. cbv zeta.
  destruct (Z.gtb_spec (Multi.minutesOf startA) (Multi.minutesOf startB));
    destruct (Z.ltb_spec (Multi.minutesOf endA) (Multi.minutesOf endB));
    match goal with
    | |- context [?a <? ?b] => destruct (Z.ltb_spec a b)
    end;
    first [ left; split; [reflexivity|lia]
          | right; eexists _, _; split; [reflexivity|]; lia ].
Qed.

Lemma covers_overlap_app (startA endA startB endB : TimeOfDay)
    (rest : list TimeOfDay) (t : Z) :
  covers (overlapOf startA endA startB endB ++ rest) t
  <-> (Z.max (Multi.minutesOf startA) (Multi.minutesOf startB) <= t
       < Z.min (Multi.minutesOf endA) (Multi.minutesOf endB))
      \/ covers rest t.
Proof.
  destruct (overlapOf_cases startA endA startB endB)
    as [[-> Hempty]|(ms & me & -> & Hs & He & Hlt)]; simpl app.
  - split; [auto|]. intros [H|H]; [lia|exact H].
  - rewrite covers_pair, Hs, He. reflexivity.
Qed.

Lemma validFrom_overlap_app (startA endA startB endB : TimeOfDay)
    (rest : list TimeOfDay) (lo lo' : Z) :
  lo <= Z.max (Multi.minutesOf startA) (Multi.minutesOf startB) ->
  lo <= lo' ->
  Z.min (Multi.minutesOf endA) (Multi.minutesOf endB) <= lo' ->
  validFrom lo' rest ->
  validFrom lo (overlapOf startA endA startB endB ++ rest).
Proof.
  intros Hlo Hle Hmin Hrest.
  destruct (overlapOf_cases startA endA startB endB)
    as [[-> Hempty]|(ms & me & -> & Hs & He & Hlt)]; simpl app.
  - apply (validFrom_weaken _ _ _ Hle Hrest).
  - simpl. rewrite Hs, He in *. split; [exact Hlo|]. split; [exact Hlt|].
    apply (validFrom_weaken _ _ _ Hmin Hrest).
Qed.

Lemma intersectRanges_correct_fuel (n : nat) :
  forall rangeA rangeB loA loB,
    (length rangeA + length rangeB <= n)%nat ->
    validFrom loA rangeA -> validFrom loB rangeB ->
    exists common,
      Multi.intersectRanges rangeA rangeB = Ok common
      /\ validFrom (Z.max loA loB) common
      /\ forall t, covers common t <-> covers rangeA t /\ covers rangeB t.
Proof.
  induction n as [|n IH]; intros rangeA rangeB loA loB Hn HA HB.
  { destruct rangeA; [|simpl in Hn; lia].
    exists []. rewrite intersectRanges_nil_l. split; [reflexivity|]. split; [exact I|].
    intros t. split; [intros H|intros [H _]]; destruct (covers_nil _ H). }
  destruct rangeA as [|startA [|endA nextA]]; [|destruct HA|].
  { exists []. rewrite intersectRanges_nil_l. split; [reflexivity|]. split; [exact I|].
    intros t. split; [intros H|intros [H _]]; destruct (covers_nil _ H). }
  destruct rangeB as [|startB [|endB nextB]]; [|destruct HB|].
  { exists []. rewrite intersectRanges_nil_r. split; [reflexivity|]. split; [exact I|].
    intros t. split; [intros H|intros [_ H]]; destruct (covers_nil _ H). }
  assert (HA' := HA). assert (HB' := HB).
  simpl in HA', HB'. destruct HA' as (HloA & HsA & HnextA), HB' as (HloB & HsB & HnextB).
  rewrite intersectRanges_pairs.
  destruct (Z.ltb_spec (Multi.minutesOf endA) (Multi.minutesOf endB)) as [Hlt|Hge].
  - destruct (IH nextA (startB :: endB :: nextB) (Multi.minutesOf endA) loB
                ltac:(simpl in *; lia) HnextA HB) as (r & -> & Hv & Hc).
    eexists. split; [reflexivity|]. split.
    + eapply validFrom_overlap_app; [| | |exact Hv]; lia.
    + intros t. rewrite covers_overlap_app, Hc, !covers_pair.
      pose proof (covers_lower nextB t _ HnextB) as HlowB.
      split; [intros [H|[H1 [H2|H2]]]|intros [[H1|H1] [H2|H2]]];
        try (specialize (HlowB ltac:(assumption))); try tauto; try lia.
  - destruct (IH (startA :: endA :: nextA) nextB loA (Multi.minutesOf endB)
                ltac:(simpl in *; lia) HA HnextB) as (r & -> & Hv & Hc).
    eexists. split; [reflexivity|]. split.
    + eapply validFrom_overlap_app; [| | |exact Hv]; lia.
    + intros t. rewrite covers_overlap_app, Hc, !covers_pair.
      pose proof (covers_lower nextA t _ HnextA) as HlowA.
      split; [intros [H|[[H1|H1] H2]]|intros [[H1|H1] [H2|H2]]];
        try (specialize (HlowA ltac:(assumption))); try tauto; try lia.
Qed.

Lemma intersectRanges_correct (rangeA rangeB : list TimeOfDay) :
  validRange rangeA -> validRange rangeB ->
  exists common,
    Multi.intersectRanges rangeA rangeB = Ok common
    /\ validRange common
    /\ forall t, covers common t <-> covers rangeA t /\ covers rangeB t.
Proof.
  intros HA HB.
  set (loA := match rangeA with [] => 0 | start :: _ => Multi.minutesOf start end).
  set (loB := match rangeB with [] => 0 | start :: _ => Multi.minutesOf start end).
  destruct (intersectRanges_correct_fuel _ rangeA rangeB loA loB (Nat.le_refl _))
    as (common & E & Hv & Hc).
  - apply validRange_validFrom; [exact HA|]. destruct rangeA; [exact I|apply Z.le_refl].
  - apply validRange_validFrom; [exact HB|]. destruct rangeB; [exact I|apply Z.le_refl].
  - exists common. split; [exact E|]. split; [|exact Hc].
    apply (validFrom_validRange _ _ Hv).
Qed.

(** X13: on two valid pair-sequences [intersectRanges] returns a range that
    covers a minute of the day exactly when both arguments cover it. *)
Theorem X13_intersectRanges_is_intersection (rangeA rangeB : list TimeOfDay) :
  validRange rangeA -> validRange rangeB ->
  exists common,
    Multi.intersectRanges rangeA rangeB = Ok common
    /\ forall t, covers common t <-> covers rangeA t /\ covers rangeB t.
Proof.
  intros HA HB.
  destruct (intersectRanges_correct rangeA rangeB HA HB) as (common & E & _ & Hc).
  exists common. auto.
Qed.

Lemma X13_intersectRanges_is_intersection_witness :
  exists common,
    Multi.intersectRanges [mkTime 9 0; mkTime 12 0; mkTime 13 0; mkTime 14 0]
      [mkTime 10 0; mkTime 11 0; mkTime 11 30; mkTime 13 30] = Ok common
    /\ forall t,
         covers common t
         <-> covers [mkTime 9 0; mkTime 12 0; mkTime 13 0; mkTime 14 0] t
             /\ covers [mkTime 10 0; mkTime 11 0; mkTime 11 30; mkTime 13 30] t.
Proof.
  apply X13_intersectRanges_is_intersection.
  - vm_compute. repeat split; discriminate.
  - vm_compute. repeat split; discriminate.
Defined.

(** X14: the result of [intersectRanges] on two valid pair-sequences is a
    valid pair-sequence: complete pairs, each ascending, in order and without
    overlap. *)
Theorem X14_intersectRanges_result_valid (rangeA rangeB : list TimeOfDay) :
  validRange rangeA -> validRange rangeB ->
  exists common, Multi.intersectRanges rangeA rangeB = Ok common /\ validRange common.
Proof.
  intros HA HB.
  destruct (intersectRanges_correct rangeA rangeB HA HB) as (common & E & Hv & _).
  exists common. auto.
Qed.

Lemma X14_intersectRanges_result_valid_witness :
  exists common,
    Multi.intersectRanges [mkTime 9 0; mkTime 12 0; mkTime 13 0; mkTime 14 0]
      [mkTime 10 0; mkTime 11 0; mkTime 11 30; mkTime 13 30] = Ok common
    /\ validRange common.
Proof.
  apply X14_intersectRanges_result_valid.
  - vm_compute. repeat split; discriminate.
  - vm_compute. repeat split; discriminate.
Defined.

(** X15: [intersectRanges] of a valid pair-sequence with itself returns the
    sequence. *)
Theorem X15_intersectRanges_idempotent (range : list TimeOfDay) :
  validRange range -> Multi.intersectRanges range range = Ok range.
Proof.
  revert range. fix IH 1. intros [|s [|e rest]] Hv; [reflexivity|destruct Hv|].
  destruct (validRange_tail _ _ _ Hv) as [Hrest Hnext].
  simpl in Hv. destruct Hv as (Hse & _ & _).
  rewrite intersectRanges_pairs.
  destruct (Z.ltb_spec (Multi.minutesOf e) (Multi.minutesOf e)); [lia|].
  rewrite (intersectRanges_skip s e rest rest Hrest Hnext), (IH rest Hrest).
  unfold overlapOf. cbv zeta.
  destruct (Multi.minutesOf s >? Multi.minutesOf s);
    destruct (Z.ltb_spec (Multi.minutesOf e) (Multi.minutesOf e)); try lia;
    destruct (Z.ltb_spec (Multi.minutesOf s) (Multi.minutesOf e)); try lia;
    reflexivity.
Qed.


Lemma X15_intersectRanges_idempotent_witness :
  Multi.intersectRanges [mkTime 9 0; mkTime 12 0; mkTime 13 0; mkTime 14 0]
    [mkTime 9 0; mkTime 12 0; mkTime 13 0; mkTime 14 0]
  = Ok [mkTime 9 0; mkTime 12 0; mkTime 13 0; mkTime 14 0].
Proof.
  apply X15_intersectRanges_idempotent. vm_compute. repeat split; discriminate.
Defined.

(** ** The slots of the multi-person enumerator lie in a window of every attendee *)

Lemma reduce_intersect_covers (ranges : list (list TimeOfDay)) :
  ranges <> [] -> Forall validRange ranges ->
  exists commonRange,
    Multi.reduce Multi.intersectRanges ranges = Ok commonRange
    /\ validRange commonRange
    /\ forall t, covers commonRange t <-> Forall (fun r => covers r t) ranges.
Proof.
  destruct ranges as [|first rest]; [congruence|]. intros _ Hall.
  apply Forall_cons_iff in Hall as [Hfirst Hrest]. simpl.
  assert (forall acc, validRange acc ->
            exists commonRange,
              fold_left (fun acc curr => a ← acc; Multi.intersectRanges a curr)
                rest (Ok acc) = Ok commonRange
              /\ validRange commonRange
              /\ forall t, covers commonRange t
                           <-> covers acc t /\ Forall (fun r => covers r t) rest)
    as Hfold.
  { clear first Hfirst. induction Hrest as [|curr rest Hcurr _ IH]; intros acc Hacc.
    - exists acc. split; [reflexivity|]. split; [exact Hacc|].
      intros t. split; [intros H; split; [exact H|constructor]|tauto].
    - simpl.
      destruct (intersectRanges_correct acc curr Hacc Hcurr) as (r & -> & Hr & Hc).
      destruct (IH r Hr) as (commonRange & E & Hv & Hcov).
      exists commonRange. split; [exact E|]. split; [exact Hv|].
      intros t. rewrite Hcov, Hc, Forall_cons_iff. tauto. }
  destruct (Hfold first Hfirst) as (commonRange & E & Hv & Hcov).
  exists commonRange. split; [exact E|]. split; [exact Hv|].
  intros t. rewrite Hcov, Forall_cons_iff. tauto.
Qed.

Lemma commonAvailableRanges_valid (attendees : list Multi.Attendee) (day : Weekday) :
  validAttendees attendees ->
  Forall validRange (Multi.commonAvailableRanges attendees day).
Proof.
  unfold validAttendees, Multi.commonAvailableRanges.
  induction 1 as [|a rest Ha _ IH]; [constructor|].
  cbn [omap list_omap].
  destruct (find _ (include (Multi.availability a))) as [entry|] eqn:Hfind;
    cbn [fmap option_fmap option_map]; [|exact IH].
  constructor; [|exact IH].
  apply find_some in Hfind as [Hin _].
  rewrite Forall_forall in Ha. apply Ha, Hin.
Qed.

(** When the array of ranges is as long as the array of attendees, every
    attendee has an entry for the weekday, and its range is in the array. *)
Lemma commonAvailableRanges_full (attendees : list Multi.Attendee) (day : Weekday) :
  length (Multi.commonAvailableRanges attendees day) = length attendees ->
  forall attendee,
    In attendee attendees ->
    exists entry,
      find (fun w => weekday w =? day) (include (Multi.availability attendee))
      = Some entry
      /\ In (range entry) (Multi.commonAvailableRanges attendees day).
Proof.
  induction attendees as [|a rest IH]; intros Hlen attendee Hin; [contradiction|].
  pose proof (commonAvailableRanges_length rest day) as Hle.
  unfold Multi.commonAvailableRanges in *. cbn [omap list_omap] in *.
  destruct (find _ (include (Multi.availability a))) as [entry|] eqn:Hfind;
    cbn [fmap option_fmap option_map] in *.
  - simpl in Hlen. injection Hlen as Hlen.
    destruct Hin as [<-|Hin].
    + exists entry. split; [exact Hfind|left; reflexivity].
    + destruct (IH Hlen attendee Hin) as (e & He & Hine).
      exists e. split; [exact He|right; exact Hine].
  - simpl in Hlen. lia.
Qed.

Lemma in_multi_slotWalk_aligned (attendees : list Multi.Attendee)
    (endRange rangeEndTime : Z) (slot : CalendarSlot.t) (fuel : nat) :
  forall cur : Z,
    In slot (Multi.slotWalk fuel attendees endRange rangeEndTime cur) ->
    exists k, 0 <= k /\ CalendarSlot.start slot = cur + k * (30 * 60 * 1000).
Proof.
  induction fuel as [|fuel IH]; intros cur Hin; simpl in Hin; [contradiction|].
  destruct ((cur <? rangeEndTime) && (cur <? endRange)); [|contradiction].
  apply in_app_or in Hin as [Hhere|Hlater].
  - destruct (Multi.isAvailableForAll attendees cur _); [|contradiction].
    destruct Hhere as [<-|[]]. exists 0. simpl. lia.
  - destruct (IH _ Hlater) as (k & Hk & ->). exists (k + 1). lia.
Qed.

Lemma in_multi_pairLoop_covers (attendees : list Multi.Attendee)
    (endRange currentDate : Z) (slot : CalendarSlot.t) :
  forall commonRange,
    In slot (Multi.pairLoop attendees endRange currentDate commonRange) ->
    exists t,
      covers commonRange t
      /\ CalendarSlot.start slot = Day currentDate * msPerDay + t * msPerMinute
      /\ Multi.isAvailableForAll attendees (CalendarSlot.start slot)
           (CalendarSlot.start slot + 30 * 60 * 1000) = true.
Proof.
  fix IH 1. intros [|s [|e rest]] Hin; simpl in Hin; try contradiction.
  apply in_app_or in Hin as [Hin|Hin].
  - destruct (in_multi_slotWalk_aligned _ _ _ _ _ _ Hin) as (k & Hk & Hstart).
    apply MultiSlots.in_multi_slotWalk in Hin as (_ & _ & Hend & _ & Hfree).
    exists (Multi.minutesOf s + 30 * k). split; [|split; [|exact Hfree]].
    + apply covers_pair. left.
      unfold dateUTC, MakeTime, Multi.minutesOf, msPerDay, msPerHour, msPerMinute in *.
      lia.
    + rewrite Hstart.
      unfold dateUTC, MakeTime, Multi.minutesOf, msPerDay, msPerHour, msPerMinute.
      lia.
  - destruct (IH rest Hin) as (t & Hc & Hrest).
    exists t. split; [|exact Hrest]. apply covers_pair. right. exact Hc.
Qed.

Lemma multi_daySlots_sound (attendees : list Multi.Attendee) (endRange currentDate : Z) :
  attendees <> [] -> validAttendees attendees ->
  exists today,
    Multi.daySlots attendees endRange currentDate = Ok today
    /\ forall slot,
         In slot today ->
         exists t,
           CalendarSlot.start slot = Day currentDate * msPerDay + t * msPerMinute
           /\ Multi.isAvailableForAll attendees (CalendarSlot.start slot)
                (CalendarSlot.start slot + 30 * 60 * 1000) = true
           /\ forall attendee, In attendee attendees -> availableAt attendee currentDate t.
Proof.
  intros Hne Hvalid. unfold Multi.daySlots. cbv zeta.
  destruct (Nat.eqb_spec
              (length (Multi.commonAvailableRanges attendees (getUTCDay currentDate)))
              (length attendees)) as [Hlen|Hlen]; cbn [negb].
  2:{ exists []. split; [reflexivity|]. intros slot []. }
  destruct (reduce_intersect_covers
              (Multi.commonAvailableRanges attendees (getUTCDay currentDate)))
    as (commonRange & -> & _ & Hcov).
  { intros Hnil. rewrite Hnil in Hlen. destruct attendees; [congruence|discriminate]. }
  { apply commonAvailableRanges_valid, Hvalid. }
  eexists. split; [reflexivity|].
  intros slot Hin.
  destruct (in_multi_pairLoop_covers _ _ _ _ _ Hin) as (t & Hc & Hstart & Hfree).
  exists t. split; [exact Hstart|]. split; [exact Hfree|].
  intros attendee Hatt.
  destruct (commonAvailableRanges_full _ _ Hlen attendee Hatt) as (entry & Hfind & Hrange).
  exists entry. split; [exact Hfind|].
  apply Hcov in Hc. rewrite Forall_forall in Hc. apply Hc, Hrange.
Qed.

Lemma multi_dayLoop_sound (attendees : list Multi.Attendee) (endRange : Z) (fuel : nat) :
  attendees <> [] -> validAttendees attendees ->
  forall cur,
    exists slots,
      Multi.dayLoop fuel attendees endRange cur = Ok slots
      /\ forall slot,
           In slot slots ->
           exists (n : nat) (t : Z),
             cur + Z.of_nat n * msPerDay <= endRange
             /\ CalendarSlot.start slot
                = Day (cur + Z.of_nat n * msPerDay) * msPerDay + t * msPerMinute
             /\ Multi.isAvailableForAll attendees (CalendarSlot.start slot)
                  (CalendarSlot.start slot + 30 * 60 * 1000) = true
             /\ forall attendee,
                  In attendee attendees ->
                  availableAt attendee (cur + Z.of_nat n * msPerDay) t.
Proof.
  intros Hne Hvalid. induction fuel as [|fuel IH]; intros cur; simpl.
  { exists []. split; [reflexivity|]. intros slot []. }
  destruct (Z.leb_spec cur endRange) as [Hle|Hgt].
  2:{ exists []. split; [reflexivity|]. intros slot []. }
  destruct (multi_daySlots_sound attendees endRange cur Hne Hvalid) as (today & -> & Htoday).
  destruct (IH (nextUTCDate cur)) as (later & -> & Hlater).
  eexists. split; [reflexivity|].
  intros slot Hin. apply in_app_or in Hin as [Hin|Hin].
  - destruct (Htoday slot Hin) as (t & Hstart & Hfree & Hall).
    exists O, t. rewrite Z.add_0_r. auto.
  - destruct (Hlater slot Hin) as (n & t & Hle' & Hstart & Hfree & Hall).
    exists (S n), t. unfold nextUTCDate in *.
    replace (cur + Z.of_nat (S n) * msPerDay) with (cur + msPerDay + Z.of_nat n * msPerDay)
      by lia.
    auto.
Qed.



(** ** The day loops *)

Lemma dayFuel_stop (cur endRange : Z) : endRange < cur -> dayFuel cur endRange = O.
Proof.
  intros Hlt. unfold dayFuel.
  assert ((endRange - cur) / msPerDay < 0); [|lia].
  apply Z.div_lt_upper_bound; unfold msPerDay; lia.
Qed.

Lemma single_dayLoop_days (availability : CalendarAvailability)
    (events : list CalendarEvent.t) (startRange endRange : Z) (n : nat) :
  forall cur,
    dayFuel cur endRange = n ->
    Single.dayLoop n availability events startRange endRange cur
    = flat_map (Single.daySlots availability events startRange endRange) (days n cur).
Proof.
  induction n as [|n IH]; intros cur Hn; [reflexivity|].
  destruct (Z.leb_spec cur endRange) as [Hle|Hgt].
  - rewrite (SingleFacts.dayFuel_step _ _ Hle) in Hn. injection Hn as Hn.
    simpl. destruct (Z.leb_spec cur endRange); [|lia].
    rewrite (IH _ Hn). reflexivity.
  - rewrite (dayFuel_stop _ _ Hgt) in Hn. discriminate.
Qed.

Lemma in_days (endRange : Z) (n : nat) :
  forall cur d,
    dayFuel cur endRange = n ->
    In d (days n cur)
    <-> exists k : nat, d = cur + Z.of_nat k * msPerDay /\ d <= endRange.
Proof.
  induction n as [|n IH]; intros cur d Hn.
  - split; [intros []|]. intros (k & -> & Hle).
    destruct (Z.leb_spec cur endRange) as [Hin|Hout].
    + rewrite (SingleFacts.dayFuel_step _ _ Hin) in Hn. discriminate.
    + unfold msPerDay in *. lia.
  - destruct (Z.leb_spec cur endRange) as [Hle|Hgt].
    2:{ rewrite (dayFuel_stop _ _ Hgt) in Hn. discriminate. }
    rewrite (SingleFacts.dayFuel_step _ _ Hle) in Hn. injection Hn as Hn.
    simpl. rewrite (IH _ d Hn). unfold nextUTCDate. split.
    + intros [<-|(k & -> & Hk)].
      * exists O. split; [lia|exact Hle].
      * exists (S k). split; [lia|exact Hk].
    + intros ([|k] & -> & Hk); [left; lia|].
      right. exists k. split; [lia|]. lia.
Qed.

(** X17: [listAvailable30MinuteSlots] returns the slots of the visited days
    one day after the other; the visited days are [startRange] and the same
    time of day on the following days up to [endRange]; a date range that
    ends before it starts gives no slot. *)
Theorem X17_single_result_is_day_by_day (availability : CalendarAvailability)
    (events : list CalendarEvent.t) (startRange endRange : Z) :
  Single.listAvailable30MinuteSlots availability events (startRange, endRange)
  = flat_map (Single.daySlots availability events startRange endRange)
      (days (dayFuel startRange endRange) startRange)
  /\ (forall d,
        In d (days (dayFuel startRange endRange) startRange)
        <-> exists k : nat, d = startRange + Z.of_nat k * msPerDay /\ d <= endRange)
  /\ (endRange < startRange ->
      Single.listAvailable30MinuteSlots availability events (startRange, endRange) = []).
Proof.
  split; [|split].
  - apply single_dayLoop_days. reflexivity.
  - intros d. apply in_days. reflexivity.
  - intros Hlt. unfold Single.listAvailable30MinuteSlots.
    rewrite (dayFuel_stop _ _ Hlt). reflexivity.
Qed.

Lemma X17_single_result_is_day_by_day_witness :
  Single.listAvailable30MinuteSlots sundayMorning [] (sunday 10 0, sunday 9 0) = [].
Proof.
  apply (proj2 (proj2 (X17_single_result_is_day_by_day sundayMorning []
                         (sunday 10 0) (sunday 9 0)))).
  vm_compute. reflexivity.
Defined.

(** X18: with no attendee [listAvailable30MinuteSlotsMultiplePerson] throws as
    soon as the date range holds one day, by [reduce] on an empty array; on a
    date range that ends before it starts it returns no slot. *)
Theorem X18_no_attendee_throws (startRange endRange : Z) :
  Multi.listAvailable30MinuteSlotsMultiplePerson [] (startRange, endRange)
  = if startRange <=? endRange then Throw TypeError else Ok [].
Proof.
  unfold Multi.listAvailable30MinuteSlotsMultiplePerson.
  destruct (Z.leb_spec startRange endRange) as [Hle|Hgt].
  - rewrite (SingleFacts.dayFuel_step _ _ Hle). simpl.
    destruct (Z.leb_spec startRange endRange); [reflexivity|lia].
  - rewrite (dayFuel_stop _ _ Hgt). reflexivity.
Qed.

(** ** The validators compared *)

Lemma setHours_utcZone (d h m : Z) : setHours utcZone d h m = setUTCHours d h m.
Proof.
  unfold setHours, setUTCHours, UTC, LocalTime, utcZone.
  rewrite Z.add_0_r, Z.sub_0_r. reflexivity.
Qed.

(** X19: in a process that runs in UTC, on events without buffers and an
    availability whose first pairs span at most 24 hours, a slot that
    [isSlotAvailableWithEvents] accepts is accepted by
    [isSlotAvailableWithBuffer]. *)
Theorem X19_with_buffer_accepts_what_with_events_accepts
    (availability : CalendarAvailability) (events : list CalendarEvent.t)
    (slot : CalendarSlot.t) :
  firstPairWithinADay availability ->
  Forall unbuffered events ->
  WithEvents.isSlotAvailableWithEvents availability events slot = Ok true ->
  WithBuffer.isSlotAvailableWithBuffer utcZone availability events slot = true.
Proof.
  intros Hday Hbuf Hok.
  assert (Hconf : WithEvents.isSlotConflictedWithEvents (CalendarSlot.start slot)
                    (CalendarSlot.start slot + CalendarSlot.durationM slot * 60000)
                    events = false).
  { unfold WithEvents.isSlotAvailableWithEvents, WithEvents.calculateSlotEndTime in Hok.
    cbv zeta in Hok.
    destruct (WithEvents.isSlotWithinAvailability _ _ availability) as [within|];
      [|discriminate].
    cbn [mbind result_bind bindR] in Hok.
    destruct (negb within); [discriminate|].
    destruct (WithEvents.isSlotConflictedWithEvents _ _ events);
      [discriminate|reflexivity]. }
  apply with_events_accepts_iff in Hok
    as [(entry & first & second & others & Hfind & Hrange & Hlo & Hhi) _].
  unfold WithBuffer.isSlotAvailableWithBuffer, WithBuffer.calculateSlotEndTime.
  cbv zeta.
  rewrite (unbuffered_same_conflicts _ _ _ Hbuf), Hconf.
  replace (WithBuffer.isSlotWithinAvailability utcZone (CalendarSlot.start slot)
             (CalendarSlot.start slot + CalendarSlot.durationM slot * 60000)
             availability) with true; [reflexivity|].
  symmetry. apply existsb_exists.
  apply find_some in Hfind as [Hin Hweek].
  exists entry. split; [exact Hin|]. rewrite Hweek. simpl.
  apply existsb_exists. exists first. rewrite Hrange. split; [left; reflexivity|].
  rewrite setHours_utcZone.
  unfold firstPairWithinADay in Hday. rewrite Forall_forall in Hday.
  specialize (Hday _ Hin). rewrite Hrange in Hday.
  unfold setUTCHours, MakeTime, Multi.minutesOf, msPerHour, msPerMinute in *.
  bool_to_Z. lia.
Qed.

Lemma X19_with_buffer_accepts_what_with_events_accepts_witness :
  WithBuffer.isSlotAvailableWithBuffer utcZone sundayMorning
    [CalendarEvent.mk (sunday 9 30) (sunday 10 0) None]
    (CalendarSlot.mk (sunday 9 0) 30) = true.
Proof.
  apply X19_with_buffer_accepts_what_with_events_accepts.
  - repeat constructor. vm_compute. discriminate.
  - repeat constructor.
  - vm_compute. reflexivity.
Defined.

(** ** Where the slots of the single-person enumerator come from *)


